(** * German vocabulary game: scoring, word pool and daily puzzle

    A shallow embedding of the server-side logic of the game (word-match
    scoring and streaks, hangman scoring, the Redis-backed word pool and its
    enrichment, the seeded shuffle and the daily puzzle cache), together
    with the properties stated about it.

    Conventions of the embedding.
    - A JavaScript string is a [string]: a sequence of code units, here
      restricted to the code units 0..255 (Latin-1), which covers German
      orthography ([ä], [ö], [ü], [ß]).  One [ascii] is one code unit, and
      lower-casing maps code unit to code unit.  Where a word of other
      code units matters, in the classification of a word by its length,
      the word is a list of UTF-16 code units ([Utf16]).
    - A JavaScript number that is the length of an array or of a string,
      an index into one or a 32-bit hash is a [Z]; it stays below 2^32,
      where binary64 arithmetic on integers is exact.  A number that is
      read from the store or summed from what a client sent is a
      [number]: its sums are rounded to binary64, and its decimal text is
      the text of [Number::toString].  The one quotient whose rounding is
      observable (the progress ratio of a lost hangman game) and the random
      index of the shuffle are computed with binary64 primitives.
    - A plain object used as a map is a [JsObject.object]: it lists its
      integer-like keys first, and an assignment to [__proto__] makes no
      property.
    - Redis is explicit state, passed through every operation; a hash is
      the list of its fields in the order they were set. *)

From Stdlib Require Import ZArith QArith Qround Floats Uint63 Lia Ascii.
From stdpp Require Import gmap strings list pretty.

Local Open Scope string_scope.
Local Open Scope list_scope.
Local Open Scope Z_scope.

(** ** JavaScript strings *)

Module JsString.

(** [s.charCodeAt(i)] of a single code unit. *)
Definition charCode (a : ascii) : Z := Z.of_N (N_of_ascii a).

Definition fromCharCode (c : Z) : ascii := ascii_of_N (Z.to_N c).

(** Upper-case letters among the code units 0..255: [A]-[Z], and
    [À]-[Þ] except the multiplication sign (215). *)
Definition isUpper (a : ascii) : bool :=
  let c := charCode a in
  ((65 <=? c) && (c <=? 90)) || ((192 <=? c) && (c <=? 222) && negb (c =? 215)).

Definition lowerChar (a : ascii) : ascii :=
  if isUpper a then fromCharCode (charCode a + 32) else a.

(** [s.toLowerCase()] *)
Fixpoint toLowerCase (s : string) : string :=
  match s with
  | EmptyString => EmptyString
  | String a s' => String (lowerChar a) (toLowerCase s')
  end.

(** White space and line terminators among the code units 0..255:
    TAB, LF, VT, FF, CR, SP and NBSP. *)
Definition isWhiteSpace (a : ascii) : bool :=
  let c := charCode a in
  ((9 <=? c) && (c <=? 13)) || (c =? 32) || (c =? 160).

Fixpoint trimStart (s : string) : string :=
  match s with
  | EmptyString => EmptyString
  | String a s' => if isWhiteSpace a then trimStart s' else s
  end.

(** [trimEnd] drops a character when it is white space and everything
    after it has been dropped too. *)
Fixpoint trimEnd (s : string) : string :=
  match s with
  | EmptyString => EmptyString
  | String a s' =>
      match trimEnd s' with
      | EmptyString => if isWhiteSpace a then EmptyString else String a EmptyString
      | t => String a t
      end
  end.

(** [s.trim()] *)
Definition trim (s : string) : string := trimEnd (trimStart s).

(** [s.length] *)
Definition length (s : string) : Z := Z.of_nat (String.length s).

(** [s.split('')]: the code units of [s]. *)
Definition split_chars (s : string) : list ascii := String.list_ascii_of_string s.

(** Truthiness of a string: every string but the empty one. *)
Definition truthy (s : string) : bool :=
  match s with EmptyString => false | _ => true end.

(** [s.split(':')[0]] and [s.split(':')[1]] for a separator character:
    the text before the first separator, and the text between the first
    and the second one ([None] when there is no separator). *)
Fixpoint split_head (sep : ascii) (s : string) : string * option string :=
  match s with
  | EmptyString => (EmptyString, None)
  | String a s' =>
      if Ascii.eqb a sep then (EmptyString, Some s')
      else let '(h, r) := split_head sep s' in (String a h, r)
  end.

End JsString.

(** ** JavaScript numbers

    The numbers the modelled code produces: integers, [NaN] and the two
    infinities.  A JavaScript number is a binary64 number, so [Num z]
    stands for a number only when [z] has at most 53 significant bits
    (and is below 2^1024); the operations round to such integers. *)

Module JsNumber.

Inductive number : Type :=
| Num (z : Z)
| NaN
| Infinity (negative : bool).

(** The binary64 integer nearest to a natural number, ties to the even
    significand: a number of at most 53 bits is kept, a longer one keeps
    its 53 leading bits, rounded. *)
Definition roundMagnitude (m : Z) : Z :=
  let bits := Z.log2 m + 1 in
  if bits <=? 53 then m
  else
    let shift := bits - 53 in
    let q := Z.shiftr m shift in
    let r := Z.land m (Z.ones shift) in
    let half := Z.shiftl 1 (shift - 1) in
    let q := if (half <? r) || ((half =? r) && Z.odd q) then q + 1 else q in
    Z.shiftl q shift.

(** The number of an exact integer: the nearest binary64 number, which
    is infinite from 2^1024 - 2^970 on. *)
Definition ofZ (z : Z) : number :=
  let m := roundMagnitude (Z.abs z) in
  if m <? 2 ^ 1024 then Num (Z.sgn z * m) else Infinity (z <? 0).

(** [a + b]: the sum of two binary64 numbers is the binary64 number
    nearest to their exact sum. *)
Definition add (a b : number) : number :=
  match a, b with
  | Num x, Num y => ofZ (x + y)
  | NaN, _ | _, NaN => NaN
  | Infinity s, Num _ | Num _, Infinity s => Infinity s
  | Infinity s, Infinity t => if Bool.eqb s t then Infinity s else NaN
  end.

(** [Math.max(a, b)] *)
Definition max (a b : number) : number :=
  match a, b with
  | NaN, _ | _, NaN => NaN
  | Num x, Num y => Num (Z.max x y)
  | Infinity false, _ | _, Infinity false => Infinity false
  | Infinity true, y => y
  | x, Infinity true => x
  end.

(** The digits [s] and the exponent [n] of [Number::toString] for a
    positive integer [m], when [k] digits are enough: [s] has [k] digits,
    [s * 10^(n - k)] is a decimal numeral of the number [m], and among
    such values the one nearest to [m] is taken, the even one on a
    tie. *)
Definition digitsOfLength (m k : Z) : option (Z * Z) :=
  let n0 := Z.of_nat (String.length (pretty m)) in
  let candidate (n s : Z) : list (Z * Z) :=
    if (10 ^ (k - 1) <=? s) && (s <? 10 ^ k)
       && match ofZ (s * 10 ^ (n - k)) with Num m' => m' =? m | _ => false end
    then [(s, n)] else [] in
  let candidates :=
    candidate n0 (m / 10 ^ (n0 - k)) ++ candidate n0 (m / 10 ^ (n0 - k) + 1)
    ++ candidate (n0 + 1) (m / 10 ^ (n0 + 1 - k))
    ++ candidate (n0 + 1) (m / 10 ^ (n0 + 1 - k) + 1) in
  let distance (c : Z * Z) : Z := Z.abs (c.1 * 10 ^ (c.2 - k) - m) in
  fold_left
    (fun best c =>
       match best with
       | None => Some c
       | Some b =>
           if (distance c <? distance b) || ((distance c =? distance b) && Z.even c.1)
           then Some c else Some b
       end)
    candidates None.

(** The least number of digits that is enough, tried from [k] on. *)
Fixpoint shortestDigits (fuel : nat) (m k : Z) : option (Z * Z * Z) :=
  match fuel with
  | O => None
  | S fuel' =>
      match digitsOfLength m k with
      | Some (s, n) => Some (k, s, n)
      | None => shortestDigits fuel' m (k + 1)
      end
  end.

(** The exponent form [d.ddde+x] of a positive integer from 10^21 on;
    17 digits are enough for every binary64 number. *)
Definition exponentForm (m : Z) : string :=
  match shortestDigits 17 m 1 with
  | Some (k, s, n) =>
      match pretty s with
      | String d rest =>
          String d (if k =? 1 then "" else String "." rest)
          +:+ "e+" +:+ pretty (n - 1)
      | EmptyString => ""
      end
  | None => pretty m
  end.

(** [n.toString()]: an integer below 10^21 is printed with all its
    digits, a greater one in exponent form. *)
Definition toString (n : number) : string :=
  match n with
  | Num z =>
      if Z.abs z <? 10 ^ 21 then pretty z
      else (if z <? 0 then "-" else "") +:+ exponentForm (Z.abs z)
  | NaN => "NaN"
  | Infinity false => "Infinity"
  | Infinity true => "-Infinity"
  end.

(** The value of a digit in radix 10 or 16. *)
Definition digitValue (radix : Z) (a : ascii) : option Z :=
  let c := JsString.charCode a in
  let v := if (48 <=? c) && (c <=? 57) then Some (c - 48)
           else if (97 <=? c) && (c <=? 102) then Some (c - 87)
           else if (65 <=? c) && (c <=? 70) then Some (c - 55)
           else None in
  match v with
  | Some d => if d <? radix then Some d else None
  | None => None
  end.

(** The longest prefix of digits, read left to right; [None] when the
    text does not start with a digit. *)
Fixpoint parseDigits (radix : Z) (acc : option Z) (s : string) : option Z :=
  match s with
  | EmptyString => acc
  | String a s' =>
      match digitValue radix a with
      | Some d => parseDigits radix (Some (default 0 acc * radix + d)) s'
      | None => acc
      end
  end.

Definition parseUnsigned (s : string) : option Z :=
  match s with
  | String "0" (String "x" s') | String "0" (String "X" s') => parseDigits 16 None s'
  | _ => parseDigits 10 None s
  end.

(** [parseInt(s)] with no radix argument: leading white space is
    skipped, a sign is read, a [0x] prefix selects radix 16, and the
    longest prefix of digits is the value, as a number; [NaN] when there
    is none.  (Beyond 20 significant digits an implementation may read
    the further digits as zeros; the model reads them all.) *)
Definition parseInt (s : string) : number :=
  match JsString.trimStart s with
  | String "-" s' =>
      match parseUnsigned s' with Some v => ofZ (- v) | None => NaN end
  | String "+" s' =>
      match parseUnsigned s' with Some v => ofZ v | None => NaN end
  | s' =>
      match parseUnsigned s' with Some v => ofZ v | None => NaN end
  end.

(** *** Binary64 *)

Definition float_of_Z (z : Z) : float :=
  if z <? 0 then PrimFloat.opp (PrimFloat.of_uint63 (Uint63.of_Z (- z)))
  else PrimFloat.of_uint63 (Uint63.of_Z z).

(** [Math.floor(f)]: a finite binary64 is [(-1)^s * m * 2^e], and a shift
    by a negative amount is a shift to the right, which rounds towards
    minus infinity. *)
Definition floor (f : float) : number :=
  match Prim2SF f with
  | S754_zero _ => Num 0
  | S754_finite s m e => Num (Z.shiftl (if s then Z.neg m else Z.pos m) e)
  | S754_infinity s => Infinity s
  | S754_nan => NaN
  end.

End JsNumber.

Export JsNumber(number, Num, NaN, Infinity).

(** ** JavaScript arrays *)

Module JsArray.

(** [array[i]]: [None] is [undefined], the value of a read outside the
    array. *)
Definition item {A : Type} (array : list A) (i : Z) : option A :=
  if 0 <=? i then array !! Z.to_nat i else None.

(** [array.length] *)
Definition length {A : Type} (array : list A) : Z := Z.of_nat (List.length array).

(** [array.slice(0, count)]: a negative count is counted from the end. *)
Definition slice0 {A : Type} (array : list A) (count : Z) : list A :=
  if 0 <=? count then take (Z.to_nat count) array
  else take (Z.to_nat (length array + count)) array.

(** [[...new Set(array)]]: the first occurrence of every string, in
    order. *)
Fixpoint unique (seen : list string) (array : list string) : list string :=
  match array with
  | [] => []
  | x :: rest =>
      if bool_decide (x ∈ seen) then unique seen rest
      else x :: unique (x :: seen) rest
  end.

End JsArray.

(** ** JavaScript objects used as maps *)

Module JsObject.

(** The own properties of a plain object whose values are strings, in
    the order of their creation. *)
Definition object : Type := list (string * string).

(** An array index: the canonical numeral of an integer from 0 to
    2^32 - 2. *)
Definition arrayIndex (k : string) : option Z :=
  match JsNumber.parseDigits 10 None k with
  | Some v => if (v <=? 4294967294) && String.eqb (pretty v) k then Some v else None
  | None => None
  end.

(** A property that exists takes the new value and keeps its place, a
    new property is created after the others. *)
Fixpoint put (o : object) (k v : string) : object :=
  match o with
  | [] => [(k, v)]
  | (k', v') :: o' => if String.eqb k' k then (k, v) :: o' else (k', v') :: put o' k v
  end.

(** [o[k] = v] for a string [v].  The key [__proto__] names the accessor
    of [Object.prototype], whose setter ignores a value that is not an
    object: no property is created. *)
Definition set (o : object) (k v : string) : object :=
  if String.eqb k "__proto__" then o else put o k v.

(** [o[k]] for an own property [k]. *)
Definition getOwn (o : object) (k : string) : option string :=
  snd <$> List.find (fun kv => String.eqb kv.1 k) o.

Fixpoint insertIndex (i : Z) (k : string) (sorted : list (Z * string)) : list (Z * string) :=
  match sorted with
  | [] => [(i, k)]
  | (j, k') :: rest =>
      if i <? j then (i, k) :: sorted else (j, k') :: insertIndex i k rest
  end.

(** [Object.keys(o)]: the array indices in ascending order, then the
    other keys in the order of their creation. *)
Definition keys (o : object) : list string :=
  let indices :=
    fold_right
      (fun kv sorted =>
         match arrayIndex kv.1 with
         | Some i => insertIndex i kv.1 sorted
         | None => sorted
         end)
      [] o in
  let others :=
    List.filter (fun k => match arrayIndex k with Some _ => false | None => true end)
      (fst <$> o) in
  (snd <$> indices) ++ others.

(** [Object.entries(o)] *)
Definition entries (o : object) : list (string * string) :=
  (fun k => (k, default "" (getOwn o k))) <$> keys o.

(** The object made of a list of fields, one assignment after the
    other. *)
Definition ofFields (fields : list (string * string)) : object :=
  fold_left (fun o kv => set o kv.1 kv.2) fields [].

End JsObject.

(** ** Shared types ([shared/types/api.ts]) *)

(** The difficulty tiers ['easy'], ['medium'] and ['hard']. *)
Inductive HangmanDifficulty : Type := Easy | Medium | Hard.

Global Instance HangmanDifficulty_eq_dec : EqDecision HangmanDifficulty.
Proof. solve_decision. Defined.

Definition difficultyName (d : HangmanDifficulty) : string :=
  match d with Easy => "easy" | Medium => "medium" | Hard => "hard" end.

Record HangmanWord : Type := { word : string; hint : string }.

Inductive ChoiceKey : Type := A | B | C.

Record GameAnswer : Type := {
  itemId : string;
  pick : ChoiceKey;
  correct : bool;
  ms : Z
}.

Record UserState : Type := {
  streak : number;
  maxStreak : number;
  lastPlayed : option string
}.

(** The outcome of a call that may throw. *)
Inductive result (A : Type) : Type :=
| Ok (a : A)
| Throw (message : string).
Arguments Ok {A} a.
Arguments Throw {A} message.

(** ** Word-match scoring ([scoring.ts]) *)

Module Scoring.

Record Score : Type := { score : Z; perfect : bool }.

Definition computeScore (answers : list GameAnswer) : Score :=
  let score := Z.of_nat (length (List.filter (fun a => correct a) answers)) in
  let perfect := score =? Z.of_nat (length answers) in
  {| score := score; perfect := perfect |}.

Record StreakUpdate : Type := { newStreak : number; passed : bool }.

(** [Math.ceil(totalItems * 0.625)]: 0.625 is 5/8, a binary fraction, so
    the product of the source is the exact rational product. *)
Definition updateStreak (currentStreak : number) (score totalItems : Z) : StreakUpdate :=
  let passed := Qceiling (inject_Z totalItems * 0.625) <=? score in
  let newStreak := if passed then JsNumber.add currentStreak (Num 1) else Num 0 in
  {| newStreak := newStreak; passed := passed |}.

(** [answers.reduce((total, answer) => total + answer.ms, 0)]; the time
    of an answer is a whole number of milliseconds, held as the nearest
    binary64 number. *)
Definition calculateTotalTime (answers : list GameAnswer) : number :=
  fold_left (fun total answer => JsNumber.add total (JsNumber.ofZ (ms answer))) answers (Num 0).

End Scoring.

(** ** Hangman scoring ([hangman.ts]) *)

Module Hangman.

Record HangmanGuess : Type := {
  letter : string;
  correct : bool;
  timestamp : Z
}.

Record ScoreResult : Type := { score : number; perfect : bool }.

(** [new Set(word.toLowerCase().split('')).size] *)
Definition uniqueLettersInWord (word : string) : Z :=
  let letters : gset ascii :=
    list_to_set (JsString.split_chars (JsString.toLowerCase word)) in
  Z.of_nat (size letters).

(** [guesses.filter(g => g.correct).length] *)
Definition correctGuesses (guesses : list HangmanGuess) : Z :=
  Z.of_nat (length (List.filter (fun g => correct g) guesses)).

(** [guesses.filter(g => !g.correct).length] *)
Definition incorrectGuesses (guesses : list HangmanGuess) : Z :=
  Z.of_nat (length (List.filter (fun g => negb (correct g)) guesses)).

(** The time bonus of a won game; [timeMs / 1000] is an exact rational. *)
Definition timeBonus (timeMs : Z) : Z :=
  let timeSeconds := (inject_Z timeMs / 1000)%Q in
  if Qlt_le_dec timeSeconds 30 then 50
  else if Qlt_le_dec timeSeconds 60 then 30
  else if Qlt_le_dec timeSeconds 90 then 15
  else 0.

(** The efficiency bonus of a won game. *)
Definition efficiencyBonus (word : string) (guesses : list HangmanGuess) : Z :=
  let uniqueLettersInWord := uniqueLettersInWord word in
  let correctGuesses := correctGuesses guesses in
  if correctGuesses <=? uniqueLettersInWord then 50
  else if correctGuesses <=? uniqueLettersInWord + 2 then 25
  else 0.

(** [Math.floor(progressPercentage * 50)] with
    [progressPercentage = correctGuesses / uniqueLettersInWord], in
    binary64 as in the source. *)
Definition progressPoints (correctGuesses uniqueLettersInWord : Z) : number :=
  let progressPercentage :=
    PrimFloat.div (JsNumber.float_of_Z correctGuesses)
                  (JsNumber.float_of_Z uniqueLettersInWord) in
  JsNumber.floor (PrimFloat.mul progressPercentage (JsNumber.float_of_Z 50)).

Definition calculateScore (word : string) (guesses : list HangmanGuess)
    (success : bool) (timeMs : Z) : ScoreResult :=
  let score := Num 0 in
  let score :=
    if success then
      let score := JsNumber.add score (Num 100) in
      let remainingAttempts := 6 - incorrectGuesses guesses in
      let score := JsNumber.add score (Num (remainingAttempts * 15)) in
      let score := JsNumber.add score (Num (timeBonus timeMs)) in
      JsNumber.add score (Num (efficiencyBonus word guesses))
    else
      let uniqueLettersInWord := uniqueLettersInWord word in
      let correctGuesses := correctGuesses guesses in
      JsNumber.add score (progressPoints correctGuesses uniqueLettersInWord) in
  let perfect := success && negb (existsb (fun g => negb (correct g)) guesses) in
  {| score := score; perfect := perfect |}.

End Hangman.

(** ** Seeded selection ([seed.ts]) *)

Module Seed.

(** [ToInt32]: the signed 32-bit integer congruent to [z] modulo 2^32. *)
Definition toInt32 (z : Z) : Z := (z + 2^31) mod 2^32 - 2^31.

(** [a << n] and [a & b] on numbers: both operands go through [ToInt32],
    and so does the result of the shift. *)
Definition shl (a n : Z) : Z := toInt32 (Z.shiftl (toInt32 a) n).
Definition and (a b : Z) : Z := Z.land (toInt32 a) (toInt32 b).

(** The hash of the seed: for every code unit,
    [hash = ((hash << 5) - hash) + char; hash = hash & hash]. *)
Definition hashStep (hash : Z) (char : ascii) : Z :=
  let hash := (shl hash 5 - hash) + JsString.charCode char in
  and hash hash.

Definition hashSeed (seed : string) : Z :=
  fold_left hashStep (JsString.split_chars seed) 0.

(** [hash = (hash * 9301 + 49297) % 233280]; the remainder of JavaScript
    has the sign of the dividend. *)
Definition nextHash (hash : Z) : Z := Z.rem (hash * 9301 + 49297) 233280.

(** [Math.floor((hash / 233280) * currentIndex)], in binary64.  The
    product is finite, so the floor is an integer. *)
Definition randomIndex (hash currentIndex : Z) : Z :=
  let ratio := PrimFloat.div (JsNumber.float_of_Z hash) (JsNumber.float_of_Z 233280) in
  match JsNumber.floor (PrimFloat.mul ratio (JsNumber.float_of_Z currentIndex)) with
  | Num z => z
  | _ => 0
  end.

Section Shuffle.

(** The elements of the array, with the value a read outside the array
    gives. *)
Context {T : Type} (undefined : T).

(** A JavaScript array: its elements, and the properties that writes
    at negative indices create on the array object. *)
Record jsArray : Type := { elems : list T; props : gmap Z T }.

(** [array[i]] *)
Definition read (a : jsArray) (i : Z) : T :=
  if 0 <=? i then default undefined (elems a !! Z.to_nat i)
  else default undefined (props a !! i).

(** [array[i] = v]: inside the array the element is replaced, beyond
    its end the array grows with holes, and a negative index sets a
    property and leaves the elements alone. *)
Definition write (a : jsArray) (i : Z) (v : T) : jsArray :=
  if 0 <=? i then
    if (Z.to_nat i <? length (elems a))%nat then
      {| elems := <[Z.to_nat i := v]> (elems a); props := props a |}
    else
      {| elems := elems a ++ replicate (Z.to_nat i - length (elems a))%nat undefined ++ [v];
         props := props a |}
  else {| elems := elems a; props := <[i := v]> (props a) |}.

(** [[a[i], a[j]] = [a[j], a[i]]]: both reads come first, then the
    write at [i], then the write at [j]. *)
Definition swap (a : jsArray) (i j : Z) : jsArray :=
  let x := read a j in
  let y := read a i in
  write (write a i x) j y.

(** The loop [while (currentIndex !== 0)], by recursion on
    [currentIndex]. *)
Fixpoint shuffleLoop (currentIndex : nat) (hash : Z) (shuffled : jsArray) : jsArray :=
  match currentIndex with
  | O => shuffled
  | S currentIndex' =>
      let hash := nextHash hash in
      let randomIndex := randomIndex hash (Z.of_nat currentIndex) in
      shuffleLoop currentIndex' hash (swap shuffled (Z.of_nat currentIndex') randomIndex)
  end.

Definition seededShuffle (array : list T) (seed : string) : list T :=
  let shuffled := {| elems := array; props := ∅ |} in
  let hash := hashSeed seed in
  elems (shuffleLoop (length array) hash shuffled).

Definition selectRandomItems (items : list T) (count : Z) (seed : string) : list T :=
  let shuffled := seededShuffle items seed in
  JsArray.slice0 shuffled count.

End Shuffle.

End Seed.

(** ** Difficulty classification *)

Module RandomWordsAPI.

Definition estimateDifficulty (word : string) : HangmanDifficulty :=
  let len := JsString.length word in
  if len <=? 5 then Easy
  else if len <=? 9 then Medium
  else Hard.

End RandomWordsAPI.

Module OpenThesaurusAPI.

Definition estimateWordDifficulty (word : string) : HangmanDifficulty :=
  let normalizedWord := JsString.toLowerCase word in
  let length := JsString.length normalizedWord in
  if length <=? 5 then Easy
  else if length <=? 9 then Medium
  else Hard.

(** The calls to the thesaurus service.  Each of them catches its own
    errors, so each is a total function of its query. *)
Record provider : Type := {
  getWordsStartingWith : string -> list string;
  getWordsWithSubstring : string -> list string;
  getSynonyms : string -> list string;
  generateHint : string -> string
}.

End OpenThesaurusAPI.

(** *** Words beyond Latin-1

    The two classifiers on a word given by its UTF-16 code units,
    whatever they are.  [toLowerCase] is written out for the code units
    below 256, which it maps one to one, and for U+0130 (capital I with
    a dot above), which the special casing of Unicode maps to the two
    code units U+0069 U+0307; on a word with another code unit it
    answers [None]: the lower case of that word is not part of this
    development. *)

Module Utf16.

Definition text : Type := list Z.

(** The code units of a string of the embedding. *)
Definition ofString (s : string) : text := JsString.charCode <$> JsString.split_chars s.

Definition lowerUnit (u : Z) : option text :=
  if (0 <=? u) && (u <? 256) then
    Some [JsString.charCode (JsString.lowerChar (JsString.fromCharCode u))]
  else if u =? 304 then Some [105; 775]
  else None.

(** [s.toLowerCase()] *)
Fixpoint toLowerCase (word : text) : option text :=
  match word with
  | [] => Some []
  | u :: rest =>
      match lowerUnit u, toLowerCase rest with
      | Some lowered, Some others => Some (lowered ++ others)
      | _, _ => None
      end
  end.

Definition estimateDifficulty (word : text) : HangmanDifficulty :=
  let len := Z.of_nat (List.length word) in
  if len <=? 5 then Easy
  else if len <=? 9 then Medium
  else Hard.

Definition estimateWordDifficulty (word : text) : option HangmanDifficulty :=
  match toLowerCase word with
  | Some normalizedWord =>
      let length := Z.of_nat (List.length normalizedWord) in
      Some (if length <=? 5 then Easy
            else if length <=? 9 then Medium
            else Hard)
  | None => None
  end.

End Utf16.

(** ** The word pool ([word-enricher-redis.ts]) *)

Module WordEnricherRedis.

Definition REDIS_KEY_PREFIX : string := "german_words".
Definition REDIS_KEY_EASY : string := REDIS_KEY_PREFIX +:+ ":easy".
Definition REDIS_KEY_MEDIUM : string := REDIS_KEY_PREFIX +:+ ":medium".
Definition REDIS_KEY_HARD : string := REDIS_KEY_PREFIX +:+ ":hard".

(** The in-memory cache, one ordered collection per tier. *)
Record pools : Type := {
  easy : list HangmanWord;
  medium : list HangmanWord;
  hard : list HangmanWord
}.

Definition noWords : pools := {| easy := []; medium := []; hard := [] |}.

(** [enrichedWords[difficulty]] *)
Definition tier (p : pools) (d : HangmanDifficulty) : list HangmanWord :=
  match d with Easy => easy p | Medium => medium p | Hard => hard p end.

(** [enrichedWords[difficulty].push(entry)] *)
Definition push (p : pools) (d : HangmanDifficulty) (entry : HangmanWord) : pools :=
  match d with
  | Easy => {| easy := easy p ++ [entry]; medium := medium p; hard := hard p |}
  | Medium => {| easy := easy p; medium := medium p ++ [entry]; hard := hard p |}
  | Hard => {| easy := easy p; medium := medium p; hard := hard p ++ [entry] |}
  end.

(** [[...easy, ...medium, ...hard]] *)
Definition allWords (p : pools) : list HangmanWord := easy p ++ medium p ++ hard p.

(** A Redis hash: its fields with their values, in the order the store
    returns them, taken to be the order in which the fields were first
    set. *)
Definition hash : Type := list (string * string).

(** Setting one field: an existing field keeps its place and takes the
    new value, a new field goes to the end. *)
Fixpoint setField (h : hash) (k v : string) : hash :=
  match h with
  | [] => [(k, v)]
  | (k', v') :: h' => if String.eqb k' k then (k, v) :: h' else (k', v') :: setField h' k v
  end.

(** [redis.hSet(key, fields)] on the fields already stored. *)
Definition hSetFields (stored fields : hash) : hash :=
  fold_left (fun h kv => setField h kv.1 kv.2) fields stored.

(** The static state of the class together with the store it talks
    to.  The store operations succeed: a failing store is outside the
    model. *)
Record world : Type := {
  redis : gmap string hash;
  enrichedWords : pools;
  isInitialized : bool
}.

(** The fields the store holds under a key. *)
Definition hGetAll (w : world) (key : string) : hash := default [] (redis w !! key).

(** [redis.hSet(key, fields)] for the entries of an object; a call
    without fields writes nothing. *)
Definition hSet (w : world) (key : string) (fields : list (string * string)) : world :=
  match fields with
  | [] => w
  | _ =>
      {| redis := <[key := hSetFields (hGetAll w key) fields]> (redis w);
         enrichedWords := enrichedWords w;
         isInitialized := isInitialized w |}
  end.

Definition setPools (w : world) (p : pools) : world :=
  {| redis := redis w; enrichedWords := p; isInitialized := isInitialized w |}.

(** [`A German word with ${word.length} letters`] *)
Definition defaultHint (word : string) : string :=
  "A German word with " +:+ JsNumber.toString (Num (JsString.length word)) +:+ " letters".

(** [hint || `A German word with ...`] *)
Definition hintOrDefault (word hint : string) : string :=
  if JsString.truthy hint then hint else defaultHint word.

(** [redis.hGetAll(key)] gives the fields as an object, which the client
    of the store fills field by field. *)
Definition getWordsFromRedis (w : world) (key : string) : list HangmanWord :=
  let wordsHash := JsObject.ofFields (hGetAll w key) in
  if JsArray.length (JsObject.keys wordsHash) =? 0 then []
  else
    (fun word =>
       {| word := word;
          hint := hintOrDefault word (default "" (JsObject.getOwn wordsHash word)) |})
      <$> JsObject.keys wordsHash.

Definition initialize (w : world) : world :=
  if isInitialized w then w
  else
    let redisEasy := getWordsFromRedis w REDIS_KEY_EASY in
    let redisMedium := getWordsFromRedis w REDIS_KEY_MEDIUM in
    let redisHard := getWordsFromRedis w REDIS_KEY_HARD in
    {| redis := redis w;
       enrichedWords := {| easy := redisEasy; medium := redisMedium; hard := redisHard |};
       isInitialized := true |}.

Definition redisKey (difficulty : HangmanDifficulty) : string :=
  match difficulty with
  | Easy => REDIS_KEY_EASY
  | Medium => REDIS_KEY_MEDIUM
  | Hard => REDIS_KEY_HARD
  end.

Definition saveToRedis (difficulty : HangmanDifficulty) (words : list HangmanWord)
    (w : world) : world :=
  let key := redisKey difficulty in
  match words with
  | [] => w
  | _ =>
      let wordHash :=
        fold_left
          (fun o x => JsObject.set o (word x) (hintOrDefault (word x) (hint x)))
          words [] in
      hSet w key (JsObject.entries wordHash)
  end.

Definition getWords (difficulty : HangmanDifficulty) (w : world) : list HangmanWord * world :=
  let w := initialize w in
  (tier (enrichedWords w) difficulty, w).

Definition getAllWords (w : world) : pools * world :=
  let w := initialize w in
  (enrichedWords w, w).

(** [allWords.some(w => w.word.toLowerCase() === candidate)] *)
Definition exists_ (p : pools) (candidate : string) : bool :=
  existsb (fun x => String.eqb (JsString.toLowerCase (word x)) candidate) (allWords p).

Definition addWord (word hint : string) (difficulty : option HangmanDifficulty)
    (w : world) : bool * world :=
  let w := initialize w in
  let normalizedWord := JsString.trim (JsString.toLowerCase word) in
  if exists_ (enrichedWords w) normalizedWord then (false, w)
  else
    let actualDifficulty :=
      default (RandomWordsAPI.estimateDifficulty normalizedWord) difficulty in
    let newWord := {| word := normalizedWord; hint := hint |} in
    let w := setPools w (push (enrichedWords w) actualDifficulty newWord) in
    let w := saveToRedis actualDifficulty [newWord] w in
    (true, w).

(** The state of an enrichment loop: the pools, the entries added so
    far grouped by tier, and their number. *)
Record progress : Type := {
  current : pools;
  byDifficulty : pools;
  added : Z
}.

(** One turn of the loop of an enrichment: skip a word some tier
    already holds, else classify it, push it and count it. *)
Definition addEntry (estimate : string -> HangmanDifficulty)
    (st : progress) (entry : HangmanWord) : progress :=
  if exists_ (current st) (JsString.toLowerCase (word entry)) then st
  else
    let diff := estimate (word entry) in
    {| current := push (current st) diff entry;
       byDifficulty := push (byDifficulty st) diff entry;
       added := added st + 1 |}.

(** [for (const diff of ['easy', 'medium', 'hard']) if (byDifficulty[diff].length > 0)
    await this.saveToRedis(diff, byDifficulty[diff])] *)
Definition persist (byDifficulty : pools) (w : world) : world :=
  fold_left
    (fun w diff =>
       if 0 <? JsArray.length (tier byDifficulty diff)
       then saveToRedis diff (tier byDifficulty diff) w
       else w)
    [Easy; Medium; Hard] w.

(** What follows the loop: the pools it built are the pools of the
    class, the new entries are persisted tier by tier, and the count is
    returned. *)
Definition start (w : world) : progress :=
  {| current := enrichedWords w; byDifficulty := noWords; added := 0 |}.

Definition finish (st : progress) (w : world) : Z * world :=
  let w := setPools w (current st) in
  let w := persist (byDifficulty st) w in
  (added st, w).

(** [fetchRandomGermanWords] is the call to the random-word service:
    the entries it returns for a count, or [None] when it throws. *)
Definition enrichWithRandomGermanWords
    (fetchRandomGermanWords : Z -> option (list HangmanWord))
    (count : Z) (w : world) : Z * world :=
  let w := initialize w in
  match fetchRandomGermanWords count with
  | Some fetched =>
      finish (fold_left (addEntry RandomWordsAPI.estimateDifficulty) fetched (start w)) w
  | None => (0, w)
  end.

(** One turn of the loop of [searchAndAddWords]: the hint is asked for
    only when the word is new. *)
Definition addFound (api : OpenThesaurusAPI.provider)
    (st : progress) (word : string) : progress :=
  if exists_ (current st) (JsString.toLowerCase word) then st
  else
    let hint := OpenThesaurusAPI.generateHint api word in
    let difficulty := OpenThesaurusAPI.estimateWordDifficulty word in
    {| current := push (current st) difficulty {| word := word; hint := hint |};
       byDifficulty := push (byDifficulty st) difficulty {| word := word; hint := hint |};
       added := added st + 1 |}.

(** The candidates of a search: words starting with the term, then words
    containing it, then its synonyms, without the words shorter than
    three letters. *)
Definition candidates (api : OpenThesaurusAPI.provider)
    (searchTerm : string) (count : Z) : list string :=
  let wordPool : list string := [] in
  let startsWithWords := OpenThesaurusAPI.getWordsStartingWith api searchTerm in
  let wordPool := wordPool ++ startsWithWords in
  let wordPool :=
    if JsArray.length wordPool <? count * 2
    then JsArray.unique [] (wordPool ++ OpenThesaurusAPI.getWordsWithSubstring api searchTerm)
    else wordPool in
  let wordPool :=
    if (JsArray.length wordPool <? count) && (3 <=? JsString.length searchTerm)
    then JsArray.unique [] (wordPool ++ OpenThesaurusAPI.getSynonyms api searchTerm)
    else wordPool in
  List.filter (fun word => 3 <=? JsString.length word) wordPool.

(** [shuffle] is [wordPool.sort(() => 0.5 - Math.random())]: some
    rearrangement of the candidates, chosen by the random source. *)
Definition searchAndAddWords (api : OpenThesaurusAPI.provider)
    (shuffle : list string -> list string)
    (searchTerm : string) (count : Z) (w : world) : Z * world :=
  let w := initialize w in
  let wordPool := candidates api searchTerm count in
  let shuffled := shuffle wordPool in
  let selected := JsArray.slice0 shuffled count in
  finish (fold_left (addFound api) selected (start w)) w.

End WordEnricherRedis.

(** ** Word selection for hangman ([german-words.ts]) *)

Module GermanWords.

Import WordEnricherRedis.

Definition noWordsAvailable (difficulty : HangmanDifficulty) : string :=
  "No words available in Redis for difficulty " +:+ difficultyName difficulty.

Definition getWordByIndex
    (fetchRandomGermanWords : Z -> option (list HangmanWord))
    (difficulty : HangmanDifficulty) (index : Z) (w : world)
    : result (option HangmanWord) * world :=
  let '(words, w) := getWords difficulty w in
  let '(words, w) :=
    if JsArray.length words =? 0 then
      let '(_, w) := enrichWithRandomGermanWords fetchRandomGermanWords 6 w in
      getWords difficulty w
    else (words, w) in
  if JsArray.length words =? 0 then (Throw (noWordsAvailable difficulty), w)
  else
    let safeIndex := Z.rem index (JsArray.length words) in
    (Ok (JsArray.item words safeIndex), w).

Definition enrichWordList (api : OpenThesaurusAPI.provider)
    (shuffle : list string -> list string)
    (searchTerm : string) (count : Z) (w : world) : Z * world :=
  searchAndAddWords api shuffle searchTerm count w.

Definition addCustomWord (word hint : string) (difficulty : option HangmanDifficulty)
    (w : world) : bool * world :=
  addWord word hint difficulty w.

End GermanWords.

(** ** The static word list *)

Module StaticWords.

Definition auml : string := String "228" "".
Definition ouml : string := String "246" "".
Definition uuml : string := String "252" "".
Definition szlig : string := String "223" "".

Definition germanWords : WordEnricherRedis.pools := {|
  WordEnricherRedis.easy := [
    {| word := "hallo"; hint := "A common greeting" |};
    {| word := "danke"; hint := "What you say when someone helps you" |};
    {| word := "bitte"; hint := "Please or you're welcome" |};
    {| word := "haus"; hint := "Where you live" |};
    {| word := "katze"; hint := "A common pet that meows" |};
    {| word := "hund"; hint := "A common pet that barks" |};
    {| word := "buch"; hint := "You read this" |};
    {| word := "tisch"; hint := "You eat on this" |};
    {| word := "stuhl"; hint := "You sit on this" |};
    {| word := "auto"; hint := "A vehicle with four wheels" |} ];
  WordEnricherRedis.medium := [
    {| word := "schule"; hint := "Where children learn" |};
    {| word := "freund"; hint := "Someone you like spending time with" |};
    {| word := "familie"; hint := "Your relatives" |};
    {| word := "wasser"; hint := "You drink this" |};
    {| word := "sommer"; hint := "The hot season" |};
    {| word := "winter"; hint := "The cold season" |};
    {| word := "fr" +:+ uuml +:+ "hst" +:+ uuml +:+ "ck"; hint := "First meal of the day" |};
    {| word := "fenster"; hint := "You look outside through this" |};
    {| word := "stra" +:+ szlig +:+ "e"; hint := "Cars drive on this" |};
    {| word := "kuchen"; hint := "A sweet dessert" |} ];
  WordEnricherRedis.hard := [
    {| word := "sehensw" +:+ uuml +:+ "rdigkeit"; hint := "Tourist attraction" |};
    {| word := "geschwindigkeit"; hint := "How fast something moves" |};
    {| word := "freundschaft"; hint := "The relationship between friends" |};
    {| word := "wissenschaft"; hint := "Study of the natural world" |};
    {| word := "verantwortung"; hint := "Being accountable for something" |};
    {| word := "entschuldigung"; hint := "What you say when you're sorry" |};
    {| word := uuml +:+ "berraschung"; hint := "Something unexpected" |};
    {| word := "schwierigkeiten"; hint := "Problems or challenges" |};
    {| word := "wahrscheinlich"; hint := "Not certain but likely" |};
    {| word := "zusammenfassung"; hint := "A brief overview" |} ]
|}.

(** [index % words.length]: a remainder by zero is [NaN], and reading
    [words[NaN]] gives [undefined]. *)
Definition getWordByIndex (difficulty : HangmanDifficulty) (index : Z) : option HangmanWord :=
  let words := WordEnricherRedis.tier germanWords difficulty in
  if JsArray.length words =? 0 then None
  else
    let safeIndex := Z.rem index (JsArray.length words) in
    JsArray.item words safeIndex.

End StaticWords.

(** ** Word-match data ([shared/types/api.ts]) *)

Module WordMatch.

Inductive Direction : Type := EN_L2 | L2_EN.

Record Choice : Type := { label : string; key : ChoiceKey }.

(** An optional field that is absent is [None]. *)
Record WordMatchItem : Type := {
  id : string;
  prompt_en : string;
  direction : Direction;
  choices : list Choice;
  answerKey : ChoiceKey;
  note : option string;
  tags : option (list string);
  variants : option (list string);
  ref : option string
}.

(** An element of an array of items: an item, [undefined] or [null]. *)
Inductive slot : Type :=
| Item (item : WordMatchItem)
| Undefined
| Null.

Record Meta : Type := {
  author : option string;
  source : option string;
  difficulty : option Z
}.

End WordMatch.

Module WordMatchDaily.

Record t : Type := {
  id : string;
  lang : string;
  date : string;
  items : list WordMatch.slot;
  meta : option WordMatch.Meta
}.

End WordMatchDaily.

Module UserResult.

Record t : Type := {
  userId : string;
  seed : string;
  score : Z;
  timeMs : number;
  answers : list GameAnswer
}.

End UserResult.

(** A result as [JSON.stringify] writes it and [JSON.parse] reads it
    back: a time that is not a finite number is written as [null], which
    is [None] here. *)
Module StoredResult.

Record t : Type := {
  userId : string;
  seed : string;
  score : Z;
  timeMs : option Z;
  answers : list GameAnswer
}.

End StoredResult.

(** ** The key-value store ([storage.ts]) *)

Module GameStorage.

Import WordMatch.

(** The text [JSON.stringify] writes, kept as the document it denotes. *)
Inductive json : Type :=
| PuzzleDoc (puzzle : WordMatchDaily.t)
| BankDoc (items : list slot)
| ResultDoc (r : StoredResult.t).

(** What [JSON.stringify] does to an element of an array: [undefined]
    becomes [null]. *)
Definition jsonSlot (s : slot) : slot :=
  match s with
  | Undefined => Null
  | _ => s
  end.

Definition jsonResult (result : UserResult.t) : StoredResult.t :=
  {| StoredResult.userId := UserResult.userId result;
     StoredResult.seed := UserResult.seed result;
     StoredResult.score := UserResult.score result;
     StoredResult.timeMs :=
       match UserResult.timeMs result with
       | Num z => Some z
       | _ => None
       end;
     StoredResult.answers := UserResult.answers result |}.

Definition jsonPuzzle (puzzle : WordMatchDaily.t) : WordMatchDaily.t :=
  {| WordMatchDaily.id := WordMatchDaily.id puzzle;
     WordMatchDaily.lang := WordMatchDaily.lang puzzle;
     WordMatchDaily.date := WordMatchDaily.date puzzle;
     WordMatchDaily.items := jsonSlot <$> WordMatchDaily.items puzzle;
     WordMatchDaily.meta := WordMatchDaily.meta puzzle |}.

(** The store: the keys written with plain strings, and the keys
    written with JSON text.  Each family of keys is read back only by
    the code that writes it. *)
Record store : Type := {
  strings : gmap string string;
  docs : gmap string json
}.

Definition get (r : store) (key : string) : option string := strings r !! key.

Definition set (r : store) (key value : string) : store :=
  {| strings := <[key := value]> (strings r); docs := docs r |}.

Definition setDoc (r : store) (key : string) (value : json) : store :=
  {| strings := strings r; docs := <[key := value]> (docs r) |}.

(** [x ? parseInt(x) : 0] *)
Definition intOrZero (x : option string) : number :=
  match x with
  | Some x => if JsString.truthy x then JsNumber.parseInt x else Num 0
  | None => Num 0
  end.

Definition getUserState (userId : string) (r : store) : UserState :=
  let streak := get r ("user:" +:+ userId +:+ ":streak") in
  let maxStreak := get r ("user:" +:+ userId +:+ ":maxStreak") in
  let lastPlayed := get r ("user:" +:+ userId +:+ ":lastPlayed") in
  {| streak := intOrZero streak;
     maxStreak := intOrZero maxStreak;
     lastPlayed :=
       match lastPlayed with
       | Some x => if JsString.truthy x then Some x else None
       | None => None
       end |}.

(** The three writes are to three different keys, so their order does
    not matter; [lastPlayed] is written only when it is a non-empty
    string. *)
Definition updateUserState (userId : string) (state : UserState) (r : store) : store :=
  let r := set r ("user:" +:+ userId +:+ ":streak") (JsNumber.toString (streak state)) in
  let r := set r ("user:" +:+ userId +:+ ":maxStreak") (JsNumber.toString (maxStreak state)) in
  match lastPlayed state with
  | Some x =>
      if JsString.truthy x then set r ("user:" +:+ userId +:+ ":lastPlayed") x else r
  | None => r
  end.

Definition saveUserResult (result : UserResult.t) (r : store) : store :=
  let key := "user:" +:+ UserResult.userId result +:+ ":played:" +:+ UserResult.seed result in
  setDoc r key (ResultDoc (jsonResult result)).

Definition savePuzzle (puzzle : WordMatchDaily.t) (r : store) : store :=
  let key := "wm:puzzle:" +:+ WordMatchDaily.id puzzle in
  setDoc r key (PuzzleDoc (jsonPuzzle puzzle)).

Definition getPuzzle (seed : string) (r : store) : option WordMatchDaily.t :=
  let key := "wm:puzzle:" +:+ seed in
  match docs r !! key with
  | Some (PuzzleDoc puzzle) => Some puzzle
  | _ => None
  end.

Definition saveWordBank (lang : string) (items : list slot) (r : store) : store :=
  let key := "wm:bank:" +:+ lang in
  setDoc r key (BankDoc (jsonSlot <$> items)).

Definition getWordBank (lang : string) (r : store) : option (list slot) :=
  let key := "wm:bank:" +:+ lang in
  match docs r !! key with
  | Some (BankDoc bank) => Some bank
  | _ => None
  end.

End GameStorage.

(** ** The daily puzzle ([content.ts]) *)

Module ContentManager.

Import WordMatch GameStorage.

Definition auml : string := String "228" "".
Definition ouml : string := String "246" "".
Definition uuml : string := String "252" "".
Definition szlig : string := String "223" "".

Definition GERMAN_WORD_BANK : list WordMatchItem := [
  {| id := "w1"; prompt_en := "embarrassed"; direction := EN_L2;
     choices := [{| key := A; label := "embarazada" |}; {| key := B; label := "verlegen" |}; {| key := C; label := "peinlich" |}];
     answerKey := B;
     note := Some "Verlegen means embarrassed/shy. Peinlich means embarrassing (adjective).";
     tags := Some (["emotion"; "de-DE"]);
     variants := Some (["sch" +:+ uuml +:+ "chtern"]);
     ref := None |};
  {| id := "w2"; prompt_en := "kitchen"; direction := EN_L2;
     choices := [{| key := A; label := "die K" +:+ uuml +:+ "che" |}; {| key := B; label := "das Zimmer" |}; {| key := C; label := "der Keller" |}];
     answerKey := A;
     note := Some ("Die K" +:+ uuml +:+ "che is the kitchen. Das Zimmer is room, der Keller is basement.");
     tags := Some (["house"; "de-DE"]);
     variants := None;
     ref := None |};
  {| id := "w3"; prompt_en := "friend"; direction := EN_L2;
     choices := [{| key := A; label := "der Feind" |}; {| key := B; label := "der Fremde" |}; {| key := C; label := "der Freund" |}];
     answerKey := C;
     note := Some "Der Freund is friend (male). Der Feind is enemy, der Fremde is stranger.";
     tags := Some (["people"; "de-DE"]);
     variants := Some (["die Freundin"]);
     ref := None |};
  {| id := "w4"; prompt_en := "beautiful"; direction := EN_L2;
     choices := [{| key := A; label := "h" +:+ auml +:+ "sslich" |}; {| key := B; label := "sch" +:+ ouml +:+ "n" |}; {| key := C; label := "gro" +:+ szlig |}];
     answerKey := B;
     note := Some ("Sch" +:+ ouml +:+ "n means beautiful. H" +:+ auml +:+ "sslich means ugly, gro" +:+ szlig +:+ " means big/tall.");
     tags := Some (["adjective"; "de-DE"]);
     variants := None;
     ref := None |};
  {| id := "w5"; prompt_en := "to eat"; direction := EN_L2;
     choices := [{| key := A; label := "trinken" |}; {| key := B; label := "schlafen" |}; {| key := C; label := "essen" |}];
     answerKey := C;
     note := Some "Essen means to eat. Trinken is to drink, schlafen is to sleep.";
     tags := Some (["verb"; "de-DE"]);
     variants := None;
     ref := None |};
  {| id := "w6"; prompt_en := "car"; direction := EN_L2;
     choices := [{| key := A; label := "das Auto" |}; {| key := B; label := "der Zug" |}; {| key := C; label := "das Fahrrad" |}];
     answerKey := A;
     note := Some "Das Auto is car. Der Zug is train, das Fahrrad is bicycle.";
     tags := Some (["transport"; "de-DE"]);
     variants := None;
     ref := None |};
  {| id := "w7"; prompt_en := "water"; direction := EN_L2;
     choices := [{| key := A; label := "das Bier" |}; {| key := B; label := "das Wasser" |}; {| key := C; label := "der Wein" |}];
     answerKey := B;
     note := Some "Das Wasser is water. Das Bier is beer, der Wein is wine.";
     tags := Some (["drink"; "de-DE"]);
     variants := None;
     ref := None |};
  {| id := "w8"; prompt_en := "house"; direction := EN_L2;
     choices := [{| key := A; label := "das Haus" |}; {| key := B; label := "die Stra" +:+ szlig +:+ "e" |}; {| key := C; label := "der Park" |}];
     answerKey := A;
     note := Some ("Das Haus is house. Die Stra" +:+ szlig +:+ "e is street, der Park is park.");
     tags := Some (["building"; "de-DE"]);
     variants := None;
     ref := None |};
  {| id := "w9"; prompt_en := "good"; direction := EN_L2;
     choices := [{| key := A; label := "schlecht" |}; {| key := B; label := "gut" |}; {| key := C; label := "okay" |}];
     answerKey := B;
     note := Some "Gut means good. Schlecht means bad, okay means okay.";
     tags := Some (["adjective"; "de-DE"]);
     variants := None;
     ref := None |};
  {| id := "w10"; prompt_en := "dog"; direction := EN_L2;
     choices := [{| key := A; label := "die Katze" |}; {| key := B; label := "der Vogel" |}; {| key := C; label := "der Hund" |}];
     answerKey := C;
     note := Some "Der Hund is dog. Die Katze is cat, der Vogel is bird.";
     tags := Some (["animal"; "de-DE"]);
     variants := None;
     ref := None |};
  {| id := "w11"; prompt_en := "book"; direction := EN_L2;
     choices := [{| key := A; label := "das Buch" |}; {| key := B; label := "der Stift" |}; {| key := C; label := "das Papier" |}];
     answerKey := A;
     note := Some "Das Buch is book. Der Stift is pen, das Papier is paper.";
     tags := Some (["object"; "de-DE"]);
     variants := None;
     ref := None |};
  {| id := "w12"; prompt_en := "red"; direction := EN_L2;
     choices := [{| key := A; label := "blau" |}; {| key := B; label := "rot" |}; {| key := C; label := "gr" +:+ uuml +:+ "n" |}];
     answerKey := B;
     note := Some ("Rot means red. Blau is blue, gr" +:+ uuml +:+ "n is green.");
     tags := Some (["color"; "de-DE"]);
     variants := None;
     ref := None |} ].

Definition generatePuzzleFromBank (seed : string) (r : store)
    : result WordMatchDaily.t * store :=
  let '(wordBank, r) :=
    match getWordBank "de" r with
    | Some wordBank => (wordBank, r)
    | None =>
        let wordBank := Item <$> GERMAN_WORD_BANK in
        (wordBank, saveWordBank "de" wordBank r)
    end in
  let selectedItems := Seed.selectRandomItems Undefined wordBank 8 seed in
  let '(dateStr, rest) := JsString.split_head ":" seed in
  let lang := (fun rest => (JsString.split_head ":" rest).1) <$> rest in
  if negb (JsString.truthy dateStr) then (Throw "Invalid seed format", r)
  else
    (Ok {| WordMatchDaily.id := seed;
           WordMatchDaily.lang :=
             match lang with
             | Some lang => if JsString.truthy lang then lang else "de"
             | None => "de"
             end;
           WordMatchDaily.date := dateStr;
           WordMatchDaily.items := selectedItems;
           WordMatchDaily.meta :=
             Some {| author := Some "system"; source := None; difficulty := Some 1 |} |},
     r).

Definition getDailyPuzzle (seed : string) (r : store) : result WordMatchDaily.t * store :=
  match getPuzzle seed r with
  | Some puzzle => (Ok puzzle, r)
  | None =>
      match generatePuzzleFromBank seed r with
      | (Ok puzzle, r) => (Ok puzzle, savePuzzle puzzle r)
      | (Throw message, r) => (Throw message, r)
      end
  end.

Definition initializeContent (r : store) : store :=
  match getWordBank "de" r with
  | Some _ => r
  | None => saveWordBank "de" (Item <$> GERMAN_WORD_BANK) r
  end.

End ContentManager.

(** ** Submitting a result ([index.ts]) *)

(** The response of [POST /api/submit-result], without its share text. *)
Module SubmitResultResponse.

Record t : Type := {
  score : Z;
  perfect : bool;
  timeMs : number;
  newStreak : number;
  maxStreak : number;
  answers : list GameAnswer
}.

End SubmitResultResponse.

Module Server.

Import GameStorage.

Definition submitResult (result : UserResult.t) (r : store)
    : SubmitResultResponse.t * store :=
  let userId := UserResult.userId result in
  let seed := UserResult.seed result in
  let answers := UserResult.answers result in
  let computed := Scoring.computeScore answers in
  let score := Scoring.score computed in
  let perfect := Scoring.perfect computed in
  let timeMs := Scoring.calculateTotalTime answers in
  let userState := getUserState userId r in
  let newStreak :=
    Scoring.newStreak (Scoring.updateStreak (streak userState) score (JsArray.length answers)) in
  let maxStreak := JsNumber.max (maxStreak userState) newStreak in
  let updatedState :=
    {| streak := newStreak; maxStreak := maxStreak; lastPlayed := Some seed |} in
  let r := updateUserState userId updatedState r in
  let r :=
    saveUserResult
      {| UserResult.userId := userId; UserResult.seed := seed;
         UserResult.score := score; UserResult.timeMs := timeMs;
         UserResult.answers := answers |} r in
  ({| SubmitResultResponse.score := score;
      SubmitResultResponse.perfect := perfect;
      SubmitResultResponse.timeMs := timeMs;
      SubmitResultResponse.newStreak := newStreak;
      SubmitResultResponse.maxStreak := maxStreak;
      SubmitResultResponse.answers := answers |}, r).

End Server.

(** ** More of JavaScript's strings *)

Module JsText.

(** [s.startsWith(prefix)] *)
Fixpoint startsWith (prefix s : string) : bool :=
  match prefix, s with
  | EmptyString, _ => true
  | String a prefix', String b s' => Ascii.eqb a b && startsWith prefix' s'
  | String _ _, EmptyString => false
  end.

(** [s.includes(part)]: [part] starts at some position of [s]. *)
Fixpoint includes (s part : string) : bool :=
  startsWith part s ||
  match s with
  | EmptyString => false
  | String _ s' => includes s' part
  end.

(** [s.slice(0, 10)] *)
Definition slice10 (s : string) : string := String.substring 0 10 s.

(** [parts.join(separator)] *)
Fixpoint join (separator : string) (parts : list string) : string :=
  match parts with
  | [] => ""
  | [part] => part
  | part :: rest => part +:+ separator +:+ join separator rest
  end.

(** The string of one code unit. *)
Definition unit (a : ascii) : string := String a "".

(** [s.split('')] as strings of one code unit each. *)
Definition split (s : string) : list string := unit <$> JsString.split_chars s.

End JsText.

(** ** The seed of the day ([seed.ts]) *)

Module DailySeed.

(** [iso] is [date.toISOString()]. *)
Definition getTodaySeed (iso lang : string) : string :=
  JsText.slice10 iso +:+ ":" +:+ lang.

End DailySeed.

(** ** The random-word client ([random-words-api.ts]) *)

Module RandomWordsClient.

Inductive Category : Type := Wordle | Sports | Animals | Birds | Softwares | Companies.

Definition categoryName (c : Category) : string :=
  match c with
  | Wordle => "wordle" | Sports => "sports" | Animals => "animals"
  | Birds => "birds" | Softwares => "softwares" | Companies => "companies"
  end.

Inductive LetterCase : Type := Uppercase | Lowercase | Capitalized.

Record RandomWordsParams : Type := {
  language : option string;
  category : option Category;
  length : option Z;
  words : option Z;
  type : option LetterCase;
  alphabetize : option bool;
  firstletter : option string
}.

(** The separator of the parts of a hint: a middle dot between two
    spaces. *)
Definition middleDot : string := " " +:+ String "183" "" +:+ " ".

(** [opts.category] and [opts.length] are absent, or a string and a
    number that count when they are truthy. *)
Definition buildHint (word : string) (category : option string) (length : option Z) : string :=
  let parts : list string := [] in
  let parts :=
    match category with
    | Some c => if JsString.truthy c then parts ++ ["Category: " +:+ c] else parts
    | None => parts
    end in
  let parts :=
    match length with
    | Some n => if n =? 0 then parts else parts ++ [JsNumber.toString (Num n) +:+ " letters"]
    | None => parts
    end in
  if JsArray.length parts =? 0
  then "Random German word (" +:+ JsNumber.toString (Num (JsString.length word)) +:+ " letters)"
  else JsText.join middleDot parts.

(** [category] and [length] are the draws of [randomCategory] and
    [randomLength]; [fetchWords] is the call to the service, which
    returns the empty list when it fails. *)
Definition fetchRandomGermanWords
    (category : Category) (length : Z)
    (fetchWords : RandomWordsParams -> list string)
    (desiredCount : Z) : list HangmanWord :=
  let wordsParam := Z.max 3 (Z.min desiredCount 12) in
  let words :=
    fetchWords {| language := Some "de"; category := Some category; length := Some length;
                  words := Some wordsParam; type := Some Lowercase;
                  alphabetize := Some false; firstletter := None |} in
  let hintFor w := buildHint w (Some (categoryName category)) (Some length) in
  (fun w => {| word := w; hint := hintFor w |})
    <$> List.filter (fun w => JsString.truthy w && (3 <=? JsString.length w))
          ((fun w => JsString.trim (JsString.toLowerCase w)) <$> JsArray.unique [] words).

End RandomWordsClient.

(** ** The thesaurus client ([openthesaurus-api.ts]) *)

Module Thesaurus.

Record Synset : Type := {
  id : string;
  categories : list string;
  terms : list string
}.

(** The parts of a response the modelled calls read. *)
Record Response : Type := {
  synsets : list Synset;
  substring : option (list string)
}.

Record SearchOptions : Type := {
  similar : bool;
  substringOption : bool;
  startswith : bool
}.

Definition noOptions : SearchOptions :=
  {| similar := false; substringOption := false; startswith := false |}.

Section Client.

(** The request to the service: its response, or [None] when it
    throws. *)
Variable searchWord : string -> SearchOptions -> option Response.

(** The terms of all synsets that differ from the word in lower case, in
    the order a [Set] keeps them: first occurrences. *)
Definition getSynonyms (word : string) : list string :=
  match searchWord word noOptions with
  | Some response =>
      JsArray.unique []
        (List.filter
           (fun term => negb (String.eqb (JsString.toLowerCase term) (JsString.toLowerCase word)))
           (concat (terms <$> synsets response)))
  | None => []
  end.

Definition generateHint (word : string) : string :=
  let synonyms := getSynonyms word in
  match synonyms with
  | synonym :: _ => "Similar to: " +:+ synonym
  | [] => WordEnricherRedis.defaultHint word
  end.

End Client.

End Thesaurus.

(** ** Test words ([storage.ts]) *)

Module TestWords.

Import WordEnricherRedis.

Record TestWord : Type := {
  word : string;
  hint : string;
  difficulty : HangmanDifficulty
}.

(** The loop of [addTestWords], with the count it keeps. *)
Definition addTestWords (words : list TestWord) (w : world) : Z * world :=
  fold_left
    (fun '(addedCount, w) entry =>
       let '(added, w) := addWord (word entry) (hint entry) (Some (difficulty entry)) w in
       if added then (addedCount + 1, w) else (addedCount, w))
    words (0, w).

End TestWords.

(** ** Hangman games ([hangman.ts], [storage.ts]) *)

Module HangmanGame.

Record Meta : Type := { author : option string; source : option string }.

Record t : Type := {
  id : string;
  lang : string;
  date : string;
  word : string;
  hint : string;
  maxAttempts : Z;
  difficulty : HangmanDifficulty;
  meta : option Meta
}.

End HangmanGame.

Module HangmanManager.

(** The keys [hangman:game:...] of the store: the games written as JSON
    text, kept as the games they denote.  Every field of a game is a
    string or a number, so the text read back denotes the game written. *)
Definition games : Type := gmap string HangmanGame.t.

Definition saveHangmanGame (game : HangmanGame.t) (r : games) : games :=
  let key := "hangman:game:" +:+ HangmanGame.id game in
  <[key := game]> r.

Definition getHangmanGame (seed : string) (r : games) : option HangmanGame.t :=
  let key := "hangman:game:" +:+ seed in
  r !! key.

(** [Array.from(seed).reduce((acc, char) => acc + char.charCodeAt(0), 0)] *)
Definition seedNum (seed : string) : Z :=
  fold_left (fun acc char => acc + JsString.charCode char) (JsString.split_chars seed) 0.

Definition failedToGetWord (difficulty : HangmanDifficulty) : string :=
  "Failed to get word for difficulty " +:+ difficultyName difficulty.

(** [iso] is [date.toISOString()]; an absent [language] is ['de'] and an
    absent [difficulty] is ['medium']. *)
Definition createHangmanGame
    (fetchRandomGermanWords : Z -> option (list HangmanWord))
    (iso : string) (language : option string) (difficulty : option HangmanDifficulty)
    (w : WordEnricherRedis.world) (r : games)
    : result HangmanGame.t * WordEnricherRedis.world * games :=
  let language := default "de" language in
  let difficulty := default Medium difficulty in
  let dateStr := JsText.slice10 iso in
  let seed := dateStr +:+ ":" +:+ language +:+ ":hangman" in
  match getHangmanGame seed r with
  | Some existingGame => (Ok existingGame, w, r)
  | None =>
      let seedNum := seedNum seed in
      match GermanWords.getWordByIndex fetchRandomGermanWords difficulty seedNum w with
      | (Throw message, w) => (Throw message, w, r)
      | (Ok None, w) => (Throw (failedToGetWord difficulty), w, r)
      | (Ok (Some wordData), w) =>
          let game :=
            {| HangmanGame.id := seed;
               HangmanGame.lang := language;
               HangmanGame.date := dateStr;
               HangmanGame.word := word wordData;
               HangmanGame.hint := hint wordData;
               HangmanGame.maxAttempts := 6;
               HangmanGame.difficulty := difficulty;
               HangmanGame.meta :=
                 Some {| HangmanGame.author := None; HangmanGame.source := Some "hangman" |} |} in
          (Ok game, w, saveHangmanGame game r)
      end
  end.

End HangmanManager.

(** ** Content from Reddit ([reddit-content.ts]) *)

Module RedditContentManager.

Import WordMatch GameStorage.

Definition DEFAULT_SUBREDDIT : string := "German".

(** [wordBank.map(item => item.id)]: reading [id] of a slot that holds no
    item throws. *)
Fixpoint ids (wordBank : list slot) : option (list string) :=
  match wordBank with
  | [] => Some []
  | Item item :: rest => cons (id item) <$> ids rest
  | _ :: _ => None
  end.

(** [fetchRedditContent] is the call that reads the subreddit and builds
    the items; it returns the empty list when it fails.  An error thrown
    inside [refreshWordBank] is caught and gives [false]. *)
Definition refreshWordBank
    (fetchRedditContent : string -> list WordMatchItem)
    (subredditName : option string) (r : store) : bool * store :=
  let subredditName := default DEFAULT_SUBREDDIT subredditName in
  let wordBank := default [] (getWordBank "de" r) in
  let redditItems := fetchRedditContent subredditName in
  if JsArray.length redditItems =? 0 then (false, r)
  else
    match ids wordBank with
    | None => (false, r)
    | Some existingIds =>
        let newItems :=
          List.filter (fun item => negb (bool_decide (id item ∈ existingIds))) redditItems in
        let updatedWordBank := wordBank ++ (Item <$> newItems) in
        (true, saveWordBank "de" updatedWordBank r)
    end.

(** [iso] is [date.toISOString()]; an absent [lang] is ['de']. *)
Definition createRedditPuzzle
    (fetchRedditContent : string -> list WordMatchItem)
    (iso : string) (lang : option string) (r : store) : bool * store :=
  let lang := default "de" lang in
  let seed := JsText.slice10 iso +:+ ":" +:+ lang +:+ ":reddit" in
  let redditItems := fetchRedditContent DEFAULT_SUBREDDIT in
  if JsArray.length redditItems <? 8 then (false, r)
  else
    let puzzle :=
      {| WordMatchDaily.id := seed;
         WordMatchDaily.lang := lang;
         WordMatchDaily.date := JsText.slice10 iso;
         WordMatchDaily.items := Item <$> JsArray.slice0 redditItems 8;
         WordMatchDaily.meta :=
           Some {| author := Some "reddit"; source := Some DEFAULT_SUBREDDIT;
                   difficulty := Some 2 |} |} in
    (true, savePuzzle puzzle r).

End RedditContentManager.

(** ** The hangman board of the client ([Hangman.tsx]) *)

Module HangmanCompletion.

(** What the board hands to [onComplete]. *)
Record t : Type := {
  word : string;
  guesses : list Hangman.HangmanGuess;
  success : bool;
  timeMs : Z
}.

End HangmanCompletion.

Module HangmanBoard.

Import Hangman.

(** The state of the component. *)
Record state : Type := {
  guesses : list HangmanGuess;
  startTime : Z;
  gameOver : bool;
  success : bool
}.

Definition initial (startTime : Z) : state :=
  {| guesses := []; startTime := startTime; gameOver := false; success := false |}.

(** The keyboard: the letters a to z, the three umlauts and the sharp
    s. *)
Definition alphabet : list string :=
  JsText.split ("abcdefghijklmnopqrstuvwxyz"
                +:+ String "228" "" +:+ String "246" "" +:+ String "252" "" +:+ String "223" "").

(** [Array.from(new Set(game.word.toLowerCase().split('')))] *)
Definition uniqueLetters (game : HangmanGame.t) : list string :=
  JsArray.unique [] (JsText.split (JsString.toLowerCase (HangmanGame.word game))).

(** [guesses.some(g => g.letter === letter)] *)
Definition guessed (guesses : list HangmanGuess) (letter : string) : bool :=
  existsb (fun g => String.eqb (Hangman.letter g) letter) guesses.

Definition remainingAttempts (game : HangmanGame.t) (st : state) : Z :=
  HangmanGame.maxAttempts game - incorrectGuesses (guesses st).

Definition revealedLetters (game : HangmanGame.t) (st : state) : list (option string) :=
  (fun letter => if guessed (guesses st) letter then Some letter else None)
    <$> JsText.split (JsString.toLowerCase (HangmanGame.word game)).

Definition allLettersGuessed (game : HangmanGame.t) (st : state) : bool :=
  forallb (guessed (guesses st)) (uniqueLetters game).

(** [endTime] is the clock when the game ends. *)
Definition endGame (game : HangmanGame.t) (isSuccess : bool)
    (finalGuesses : list HangmanGuess) (endTime : Z) (st : state)
    : state * HangmanCompletion.t :=
  let timeSpent := endTime - startTime st in
  ({| guesses := guesses st; startTime := startTime st;
      gameOver := true; success := isSuccess |},
   {| HangmanCompletion.word := HangmanGame.word game;
      HangmanCompletion.guesses := finalGuesses;
      HangmanCompletion.success := isSuccess;
      HangmanCompletion.timeMs := timeSpent |}).

(** [timestamp] is the clock when the guess is made.  The result is the
    next state, and what [onComplete] receives when the game ends with
    this guess. *)
Definition handleLetterSelect (game : HangmanGame.t) (letter : string)
    (timestamp endTime : Z) (st : state) : state * option HangmanCompletion.t :=
  if gameOver st then (st, None)
  else
    let lowerLetter := JsString.toLowerCase letter in
    if guessed (guesses st) lowerLetter then (st, None)
    else
      let isCorrect :=
        JsText.includes (JsString.toLowerCase (HangmanGame.word game)) lowerLetter in
      let newGuess :=
        {| Hangman.letter := lowerLetter; correct := isCorrect; timestamp := timestamp |} in
      let updatedGuesses := guesses st ++ [newGuess] in
      let st :=
        {| guesses := updatedGuesses; startTime := startTime st;
           gameOver := gameOver st; success := success st |} in
      let newIncorrectGuesses := incorrectGuesses updatedGuesses in
      let wordGuessed := forallb (guessed updatedGuesses) (uniqueLetters game) in
      if wordGuessed || (HangmanGame.maxAttempts game <=? newIncorrectGuesses) then
        let '(st, completion) := endGame game wordGuessed updatedGuesses endTime st in
        (st, Some completion)
      else (st, None).

Definition handleTimerComplete (game : HangmanGame.t) (endTime : Z) (st : state)
    : state * option HangmanCompletion.t :=
  if negb (gameOver st) then
    let '(st, completion) := endGame game false (guesses st) endTime st in
    (st, Some completion)
  else (st, None).

(** What happens to the board: a key of the keyboard is pressed, or the
    timer runs out. *)
Inductive event : Type :=
| LetterSelect (letter : string) (timestamp endTime : Z)
| TimerComplete (endTime : Z).

Definition handle (game : HangmanGame.t) (ev : event) (st : state)
    : state * option HangmanCompletion.t :=
  match ev with
  | LetterSelect letter timestamp endTime => handleLetterSelect game letter timestamp endTime st
  | TimerComplete endTime => handleTimerComplete game endTime st
  end.

(** A sequence of events, with the calls of [onComplete] it makes. *)
Fixpoint play (game : HangmanGame.t) (events : list event) (st : state)
    : state * list HangmanCompletion.t :=
  match events with
  | [] => (st, [])
  | ev :: events =>
      let '(st, completion) := handle game ev st in
      let '(st, completions) := play game events st in
      (st, option_list completion ++ completions)
  end.

End HangmanBoard.


(** ** The stored results ([storage.ts]) *)

Module ResultStorage.

Import GameStorage.

Definition getUserResult (userId seed : string) (r : store) : option StoredResult.t :=
  let key := "user:" +:+ userId +:+ ":played:" +:+ seed in
  match docs r !! key with
  | Some (ResultDoc result) => Some result
  | _ => None
  end.

End ResultStorage.

(** ** Words around a seed word ([openthesaurus-api.ts],
    [word-enricher-redis.ts]) *)

Module SeedWords.

Import Thesaurus.

Section Client.

(** The request to the service: its response, or [None] when it
    throws. *)
Variable searchWord : string -> SearchOptions -> option Response.

(** [(response.substring || []).map(item => item.term)], and the empty
    list when the request fails. *)
Definition getWordsWithSubstring (substring : string) : list string :=
  match searchWord substring
          {| similar := false; substringOption := true; startswith := false |} with
  | Some response => default [] (Thesaurus.substring response)
  | None => []
  end.

Definition getWordsStartingWith (prefix : string) : list string :=
  match searchWord prefix
          {| similar := false; substringOption := false; startswith := true |} with
  | Some response => default [] (Thesaurus.substring response)
  | None => []
  end.

(** [shuffle] is [wordPool.sort(() => 0.5 - Math.random())]: some
    rearrangement of the pool, chosen by the random source. *)
Variable shuffle : list string -> list string.

Definition fetchRandomWords (seedWord : string) (count : Z) : list HangmanWord :=
  let firstLetter := String.substring 0 1 seedWord in
  let wordsStartingWithSameLetter := getWordsStartingWith firstLetter in
  let wordPool := wordsStartingWithSameLetter in
  let wordPool :=
    if (JsArray.length wordPool <? count * 2) && (3 <=? JsString.length seedWord)
    then
      let wordsWithSubstring := getWordsWithSubstring (String.substring 0 3 seedWord) in
      JsArray.unique [] (wordPool ++ wordsWithSubstring)
    else wordPool in
  let wordPool := List.filter (fun word => 3 <=? JsString.length word) wordPool in
  let shuffled := shuffle wordPool in
  let selected := JsArray.slice0 shuffled count in
  (fun word => {| word := word; hint := generateHint searchWord word |}) <$> selected.

Definition enrichWithSeedWord (seedWord : string) (count : Z)
    (w : WordEnricherRedis.world) : Z * WordEnricherRedis.world :=
  let w := WordEnricherRedis.initialize w in
  let newWords := fetchRandomWords seedWord count in
  WordEnricherRedis.finish
    (fold_left (WordEnricherRedis.addEntry OpenThesaurusAPI.estimateWordDifficulty)
       newWords (WordEnricherRedis.start w))
    w.

End Client.

End SeedWords.

(** ** The word-match board of the client ([Game.tsx]) *)

Module GameBoard.

Import WordMatch.

Global Instance ChoiceKey_eq_dec : EqDecision ChoiceKey.
Proof. solve_decision. Defined.

(** The state of the component, and the callback it has given to
    [setTimeout] and that has not run yet: the callback reads the
    [currentItemIndex] and the [[...answers, answer]] of the render that
    made it. *)
Record state : Type := {
  currentItemIndex : Z;
  answers : list GameAnswer;
  startTime : Z;
  selectedChoice : option ChoiceKey;
  isTimerRunning : bool;
  timeout : option (Z * list GameAnswer)
}.

Definition initial (startTime : Z) : state :=
  {| currentItemIndex := 0; answers := []; startTime := startTime;
     selectedChoice := None; isTimerRunning := true; timeout := None |}.

(** [puzzle.items[currentItemIndex]] when it is an item; [None] when the
    component renders its error screen. *)
Definition currentItem (puzzle : WordMatchDaily.t) (st : state) : option WordMatchItem :=
  match JsArray.item (WordMatchDaily.items puzzle) (currentItemIndex st) with
  | Some (Item item) => Some item
  | _ => None
  end.

(** [endTime] is the clock when the choice is made. *)
Definition handleChoiceSelect (currentItem : WordMatchItem) (choice : ChoiceKey)
    (endTime : Z) (st : state) : state :=
  match selectedChoice st with
  | Some _ => st
  | None =>
      let timeSpent := endTime - startTime st in
      let answer :=
        {| itemId := id currentItem;
           pick := choice;
           correct := bool_decide (choice = answerKey currentItem);
           ms := timeSpent |} in
      {| currentItemIndex := currentItemIndex st;
         answers := answers st ++ [answer];
         startTime := startTime st;
         selectedChoice := Some choice;
         isTimerRunning := false;
         timeout := Some (currentItemIndex st, answers st ++ [answer]) |}
  end.

Definition handleTimerComplete (currentItem : WordMatchItem) (endTime : Z) (st : state)
    : state :=
  match selectedChoice st with
  | None => handleChoiceSelect currentItem A endTime st
  | Some _ => st
  end.

(** The callback of [setTimeout] runs: the board moves to the next item,
    or hands the answers to [onComplete] after the last one.  [now] is
    the clock at that time. *)
Definition runTimeout (puzzle : WordMatchDaily.t) (now : Z) (st : state)
    : state * option (list GameAnswer) :=
  match timeout st with
  | None => (st, None)
  | Some (index, allAnswers) =>
      if index <? JsArray.length (WordMatchDaily.items puzzle) - 1 then
        ({| currentItemIndex := currentItemIndex st + 1;
            answers := answers st;
            startTime := now;
            selectedChoice := None;
            isTimerRunning := true;
            timeout := None |}, None)
      else
        ({| currentItemIndex := currentItemIndex st;
            answers := answers st;
            startTime := startTime st;
            selectedChoice := selectedChoice st;
            isTimerRunning := isTimerRunning st;
            timeout := None |}, Some allAnswers)
  end.

(** What happens to the board: a choice is clicked; the timer runs out
    or Skip is clicked; the pause after a choice is over; the button of
    the error screen is clicked. *)
Inductive event : Type :=
| ChoiceSelect (choice : ChoiceKey) (endTime : Z)
| TimerComplete (endTime : Z)
| Timeout (now : Z)
| ReturnHome.

(** An event is handled by the handlers of the latest render.  With a
    current item the board shows the choices, the timer and Skip; without
    one it shows the error screen and its button only. *)
Definition handle (puzzle : WordMatchDaily.t) (ev : event) (st : state)
    : state * option (list GameAnswer) :=
  match ev with
  | Timeout now => runTimeout puzzle now st
  | ChoiceSelect choice endTime =>
      match currentItem puzzle st with
      | Some item => (handleChoiceSelect item choice endTime st, None)
      | None => (st, None)
      end
  | TimerComplete endTime =>
      match currentItem puzzle st with
      | Some item => (handleTimerComplete item endTime st, None)
      | None => (st, None)
      end
  | ReturnHome =>
      match currentItem puzzle st with
      | Some _ => (st, None)
      | None => (st, Some [])
      end
  end.

(** A sequence of events, with the calls of [onComplete] it makes. *)
Fixpoint play (puzzle : WordMatchDaily.t) (events : list event) (st : state)
    : state * list (list GameAnswer) :=
  match events with
  | [] => (st, [])
  | ev :: events =>
      let '(st, completion) := handle puzzle ev st in
      let '(st, completions) := play puzzle events st in
      (st, option_list completion ++ completions)
  end.

End GameBoard.
(** * The vocabulary of the properties *)

(** ** Numbers *)

Definition number_eqb (a b : number) : bool :=
  match a, b with
  | Num x, Num y => x =? y
  | NaN, NaN => true
  | Infinity s, Infinity t => Bool.eqb s t
  | _, _ => false
  end.

(** A number the code keeps exactly: [NaN], or an integer of magnitude
    at most 2^53. *)
Definition safeNumber (n : number) : Prop :=
  match n with
  | Num z => -9007199254740992 <= z <= 9007199254740992
  | NaN => True
  | Infinity _ => False
  end.

(** A counter that can be raised by one exactly. *)
Definition safeCounter (n : number) : Prop :=
  match n with
  | Num z => -9007199254740992 <= z < 9007199254740992
  | NaN => True
  | Infinity _ => False
  end.

Definition isDigit (a : ascii) : bool :=
  match JsNumber.digitValue 10 a with Some _ => true | None => false end.

Fixpoint allDigits (s : string) : bool :=
  match s with
  | EmptyString => true
  | String a s' => isDigit a && allDigits s'
  end.

(** ** The shuffle *)

(** Whether every index the loop draws lies inside the part of the array
    that is still to be shuffled. *)
Fixpoint drawsInRange (currentIndex : nat) (hash : Z) : bool :=
  match currentIndex with
  | O => true
  | S currentIndex' =>
      let hash := Seed.nextHash hash in
      let randomIndex := Seed.randomIndex hash (Z.of_nat currentIndex) in
      (0 <=? randomIndex) && (randomIndex <? Z.of_nat currentIndex)
      && drawsInRange currentIndex' hash
  end.

(** ** The word pool *)

(** A word is present when some entry of some tier has its lower-case
    form. *)
Definition present (p : WordEnricherRedis.pools) (candidate : string) : Prop :=
  exists x, x ∈ WordEnricherRedis.allWords p /\ JsString.toLowerCase (word x) = candidate.

(** The invariant of the pool: no lower-cased word occurs twice, across
    all tiers. *)
Definition unique_pool (p : WordEnricherRedis.pools) : Prop :=
  NoDup ((fun x => JsString.toLowerCase (word x)) <$> WordEnricherRedis.allWords p).

(** What an enrichment that started from the pools [p0] has done: it
    appended [appended] to the tiers, returned the number of appended
    entries, appended no word that was present, and kept the invariant. *)
Definition enriched (p0 : WordEnricherRedis.pools) (outcome : Z * WordEnricherRedis.world)
    (appended : WordEnricherRedis.pools) : Prop :=
  (forall d, WordEnricherRedis.tier (WordEnricherRedis.enrichedWords outcome.2) d
             = WordEnricherRedis.tier p0 d ++ WordEnricherRedis.tier appended d) /\
  outcome.1 = Z.of_nat (length (WordEnricherRedis.allWords appended)) /\
  (forall x, x ∈ WordEnricherRedis.allWords appended ->
             ~ present p0 (JsString.toLowerCase (word x))) /\
  (unique_pool p0 -> unique_pool (WordEnricherRedis.enrichedWords outcome.2)) /\
  outcome.1 = Z.of_nat (length (WordEnricherRedis.allWords
                                  (WordEnricherRedis.enrichedWords outcome.2)))
              - Z.of_nat (length (WordEnricherRedis.allWords p0)).

(** The invariant of the loop of an enrichment. *)
Definition loop_inv (p0 : WordEnricherRedis.pools) (st : WordEnricherRedis.progress) : Prop :=
  (forall d, WordEnricherRedis.tier (WordEnricherRedis.current st) d
             = WordEnricherRedis.tier p0 d
               ++ WordEnricherRedis.tier (WordEnricherRedis.byDifficulty st) d) /\
  WordEnricherRedis.added st
    = Z.of_nat (length (WordEnricherRedis.allWords (WordEnricherRedis.byDifficulty st))) /\
  (forall x, x ∈ WordEnricherRedis.allWords (WordEnricherRedis.byDifficulty st) ->
             ~ present p0 (JsString.toLowerCase (word x))) /\
  (unique_pool p0 -> unique_pool (WordEnricherRedis.current st)).

(** ** The daily puzzle *)

(** The bank a new puzzle is drawn from, and the date part of a seed. *)
Definition bankOf (r : GameStorage.store) : list WordMatch.slot :=
  default (WordMatch.Item <$> ContentManager.GERMAN_WORD_BANK) (GameStorage.getWordBank "de" r).

Definition dateOf (seed : string) : string := (JsString.split_head ":" seed).1.

(** ** Concrete inputs *)

Definition emptyWorld : WordEnricherRedis.world :=
  {| WordEnricherRedis.redis := ∅;
     WordEnricherRedis.enrichedWords := WordEnricherRedis.noWords;
     WordEnricherRedis.isInitialized := false |}.

(** A process that has not loaded its pool yet, over a store that holds
    two easy words, one of them without a hint. *)
Definition storedWorld : WordEnricherRedis.world :=
  {| WordEnricherRedis.redis := {[ "german_words:easy" := [("apfel", "A fruit"); ("birne", "")] ]};
     WordEnricherRedis.enrichedWords := WordEnricherRedis.noWords;
     WordEnricherRedis.isInitialized := false |}.

(** A random-word service that answers with a word the pool holds, a new
    word, and the new word again. *)
Definition fetchThree (count : Z) : option (list HangmanWord) :=
  Some [ {| word := "apfel"; hint := "Category: wordle" |};
         {| word := "kirsche"; hint := "Category: wordle" |};
         {| word := "kirsche"; hint := "7 letters" |} ].

(** A thesaurus that knows three words for every prefix. *)
Definition thesaurus : OpenThesaurusAPI.provider :=
  {| OpenThesaurusAPI.getWordsStartingWith := fun _ => ["Apfel"; "Apfelbaum"; "apfelbaum"];
     OpenThesaurusAPI.getWordsWithSubstring := fun _ => [];
     OpenThesaurusAPI.getSynonyms := fun _ => [];
     OpenThesaurusAPI.generateHint := fun found => "Similar to: " +:+ found |}.

Definition emptyStore : GameStorage.store :=
  {| GameStorage.strings := ∅; GameStorage.docs := ∅ |}.

(** The id of the item in a slot, or the name of what the slot holds. *)
Definition slotName (s : WordMatch.slot) : string :=
  match s with
  | WordMatch.Item item => WordMatch.id item
  | WordMatch.Undefined => "undefined"
  | WordMatch.Null => "null"
  end.

Definition itemNames (outcome : result WordMatchDaily.t) : result (list string) :=
  match outcome with
  | Ok puzzle => Ok (slotName <$> WordMatchDaily.items puzzle)
  | Throw message => Throw message
  end.

(** ** The store behind the pool *)

(** An entry as a reload reads it back: the word, with the hint the store
    holds for it. *)
Definition stored (x : HangmanWord) : HangmanWord :=
  {| word := word x; hint := WordEnricherRedis.hintOrDefault (word x) (hint x) |}.

(** The entries that the fields of a hash stand for, one for each field
    in the order of the store, with the default hint for an empty
    value. *)
Definition readFields (fields : WordEnricherRedis.hash) : list HangmanWord :=
  (fun kv => {| word := kv.1; hint := WordEnricherRedis.hintOrDefault kv.1 kv.2 |}) <$> fields.

(** The store mirrors the cache: the fields of the hash of every tier
    are the words of the tier, in the order of the tier, each with its
    hint, or with the default hint when its hint is empty. *)
Definition mirrored (w : WordEnricherRedis.world) : Prop :=
  forall d, readFields (WordEnricherRedis.hGetAll w (WordEnricherRedis.redisKey d))
            = stored <$> WordEnricherRedis.tier (WordEnricherRedis.enrichedWords w) d.

(** A word that is a key like any other of a JavaScript object: it is
    not [__proto__] and not an array index. *)
Definition plainWord (k : string) : bool :=
  negb (String.eqb k "__proto__")
  && match JsObject.arrayIndex k with Some _ => false | None => true end.

Definition plain_pool (p : WordEnricherRedis.pools) : Prop :=
  forall x, x ∈ WordEnricherRedis.allWords p -> plainWord (word x) = true.

(** No tier lists a word twice. *)
Definition listed_once (p : WordEnricherRedis.pools) : Prop :=
  forall d, NoDup (word <$> WordEnricherRedis.tier p d).

(** The tier of a word of a given length. *)
Definition tierOfLength (n : nat) : HangmanDifficulty :=
  if (n <=? 5)%nat then Easy else if (n <=? 9)%nat then Medium else Hard.

(** A process that starts anew over the same store: the static fields of
    the class have their initial values. *)
Definition restart (w : WordEnricherRedis.world) : WordEnricherRedis.world :=
  {| WordEnricherRedis.redis := WordEnricherRedis.redis w;
     WordEnricherRedis.enrichedWords := WordEnricherRedis.noWords;
     WordEnricherRedis.isInitialized := false |}.

(** The field and the value [saveToRedis] writes for an entry. *)
Definition field (x : HangmanWord) : string * string :=
  (word x, WordEnricherRedis.hintOrDefault (word x) (hint x)).

(** ** The hangman board *)

(** The events of a game played on the keyboard of the board: every
    letter that is selected is a letter of the keyboard. *)
Definition onKeyboard (events : list HangmanBoard.event) : Prop :=
  Forall (fun ev => match ev with
                    | HangmanBoard.LetterSelect letter _ _ => letter ∈ HangmanBoard.alphabet
                    | HangmanBoard.TimerComplete _ => True
                    end) events.

(** What holds of the guesses of a board at any time. *)
Record consistent (game : HangmanGame.t) (guesses : list Hangman.HangmanGuess) : Prop := {
  distinct_letters : NoDup (Hangman.letter <$> guesses);
  honest_flags :
    forall g, g ∈ guesses ->
      Hangman.correct g
      = JsText.includes (JsString.toLowerCase (HangmanGame.word game)) (Hangman.letter g);
  bounded_misses :
    Hangman.incorrectGuesses guesses <= Z.max 1 (HangmanGame.maxAttempts game)
}.

(** The state of a board: its guesses are consistent; while the game is
    open a further miss is allowed and no success is shown; and a success
    is shown only when every letter of the word is guessed. *)
Definition board_inv (game : HangmanGame.t) (st : HangmanBoard.state) : Prop :=
  consistent game (HangmanBoard.guesses st) /\
  (HangmanBoard.gameOver st = false ->
   (Hangman.incorrectGuesses (HangmanBoard.guesses st) = 0 \/
    Hangman.incorrectGuesses (HangmanBoard.guesses st) < HangmanGame.maxAttempts game) /\
   HangmanBoard.success st = false) /\
  (HangmanBoard.success st = true -> HangmanBoard.allLettersGuessed game st = true).

(** The guess the board records for a letter. *)
Definition guessOf (game : HangmanGame.t) (letter : string) (timestamp : Z)
    : Hangman.HangmanGuess :=
  {| Hangman.letter := JsString.toLowerCase letter;
     Hangman.correct :=
       JsText.includes (JsString.toLowerCase (HangmanGame.word game))
         (JsString.toLowerCase letter);
     Hangman.timestamp := timestamp |}.

(** A call of [onComplete] that reports the board as it is. *)
Definition reports (game : HangmanGame.t) (st : HangmanBoard.state)
    (c : HangmanCompletion.t) : Prop :=
  HangmanBoard.gameOver st = true /\
  HangmanCompletion.guesses c = HangmanBoard.guesses st /\
  HangmanCompletion.word c = HangmanGame.word game /\
  (HangmanCompletion.success c = true ->
   forallb (HangmanBoard.guessed (HangmanBoard.guesses st)) (HangmanBoard.uniqueLetters game)
   = true).

(** The first code unit of a text. *)
Definition headUnit (s : string) : ascii :=
  match s with
  | String a _ => a
  | EmptyString => Ascii.zero
  end.

(** ** Further concrete inputs *)

(** A loaded pool over the store of [storedWorld]. *)
Definition loadedWorld : WordEnricherRedis.world := WordEnricherRedis.initialize storedWorld.

(** The clock of a morning in September, as [toISOString] writes it. *)
Definition morning : string := "2025-09-01T08:15:00.000Z".

Definition evening : string := "2025-09-01T21:40:00.000Z".

(** The game of the word "Haus", and a word the keyboard cannot spell. *)
Definition hausGame : HangmanGame.t :=
  {| HangmanGame.id := "2025-09-01:de:hangman"; HangmanGame.lang := "de";
     HangmanGame.date := "2025-09-01"; HangmanGame.word := "Haus";
     HangmanGame.hint := "Where you live"; HangmanGame.maxAttempts := 6;
     HangmanGame.difficulty := Easy; HangmanGame.meta := None |}.

Definition mailGame : HangmanGame.t :=
  {| HangmanGame.id := "2025-09-02:de:hangman"; HangmanGame.lang := "de";
     HangmanGame.date := "2025-09-02"; HangmanGame.word := "e-mail";
     HangmanGame.hint := "It arrives in your inbox"; HangmanGame.maxAttempts := 6;
     HangmanGame.difficulty := Medium; HangmanGame.meta := None |}.

(** One key of the keyboard after the other, a second apart. *)
Definition keys (letters : list string) : list HangmanBoard.event :=
  imap (fun i letter =>
          HangmanBoard.LetterSelect letter (1000 * Z.of_nat i) (1000 * Z.of_nat i + 1))
       letters.


(** ** The keys of a user *)

(** The keys that hold the progress of a user, and the key that holds
    the result of a user for a seed. *)
Definition progressKeys (userId : string) : list string :=
  [ "user:" +:+ userId +:+ ":streak";
    "user:" +:+ userId +:+ ":maxStreak";
    "user:" +:+ userId +:+ ":lastPlayed" ].

Definition playedKey (userId seed : string) : string :=
  "user:" +:+ userId +:+ ":played:" +:+ seed.

(** How many colons a text has. *)
Definition colons (s : string) : nat :=
  length (List.filter (fun a => Ascii.eqb a ":") (JsString.split_chars s)).

(** The sum of the times of a list of answers. *)
Definition totalTime (answers : list GameAnswer) : Z :=
  foldr (fun a total => ms a + total) 0 answers.

(** The result the server stores for a submitted result: the answers,
    scored and timed by the server. *)
Definition scored (result : UserResult.t) : StoredResult.t :=
  {| StoredResult.userId := UserResult.userId result;
     StoredResult.seed := UserResult.seed result;
     StoredResult.score :=
       Z.of_nat (length (List.filter (fun a => correct a) (UserResult.answers result)));
     StoredResult.timeMs := Some (totalTime (UserResult.answers result));
     StoredResult.answers := UserResult.answers result |}.

(** Whether a list of answers passes: at least five eighths of them are
    correct. *)
Definition passes (answers : list GameAnswer) : bool :=
  5 * Z.of_nat (length answers)
  <=? 8 * Z.of_nat (length (List.filter (fun a => correct a) answers)).

(** ** The word-match board *)

(** Answers that grade the items of a puzzle: one answer for every item,
    in the order of the items, each under the id of its item and marked
    correct exactly when its pick is the answer key of the item. *)
Definition graded (items : list WordMatch.WordMatchItem) (answers : list GameAnswer) : Prop :=
  Forall2
    (fun item a =>
       itemId a = WordMatch.id item /\
       correct a = bool_decide (pick a = WordMatch.answerKey item))
    items answers.

(** What holds of a board over the items [items] at any time: its index
    is the index of an item; it holds the graded answers of the items
    before the current one, and of the current one too once a choice is
    selected; and a callback that waits was made by the latest choice. *)
Definition game_inv (items : list WordMatch.WordMatchItem) (st : GameBoard.state) : Prop :=
  (0 <= GameBoard.currentItemIndex st < Z.of_nat (length items)) /\
  graded
    (take (Z.to_nat (GameBoard.currentItemIndex st)
           + match GameBoard.selectedChoice st with Some _ => 1 | None => 0 end)%nat items)
    (GameBoard.answers st) /\
  (forall index allAnswers,
     GameBoard.timeout st = Some (index, allAnswers) ->
     index = GameBoard.currentItemIndex st /\
     allAnswers = GameBoard.answers st /\
     GameBoard.selectedChoice st <> None).

(** One turn of a player: a choice or a skip at the time [clicked], and
    the end of the pause after it at the time [resumed]. *)
Inductive move : Type :=
| Choose (choice : ChoiceKey)
| Skip.

Record turn : Type := {
  made : move;
  clicked : Z;
  resumed : Z
}.

Definition pickOf (m : move) : ChoiceKey :=
  match m with
  | Choose choice => choice
  | Skip => A
  end.

Definition eventsOf (turns : list turn) : list GameBoard.event :=
  turns ≫= fun t =>
    [ match made t with
      | Choose choice => GameBoard.ChoiceSelect choice (clicked t)
      | Skip => GameBoard.TimerComplete (clicked t)
      end;
      GameBoard.Timeout (resumed t) ].

(** The answers of a sequence of turns on a sequence of items, the first
    of which is shown at [startTime]. *)
Fixpoint answersOf (items : list WordMatch.WordMatchItem) (turns : list turn)
    (startTime : Z) : list GameAnswer :=
  match items, turns with
  | item :: items, t :: turns =>
      {| itemId := WordMatch.id item;
         pick := pickOf (made t);
         correct := bool_decide (pickOf (made t) = WordMatch.answerKey item);
         ms := clicked t - startTime |}
      :: answersOf items turns (resumed t)
  | _, _ => []
  end.

(** ** Concrete inputs of the board and of the thesaurus *)

(** A puzzle of the first three words of the bank, and a puzzle without
    items. *)
Definition threeWords : WordMatchDaily.t :=
  {| WordMatchDaily.id := "2025-09-01:de"; WordMatchDaily.lang := "de";
     WordMatchDaily.date := "2025-09-01";
     WordMatchDaily.items := WordMatch.Item <$> take 3 ContentManager.GERMAN_WORD_BANK;
     WordMatchDaily.meta := None |}.

Definition emptyPuzzle : WordMatchDaily.t :=
  {| WordMatchDaily.id := "2025-09-02:de"; WordMatchDaily.lang := "de";
     WordMatchDaily.date := "2025-09-02";
     WordMatchDaily.items := [];
     WordMatchDaily.meta := None |}.

(** A player who picks B, lets the timer run out, and picks C. *)
Definition threeTurns : list turn :=
  [ {| made := Choose B; clicked := 2500; resumed := 3500 |};
    {| made := Skip; clicked := 13500; resumed := 14500 |};
    {| made := Choose C; clicked := 16000; resumed := 17000 |} ].

(** A player who clicks twice, and clicks on after the game is over. *)
Definition hastyClicks : list GameBoard.event :=
  [ GameBoard.ChoiceSelect B 2500; GameBoard.ChoiceSelect C 2600; GameBoard.Timeout 3500;
    GameBoard.TimerComplete 13500; GameBoard.TimerComplete 13600; GameBoard.Timeout 14500;
    GameBoard.ReturnHome; GameBoard.ChoiceSelect C 16000; GameBoard.Timeout 17000;
    GameBoard.ChoiceSelect A 18000; GameBoard.Timeout 19000 ].

(** A thesaurus service that lists three words for a prefix and one for
    a substring, and fails on every other request. *)
Definition listing (query : string) (options : Thesaurus.SearchOptions)
    : option Thesaurus.Response :=
  if Thesaurus.startswith options then
    Some {| Thesaurus.synsets := [];
            Thesaurus.substring := Some ["Ananas"; "Ab"; "Apfelbaum"] |}
  else if Thesaurus.substringOption options then
    Some {| Thesaurus.synsets := []; Thesaurus.substring := Some ["Zapfen"] |}
  else None.

(** A result of one correct answer. *)
Definition played (userId seed : string) : UserResult.t :=
  {| UserResult.userId := userId; UserResult.seed := seed;
     UserResult.score := 0; UserResult.timeMs := Num 0;
     UserResult.answers := [{| itemId := "w1"; pick := B; correct := true; ms := 900 |}] |}.
(** * Properties *)

(** ** Strings *)

Lemma toLowerCase_length (s : string) :
  String.length (JsString.toLowerCase s) = String.length s.
Proof. induction s as [|a s IH]; simpl; [reflexivity | now rewrite IH]. Qed.

Lemma lowerChar_idempotent (a : ascii) :
  JsString.lowerChar (JsString.lowerChar a) = JsString.lowerChar a.
Proof. destruct a as [[] [] [] [] [] [] [] []]; reflexivity. Qed.

Lemma toLowerCase_idempotent (s : string) :
  JsString.toLowerCase (JsString.toLowerCase s) = JsString.toLowerCase s.
Proof.
  induction s as [|a s IH]; simpl; [reflexivity|].
  now rewrite lowerChar_idempotent, IH.
Qed.

Lemma trimStart_lower (s : string) :
  JsString.toLowerCase s = s ->
  JsString.toLowerCase (JsString.trimStart s) = JsString.trimStart s.
Proof.
  induction s as [|a s IH]; simpl; intros H; [reflexivity|].
  destruct (JsString.isWhiteSpace a); [|exact H].
  apply IH. now injection H.
Qed.

Lemma trimEnd_lower (s : string) :
  JsString.toLowerCase s = s ->
  JsString.toLowerCase (JsString.trimEnd s) = JsString.trimEnd s.
Proof.
  induction s as [|a s IH]; simpl; intros H; [reflexivity|].
  injection H as Ha Hs. specialize (IH Hs).
  destruct (JsString.trimEnd s) as [|b t].
  - destruct (JsString.isWhiteSpace a); simpl; [reflexivity | now rewrite Ha].
  - simpl in *. now rewrite Ha, IH.
Qed.

(** A word that was lower-cased and trimmed is its own lower-case form. *)
Lemma normalized_lower (word : string) :
  let normalizedWord := JsString.trim (JsString.toLowerCase word) in
  JsString.toLowerCase normalizedWord = normalizedWord.
Proof.
  simpl. unfold JsString.trim.
  apply trimEnd_lower, trimStart_lower, toLowerCase_idempotent.
Qed.

(** ** Difficulty classification *)

(** The two classifiers on the strings of the embedding. *)
Lemma difficulty_of_string (w : string) :
  let len := String.length w in
  (RandomWordsAPI.estimateDifficulty w = Easy <-> (len <= 5)%nat) /\
  (RandomWordsAPI.estimateDifficulty w = Medium <-> (6 <= len <= 9)%nat) /\
  (RandomWordsAPI.estimateDifficulty w = Hard <-> (10 <= len)%nat) /\
  OpenThesaurusAPI.estimateWordDifficulty w = RandomWordsAPI.estimateDifficulty w.
Proof.
  cbv zeta.
  unfold OpenThesaurusAPI.estimateWordDifficulty, RandomWordsAPI.estimateDifficulty,
    JsString.length.
  rewrite toLowerCase_length.
  destruct (Z.leb_spec (Z.of_nat (String.length w)) 5);
    destruct (Z.leb_spec (Z.of_nat (String.length w)) 9);
    repeat split; intros; try discriminate; try lia; reflexivity.
Qed.

Lemma ofString_length (s : string) : length (Utf16.ofString s) = String.length s.
Proof.
  unfold Utf16.ofString, JsString.split_chars. rewrite length_fmap.
  induction s as [|a s IH]; cbn; [reflexivity | now rewrite IH].
Qed.

Lemma charCode_range (a : ascii) : 0 <= JsString.charCode a < 256.
Proof.
  unfold JsString.charCode. pose proof (N_ascii_bounded a). lia.
Qed.

Lemma lowerUnit_charCode (a : ascii) :
  Utf16.lowerUnit (JsString.charCode a) = Some [JsString.charCode (JsString.lowerChar a)].
Proof.
  unfold Utf16.lowerUnit. pose proof (charCode_range a) as Ha.
  destruct (Z.leb_spec 0 (JsString.charCode a)); [|lia].
  destruct (Z.ltb_spec (JsString.charCode a) 256); [|lia]. cbn [andb].
  unfold JsString.fromCharCode, JsString.charCode at 2.
  now rewrite N2Z.id, ascii_N_embedding.
Qed.

(** On the strings of the embedding the two lower-casings agree. *)
Lemma toLowerCase_ofString (s : string) :
  Utf16.toLowerCase (Utf16.ofString s) = Some (Utf16.ofString (JsString.toLowerCase s)).
Proof.
  induction s as [|a s IH]; [reflexivity|].
  change (Utf16.ofString (String a s)) with (JsString.charCode a :: Utf16.ofString s).
  cbn [Utf16.toLowerCase]. rewrite lowerUnit_charCode, IH. reflexivity.
Qed.

Lemma lowerUnit_latin1 (u : Z) :
  0 <= u < 256 -> exists v, Utf16.lowerUnit u = Some [v] /\ 0 <= v < 256.
Proof.
  intros Hu. unfold Utf16.lowerUnit.
  destruct (Z.leb_spec 0 u); [|lia]. destruct (Z.ltb_spec u 256); [|lia]. cbn [andb].
  eexists. split; [reflexivity | apply charCode_range].
Qed.

Lemma lowerUnit_some (u : Z) (lowered : Utf16.text) :
  Utf16.lowerUnit u = Some lowered -> (1 <= length lowered)%nat.
Proof.
  unfold Utf16.lowerUnit. destruct (_ && _); [intros [= <-]; cbn; lia|].
  destruct (u =? 304); [intros [= <-]; cbn; lia | discriminate].
Qed.

(** Lower-casing never shortens a word. *)
Lemma toLowerCase_grows (w lowered : Utf16.text) :
  Utf16.toLowerCase w = Some lowered -> (length w <= length lowered)%nat.
Proof.
  revert lowered. induction w as [|u w IH]; intros lowered; cbn [Utf16.toLowerCase].
  - intros [= <-]. reflexivity.
  - destruct (Utf16.lowerUnit u) as [l|] eqn:Hu; [|discriminate].
    destruct (Utf16.toLowerCase w) as [others|]; [|discriminate].
    intros [= <-]. rewrite length_app. apply lowerUnit_some in Hu.
    specialize (IH others eq_refl). cbn [length]. lia.
Qed.

(** Lower-casing keeps the length of a word of Latin-1. *)
Lemma toLowerCase_latin1 (w : Utf16.text) :
  Forall (fun u => 0 <= u < 256) w ->
  exists lowered, Utf16.toLowerCase w = Some lowered /\ length lowered = length w.
Proof.
  induction 1 as [|u w Hu _ (others & Hothers & Hlen)]; [now exists []|].
  destruct (lowerUnit_latin1 u Hu) as (v & Hv & _).
  exists (v :: others). cbn [Utf16.toLowerCase]. rewrite Hv, Hothers. cbn. now rewrite Hlen.
Qed.

(** C5 (amended).  [estimateDifficulty] is a total function of the
    length of the word in code units: at most 5 is easy, 6 to 9 is
    medium, 10 and more is hard.  [estimateWordDifficulty] files a word
    by the length of its lower-case form, which is never shorter than the
    word; for a word of code units below 256 the two lengths are the same
    and the two classifiers agree.  On the strings of the embedding the
    classifiers are the classifiers of their code units. *)
Theorem difficulty_by_length (w : Utf16.text) :
  let len := length w in
  (Utf16.estimateDifficulty w = Easy <-> (len <= 5)%nat) /\
  (Utf16.estimateDifficulty w = Medium <-> (6 <= len <= 9)%nat) /\
  (Utf16.estimateDifficulty w = Hard <-> (10 <= len)%nat) /\
  (forall lowered,
     Utf16.toLowerCase w = Some lowered ->
     Utf16.estimateWordDifficulty w = Some (Utf16.estimateDifficulty lowered) /\
     (len <= length lowered)%nat) /\
  (Forall (fun u => 0 <= u < 256) w ->
   Utf16.estimateWordDifficulty w = Some (Utf16.estimateDifficulty w)) /\
  (forall s : string,
     w = Utf16.ofString s ->
     RandomWordsAPI.estimateDifficulty s = Utf16.estimateDifficulty w /\
     OpenThesaurusAPI.estimateWordDifficulty s = Utf16.estimateDifficulty w).
Proof.
  cbv zeta.
  assert (Hlength : forall t t' : Utf16.text,
            length t = length t' -> Utf16.estimateDifficulty t = Utf16.estimateDifficulty t').
  { intros t t' Heq. unfold Utf16.estimateDifficulty. now rewrite Heq. }
  split; [|split; [|split; [|split; [|split]]]].
  - unfold Utf16.estimateDifficulty.
    destruct (Z.leb_spec (Z.of_nat (length w)) 5); destruct (Z.leb_spec (Z.of_nat (length w)) 9);
      split; intros; try discriminate; try lia; reflexivity.
  - unfold Utf16.estimateDifficulty.
    destruct (Z.leb_spec (Z.of_nat (length w)) 5); destruct (Z.leb_spec (Z.of_nat (length w)) 9);
      split; intros; try discriminate; try lia; reflexivity.
  - unfold Utf16.estimateDifficulty.
    destruct (Z.leb_spec (Z.of_nat (length w)) 5); destruct (Z.leb_spec (Z.of_nat (length w)) 9);
      split; intros; try discriminate; try lia; reflexivity.
  - intros lowered Hlowered. split; [|now apply toLowerCase_grows].
    unfold Utf16.estimateWordDifficulty. now rewrite Hlowered.
  - intros (lowered & Hlowered & Hlen)%toLowerCase_latin1.
    unfold Utf16.estimateWordDifficulty. rewrite Hlowered.
    now rewrite <- (Hlength lowered w Hlen).
  - intros s ->. destruct (difficulty_of_string s) as (_ & _ & _ & Hagree). rewrite Hagree.
    split; unfold RandomWordsAPI.estimateDifficulty, Utf16.estimateDifficulty, JsString.length;
      now rewrite ofString_length.
Qed.

(** C5 (as stated, at a word of three capital I with a dot above).  The
    word has three code units, and [estimateDifficulty] files it as easy;
    its lower-case form has six, and [estimateWordDifficulty] files it as
    medium. *)
Lemma difficulty_not_by_length :
  let w := [304; 304; 304] in
  length w = 3%nat /\
  Utf16.toLowerCase w = Some [105; 775; 105; 775; 105; 775] /\
  Utf16.estimateDifficulty w = Easy /\
  Utf16.estimateWordDifficulty w = Some Medium /\
  Utf16.estimateWordDifficulty w <> Some Easy.
Proof. vm_compute. repeat split; try reflexivity. discriminate. Qed.

(** ** Word-match scoring *)

Lemma filter_length_sum {X : Type} (f : X -> bool) (l : list X) :
  length (List.filter f l) = sum_list_with (fun a => if f a then 1%nat else 0%nat) l.
Proof.
  induction l as [|a l IH]; simpl; [reflexivity|].
  destruct (f a); simpl; now rewrite IH.
Qed.

(** [Math.ceil(totalItems * 0.625)] as an integer quotient. *)
Lemma ceil_five_eighths (totalItems : Z) :
  Qceiling (inject_Z totalItems * 0.625) = (5 * totalItems + 7) / 8.
Proof.
  remember ((5 * totalItems + 7) / 8) as rhs eqn:Hrhs.
  unfold Qceiling, Qfloor, Qopp, Qmult, inject_Z. simpl.
  assert (H : - (totalItems * 625) = 125 * (- (5 * totalItems))) by lia.
  rewrite H.
  change (Z.pos (1 * 1000)) with (125 * 8).
  rewrite Z.div_mul_cancel_l by lia.
  pose proof (Z.div_mod (- (5 * totalItems)) 8 ltac:(lia)) as H1.
  pose proof (Z.mod_pos_bound (- (5 * totalItems)) 8 ltac:(lia)) as H2.
  pose proof (Z.div_mod (5 * totalItems + 7) 8 ltac:(lia)) as H3.
  pose proof (Z.mod_pos_bound (5 * totalItems + 7) 8 ltac:(lia)) as H4.
  lia.
Qed.


(** ** Numbers in the exact range *)

Lemma roundMagnitude_exact (m : Z) :
  0 <= m <= 9007199254740992 -> JsNumber.roundMagnitude m = m.
Proof.
  intros Hm. unfold JsNumber.roundMagnitude.
  destruct (Z.eq_dec m 9007199254740992) as [-> | Hne]; [reflexivity|].
  destruct (Z.leb_spec (Z.log2 m + 1) 53) as [_ | Hbits]; [reflexivity|].
  exfalso. destruct (Z.eq_dec m 0) as [-> | Hpos]; [cbn in Hbits; lia|].
  assert (Hlog : Z.log2 m < 53).
  { apply Z.log2_lt_pow2; [lia|]. change (2 ^ 53) with 9007199254740992. lia. }
  lia.
Qed.

(** An integer of magnitude at most 2^53 is a number. *)
Lemma ofZ_exact (z : Z) :
  -9007199254740992 <= z <= 9007199254740992 -> JsNumber.ofZ z = Num z.
Proof.
  intros Hz. unfold JsNumber.ofZ. rewrite roundMagnitude_exact by lia.
  assert (Hbig : 9007199254740992 < 2 ^ 1024).
  { change 9007199254740992 with (2 ^ 53). apply Z.pow_lt_mono_r; lia. }
  destruct (Z.ltb_spec (Z.abs z) (2 ^ 1024)) as [_ | Hge]; [|lia].
  f_equal. destruct z as [|p|p]; reflexivity.
Qed.

Lemma add_exact (x y : Z) :
  -9007199254740992 <= x + y <= 9007199254740992 ->
  JsNumber.add (Num x) (Num y) = Num (x + y).
Proof. intros H. unfold JsNumber.add. now apply ofZ_exact. Qed.

(** ** Hangman scoring *)

Lemma guess_counts (guesses : list Hangman.HangmanGuess) :
  Hangman.correctGuesses guesses
    = Z.of_nat (sum_list_with (fun g => if Hangman.correct g then 1%nat else 0%nat) guesses) /\
  Hangman.incorrectGuesses guesses
    = Z.of_nat (length guesses) - Hangman.correctGuesses guesses.
Proof.
  unfold Hangman.correctGuesses, Hangman.incorrectGuesses.
  rewrite filter_length_sum. split; [reflexivity|].
  induction guesses as [|g guesses IH]; simpl; [reflexivity|].
  destruct (Hangman.correct g); simpl length; lia.
Qed.

Lemma no_incorrect_guess (guesses : list Hangman.HangmanGuess) :
  existsb (fun g => negb (Hangman.correct g)) guesses = false
  <-> Forall (fun g => Hangman.correct g = true) guesses.
Proof.
  induction guesses as [|g guesses IH]; simpl.
  - split; [constructor | reflexivity].
  - rewrite Forall_cons, <- IH. destruct (Hangman.correct g); simpl; intuition congruence.
Qed.

(** The thresholds of the time bonus, in milliseconds. *)
Lemma seconds_below (timeMs bound : Z) :
  (inject_Z timeMs / 1000 < inject_Z bound)%Q <-> timeMs < bound * 1000.
Proof. unfold Qlt, Qdiv, Qmult, Qinv, inject_Z. simpl. lia. Qed.

Lemma timeBonus_milliseconds (timeMs : Z) :
  Hangman.timeBonus timeMs
  = if timeMs <? 30000 then 50
    else if timeMs <? 60000 then 30
    else if timeMs <? 90000 then 15
    else 0.
Proof.
  unfold Hangman.timeBonus.
  pose proof (seconds_below timeMs 30) as H30. change (inject_Z 30) with 30%Q in H30.
  pose proof (seconds_below timeMs 60) as H60. change (inject_Z 60) with 60%Q in H60.
  pose proof (seconds_below timeMs 90) as H90. change (inject_Z 90) with 90%Q in H90.
  destruct (Qlt_le_dec (inject_Z timeMs / 1000) 30) as [Ha | Ha%Qle_not_lt];
    destruct (Qlt_le_dec (inject_Z timeMs / 1000) 60) as [Hb | Hb%Qle_not_lt];
    destruct (Qlt_le_dec (inject_Z timeMs / 1000) 90) as [Hc | Hc%Qle_not_lt];
    destruct (Z.ltb_spec timeMs 30000); destruct (Z.ltb_spec timeMs 60000);
    destruct (Z.ltb_spec timeMs 90000); try reflexivity; exfalso; intuition lia.
Qed.

(** The unique letters of a word are as many as any list that holds
    every code unit of the lower-cased word exactly once. *)
Lemma uniqueLettersInWord_count (word : string) (letters : list ascii) :
  NoDup letters ->
  (forall a, a ∈ letters <-> a ∈ JsString.split_chars (JsString.toLowerCase word)) ->
  Hangman.uniqueLettersInWord word = Z.of_nat (length letters).
Proof.
  intros Hnd Hsame. unfold Hangman.uniqueLettersInWord. f_equal.
  rewrite <- (size_list_to_set (C := gset ascii) letters Hnd). f_equal.
  apply set_eq. intros a. rewrite !elem_of_list_to_set. symmetry. apply Hsame.
Qed.

Lemma timeBonus_range (timeMs : Z) : 0 <= Hangman.timeBonus timeMs <= 50.
Proof. unfold Hangman.timeBonus. repeat destruct (Qlt_le_dec _ _); lia. Qed.

Lemma efficiencyBonus_range (word : string) (guesses : list Hangman.HangmanGuess) :
  0 <= Hangman.efficiencyBonus word guesses <= 50.
Proof. unfold Hangman.efficiencyBonus. repeat destruct (_ <=? _); lia. Qed.

(** The score of a won game, for a list of guesses as long as a
    JavaScript array can be. *)
Lemma calculateScore_won (word : string) (guesses : list Hangman.HangmanGuess) (timeMs : Z) :
  Z.of_nat (length guesses) < 4294967296 ->
  Hangman.score (Hangman.calculateScore word guesses true timeMs)
  = Num (100 + (6 - Hangman.incorrectGuesses guesses) * 15
         + Hangman.timeBonus timeMs + Hangman.efficiencyBonus word guesses).
Proof.
  intros Hlen.
  pose proof (timeBonus_range timeMs) as Ht.
  pose proof (efficiencyBonus_range word guesses) as He.
  assert (Hi : 0 <= Hangman.incorrectGuesses guesses <= Z.of_nat (length guesses)).
  { destruct (guess_counts guesses) as [Hc Hi]. rewrite Hi.
    unfold Hangman.correctGuesses.
    pose proof (filter_length_le (fun g => Hangman.correct g) guesses). lia. }
  unfold Hangman.calculateScore. cbn [Hangman.score].
  rewrite !add_exact by lia. f_equal.
Qed.

(** C1.  A won game scores 100, plus 15 for each of the 6 attempts that
    no incorrect guess used up, plus the time bonus (50 below 30 s, 30
    below 60 s, 15 below 90 s), plus the efficiency bonus (50 when the
    correct guesses are at most the unique letters of the word, 25 when
    they exceed them by at most 2); a game is perfect exactly when it is
    won and no guess is incorrect.  The unique letters are counted by any
    list that holds each code unit of the lower-cased word once, and the
    guesses are as many as a JavaScript array can hold, fewer than 2^32.
    For "apfel", won in 20 s without an incorrect guess, the score is
    290; for "Anna", a word of two unique letters, three guesses flagged
    correct earn the efficiency bonus 25. *)
Theorem hangman_win_score
    (word : string) (guesses : list Hangman.HangmanGuess) (success : bool) (timeMs : Z)
    (letters : list ascii) :
  NoDup letters ->
  (forall a, a ∈ letters <-> a ∈ JsString.split_chars (JsString.toLowerCase word)) ->
  Z.of_nat (length guesses) < 4294967296 ->
  let correctGuesses :=
    Z.of_nat (sum_list_with (fun g => if Hangman.correct g then 1%nat else 0%nat) guesses) in
  let incorrectGuesses := Z.of_nat (length guesses) - correctGuesses in
  let unique := Z.of_nat (length letters) in
  let timeSeconds := (inject_Z timeMs / 1000)%Q in
  (exists timeBonus efficiencyBonus,
      Hangman.score (Hangman.calculateScore word guesses true timeMs)
        = Num (100 + 15 * (6 - incorrectGuesses) + timeBonus + efficiencyBonus) /\
      ((timeSeconds < 30)%Q /\ timeBonus = 50 \/
       (30 <= timeSeconds)%Q /\ (timeSeconds < 60)%Q /\ timeBonus = 30 \/
       (60 <= timeSeconds)%Q /\ (timeSeconds < 90)%Q /\ timeBonus = 15 \/
       (90 <= timeSeconds)%Q /\ timeBonus = 0) /\
      (correctGuesses <= unique /\ efficiencyBonus = 50 \/
       unique < correctGuesses <= unique + 2 /\ efficiencyBonus = 25 \/
       unique + 2 < correctGuesses /\ efficiencyBonus = 0)) /\
  (Hangman.perfect (Hangman.calculateScore word guesses success timeMs) = true
     <-> success = true /\ Forall (fun g => Hangman.correct g = true) guesses) /\
  Hangman.calculateScore "apfel"
      ((fun l => {| Hangman.letter := l; Hangman.correct := true; Hangman.timestamp := 0 |})
         <$> ["a"; "p"; "f"; "e"; "l"]) true 20000
    = {| Hangman.score := Num 290; Hangman.perfect := true |} /\
  Hangman.calculateScore "Anna"
      ((fun l => {| Hangman.letter := l; Hangman.correct := true; Hangman.timestamp := 0 |})
         <$> ["a"; "n"; "x"]) true 20000
    = {| Hangman.score := Num 265; Hangman.perfect := true |}.
Proof.
  intros Hnd Hsame Hlen. cbv zeta.
  rewrite <- (uniqueLettersInWord_count word letters Hnd Hsame).
  destruct (guess_counts guesses) as [Hc Hi]. rewrite <- Hc, <- Hi.
  split; [|split; [|split]].
  - exists (Hangman.timeBonus timeMs), (Hangman.efficiencyBonus word guesses).
    split; [|split].
    + rewrite (calculateScore_won word guesses timeMs Hlen). f_equal. lia.
    + unfold Hangman.timeBonus.
      repeat destruct (Qlt_le_dec _ _); tauto.
    + unfold Hangman.efficiencyBonus.
      destruct (Z.leb_spec (Hangman.correctGuesses guesses) (Hangman.uniqueLettersInWord word));
        [left; split; [lia | reflexivity]|].
      destruct (Z.leb_spec (Hangman.correctGuesses guesses)
                           (Hangman.uniqueLettersInWord word + 2));
        [right; left | right; right]; (split; [lia | reflexivity]).
  - unfold Hangman.calculateScore. cbn [Hangman.perfect].
    rewrite andb_true_iff, negb_true_iff, no_incorrect_guess. reflexivity.
  - vm_compute. reflexivity.
  - vm_compute. reflexivity.
Qed.

(** The game of "Anna" above: its unique letters are "a" and "n", and
    the third guess flagged correct costs half of the efficiency
    bonus. *)
Lemma hangman_win_anna :
  exists timeBonus,
    Hangman.score
      (Hangman.calculateScore "Anna"
         ((fun l => {| Hangman.letter := l; Hangman.correct := true; Hangman.timestamp := 0 |})
            <$> ["a"; "n"; "x"]) true 20000)
    = Num (100 + 15 * 6 + timeBonus + 25) /\ timeBonus = 50.
Proof.
  destruct (hangman_win_score "Anna"
              ((fun l => {| Hangman.letter := l; Hangman.correct := true;
                            Hangman.timestamp := 0 |}) <$> ["a"; "n"; "x"])
              true 20000 ["a"; "n"]%char)
    as ((timeBonus & efficiencyBonus & Hscore & Htime & Hbonus) & _).
  - apply (@bool_decide_unpack _ (NoDup_dec _)). vm_compute. exact I.
  - intros a. vm_compute JsString.split_chars. rewrite !elem_of_cons, !elem_of_nil. tauto.
  - vm_compute. reflexivity.
  - cbv zeta in Hscore, Htime, Hbonus. exists timeBonus.
    assert (Hbonus' : efficiencyBonus = 25).
    { cbn in Hbonus. destruct Hbonus as [[H _] | [[_ H] | [H _]]]; [lia | exact H | lia]. }
    assert (Htime' : timeBonus = 50).
    { destruct Htime as [[_ H] | [[H _] | [[H _] | [H _]]]]; [exact H | | |];
        exfalso; revert H; vm_compute; intros H; now apply H. }
    subst. split; [exact Hscore | reflexivity].
Defined.

(** C2 (the rounding of the source).  A lost game with 23 guesses marked
    correct for "apfel", a word of 5 unique letters, scores 229, while
    [floor(50 * 23 / 5)] is 230: the quotient 23/5 is rounded down to
    binary64 before it is multiplied by 50. *)
Theorem hangman_loss_rounding :
  let guesses :=
    repeat {| Hangman.letter := "a"; Hangman.correct := true; Hangman.timestamp := 0 |} 23 in
  Hangman.uniqueLettersInWord "apfel" = 5 /\
  Hangman.correctGuesses guesses = 23 /\
  Hangman.score (Hangman.calculateScore "apfel" guesses false 0) = Num 229 /\
  50 * Hangman.correctGuesses guesses / Hangman.uniqueLettersInWord "apfel" = 230.
Proof. vm_compute. repeat split; reflexivity. Qed.

(** The score of a lost game in the spec's example. *)
Example hangman_loss_three_of_five :
  let guesses :=
    repeat {| Hangman.letter := "a"; Hangman.correct := true; Hangman.timestamp := 0 |} 3 in
  Hangman.score (Hangman.calculateScore "apfel" guesses false 0) = Num 30.
Proof. vm_compute. reflexivity. Qed.

Lemma number_eqb_eq (a b : number) : number_eqb a b = true -> a = b.
Proof.
  destruct a as [x| |s], b as [y| |t]; simpl; try discriminate; try reflexivity.
  - intros H%Z.eqb_eq. now subst.
  - intros H%Bool.eqb_prop. now subst.
Qed.

(** Where the rounding is harmless: when the correct guesses do not
    exceed the unique letters (as in every game played by the rules) and
    the word has fewer than 50 unique letters, the binary64 result is the
    exact one. *)
Lemma progressPoints_exact (correctGuesses uniqueLetters : Z) :
  0 <= correctGuesses <= uniqueLetters -> 1 <= uniqueLetters < 50 ->
  Hangman.progressPoints correctGuesses uniqueLetters
    = Num (50 * correctGuesses / uniqueLetters).
Proof.
  intros Hc Hu.
  assert (Hall : forallb (fun u =>
            forallb (fun c => number_eqb (Hangman.progressPoints c u) (Num (50 * c / u)))
                    (seqZ 0 (u + 1)))
            (seqZ 1 49) = true) by (vm_compute; reflexivity).
  rewrite forallb_forall in Hall.
  specialize (Hall uniqueLetters).
  rewrite forallb_forall in Hall.
  apply number_eqb_eq, Hall.
  - apply list_elem_of_In, elem_of_seqZ. lia.
  - apply list_elem_of_In, elem_of_seqZ. lia.
Qed.

(** ** The seeded shuffle *)

Lemma seededShuffle_new_year :
  Seed.seededShuffle None (Some <$> [1; 2; 3; 4; 5; 6; 7; 8; 9; 10; 11; 12]) "2025-01-01:de"
  = [Some 6; Some 3; Some 7; Some 12; None; None; Some 10; None; None; None; None; None].
Proof. vm_compute. reflexivity. Qed.

(** C10 (the defect of the source).  The seed of the first day of 2025
    hashes to a negative number; every random index is then negative, the
    reads at those indices give [undefined], and the shuffle of twelve
    elements returns five of them and seven times [undefined]: the result
    is not a permutation of the input. *)
Theorem seededShuffle_negative_hash :
  let array := Some <$> [1; 2; 3; 4; 5; 6; 7; 8; 9; 10; 11; 12] in
  let shuffled := Seed.seededShuffle None array "2025-01-01:de" in
  Seed.hashSeed "2025-01-01:de" = -1466136294 /\
  shuffled = [Some 6; Some 3; Some 7; Some 12; None; None;
              Some 10; None; None; None; None; None] /\
  ~ array ≡ₚ shuffled.
Proof.
  cbv zeta. rewrite seededShuffle_new_year.
  split; [vm_compute; reflexivity|]. split; [reflexivity|].
  intros Hperm.
  assert (Hin : None ∈ (Some <$> [1; 2; 3; 4; 5; 6; 7; 8; 9; 10; 11; 12] : list (option Z))).
  { rewrite Hperm. set_solver. }
  apply list_elem_of_fmap in Hin as (x & Hx & _). discriminate.
Qed.

(** *** When the shuffle is a permutation *)

Section ShuffleFacts.

Context {T : Type} (undefined : T).

Lemma swap_in_range (a : Seed.jsArray) (i j : nat) :
  (i < length (Seed.elems a))%nat -> (j < length (Seed.elems a))%nat ->
  Seed.elems (Seed.swap undefined a (Z.of_nat i) (Z.of_nat j)) ≡ₚ Seed.elems a /\
  length (Seed.elems (Seed.swap undefined a (Z.of_nat i) (Z.of_nat j)))
    = length (Seed.elems a).
Proof.
  intros Hi Hj.
  destruct (lookup_lt_is_Some_2 _ _ Hi) as [y Hy].
  destruct (lookup_lt_is_Some_2 _ _ Hj) as [x Hx].
  unfold Seed.swap, Seed.read, Seed.write.
  rewrite !(proj2 (Z.leb_le 0 _)) by lia. rewrite !Nat2Z.id, Hx, Hy. cbn [default].
  rewrite (proj2 (Nat.ltb_lt _ _) Hi). cbn [Seed.elems].
  rewrite length_insert, (proj2 (Nat.ltb_lt _ _) Hj). cbn [Seed.elems].
  split; [now apply Permutation_insert_swap | now rewrite !length_insert].
Qed.

Lemma shuffleLoop_permutation (currentIndex : nat) (hash : Z) (a : Seed.jsArray) :
  drawsInRange currentIndex hash = true ->
  (currentIndex <= length (Seed.elems a))%nat ->
  Seed.elems (Seed.shuffleLoop undefined currentIndex hash a) ≡ₚ Seed.elems a.
Proof.
  revert hash a. induction currentIndex as [|n IH]; intros hash a Hdraws Hn; [reflexivity|].
  cbn [Seed.shuffleLoop drawsInRange] in *.
  apply andb_true_iff in Hdraws as [[H0%Z.leb_le H1%Z.ltb_lt]%andb_true_iff Hrest].
  destruct (swap_in_range a n (Z.to_nat (Seed.randomIndex (Seed.nextHash hash) (Z.of_nat (S n))))
              ltac:(lia) ltac:(lia)) as [Hperm Hlen].
  rewrite Z2Nat.id in Hperm, Hlen by lia.
  rewrite IH; [exact Hperm | exact Hrest | rewrite Hlen; lia].
Qed.

(** The shuffle returns a permutation of the array whenever the indices
    it draws stay inside the array. *)
Lemma seededShuffle_permutation (array : list T) (seed : string) :
  drawsInRange (length array) (Seed.hashSeed seed) = true ->
  Seed.seededShuffle undefined array seed ≡ₚ array.
Proof.
  intros Hdraws. unfold Seed.seededShuffle.
  now rewrite shuffleLoop_permutation.
Qed.

End ShuffleFacts.

(** The draws of a seed of positive hash stay inside an array of twelve
    elements, and the shuffle permutes it; the draws of the seed of the
    first day of 2025 do not. *)
Example seededShuffle_positive_hash :
  Seed.hashSeed "2025-09-01:de" = 1338925858 /\
  drawsInRange 12 (Seed.hashSeed "2025-09-01:de") = true /\
  drawsInRange 12 (Seed.hashSeed "2025-01-01:de") = false /\
  Seed.seededShuffle None (Some <$> [1; 2; 3; 4; 5; 6; 7; 8; 9; 10; 11; 12]) "2025-09-01:de"
  = Some <$> [12; 2; 6; 5; 3; 9; 4; 10; 7; 1; 11; 8].
Proof. vm_compute. repeat split; reflexivity. Qed.

(** ** Numbers and their decimal text *)

Lemma digitValue_pretty_char (d : N) :
  (d < 10)%N -> JsNumber.digitValue 10 (pretty_N_char d) = Some (Z.of_N d).
Proof.
  intros H.
  assert (d = 0 \/ d = 1 \/ d = 2 \/ d = 3 \/ d = 4 \/ d = 5 \/ d = 6 \/ d = 7
          \/ d = 8 \/ d = 9)%N as Hd by lia.
  repeat (destruct Hd as [-> | Hd]; [reflexivity|]). now subst.
Qed.

Lemma allDigits_pretty_go (x : N) (s : string) :
  allDigits s = true -> allDigits (pretty_N_go x s) = true.
Proof.
  revert s. induction (N.lt_wf_0 x) as [x _ IH]; intros s Hs.
  destruct (decide (x = 0)%N) as [-> | Hx]; [exact Hs|].
  rewrite pretty_N_go_step by lia.
  apply IH; [apply N.div_lt; lia|].
  simpl. unfold isDigit.
  rewrite digitValue_pretty_char by (apply N.mod_lt; lia). exact Hs.
Qed.

Lemma parseDigits_pretty_go (x : N) (s : string) (acc : option Z) :
  (0 < x)%N ->
  exists k, JsNumber.parseDigits 10 acc (pretty_N_go x s)
            = JsNumber.parseDigits 10 (Some (default 0 acc * 10 ^ k + Z.of_N x)) s /\ 0 <= k.
Proof.
  revert s acc. induction (N.lt_wf_0 x) as [x _ IH]; intros s acc Hx.
  rewrite pretty_N_go_step by lia.
  pose proof (N.div_mod x 10 ltac:(lia)) as Hdm.
  pose proof (N.mod_lt x 10 ltac:(lia)) as Hlt.
  destruct (decide (x `div` 10 = 0)%N) as [Hz | Hnz].
  - rewrite Hz, pretty_N_go_0. exists 1. split; [|lia]. simpl.
    rewrite digitValue_pretty_char by exact Hlt.
    do 2 f_equal. lia.
  - destruct (IH (x `div` 10)%N ltac:(apply N.div_lt; lia)
                (String (pretty_N_char (x `mod` 10)) s) acc ltac:(lia)) as (k & Hk & Hk0).
    exists (k + 1). split; [|lia]. rewrite Hk. simpl.
    rewrite digitValue_pretty_char by exact Hlt.
    do 2 f_equal. rewrite Z.pow_add_r by lia. lia.
Qed.

Lemma parseDigits_pretty (p : positive) :
  JsNumber.parseDigits 10 None (pretty (N.pos p)) = Some (Z.pos p).
Proof.
  unfold pretty, pretty_N. rewrite decide_False by discriminate.
  destruct (parseDigits_pretty_go (N.pos p) "" None ltac:(lia)) as (k & Hk & _).
  rewrite Hk. simpl. reflexivity.
Qed.

Lemma parseUnsigned_digits (s : string) :
  allDigits s = true -> JsNumber.parseUnsigned s = JsNumber.parseDigits 10 None s.
Proof.
  intros H. destruct s as [|a [|b s]].
  - reflexivity.
  - unfold JsNumber.parseUnsigned.
    destruct a as [[] [] [] [] [] [] [] []]; reflexivity.
  - simpl in H. apply andb_true_iff in H as [_ [Hb _]%andb_true_iff].
    unfold JsNumber.parseUnsigned.
    destruct a as [[] [] [] [] [] [] [] []]; try reflexivity.
    destruct b as [[] [] [] [] [] [] [] []]; try reflexivity; discriminate Hb.
Qed.

Lemma parseInt_digits (s : string) :
  s <> "" -> allDigits s = true ->
  JsNumber.parseInt s
  = match JsNumber.parseDigits 10 None s with Some v => JsNumber.ofZ v | None => NaN end.
Proof.
  intros Hne Hs. rewrite <- (parseUnsigned_digits s Hs).
  destruct s as [|a s]; [contradiction|].
  simpl in Hs. apply andb_true_iff in Hs as [Ha _].
  unfold JsNumber.parseInt.
  destruct a as [[] [] [] [] [] [] [] []]; try discriminate Ha; reflexivity.
Qed.

Lemma pretty_pos_digits (p : positive) :
  pretty (N.pos p) <> "" /\ allDigits (pretty (N.pos p)) = true.
Proof.
  split.
  - intros H. pose proof (parseDigits_pretty p) as Hp. rewrite H in Hp. discriminate.
  - unfold pretty, pretty_N. rewrite decide_False by discriminate.
    now apply allDigits_pretty_go.
Qed.

(** An integer below 10^21 in magnitude is printed with all its
    digits. *)
Lemma toString_small (z : Z) :
  Z.abs z < 10 ^ 21 -> JsNumber.toString (Num z) = pretty z.
Proof.
  intros Hz. unfold JsNumber.toString.
  destruct (Z.ltb_spec (Z.abs z) (10 ^ 21)); [reflexivity | lia].
Qed.

(** Reading back the text of a number gives the number. *)
Lemma parseInt_toString (n : number) :
  safeNumber n ->
  JsString.truthy (JsNumber.toString n) = true /\
  JsNumber.parseInt (JsNumber.toString n) = n.
Proof.
  intros Hsafe. destruct n as [z| |negative]; [| split; reflexivity | destruct Hsafe].
  cbn [safeNumber] in Hsafe.
  rewrite toString_small by (change (10 ^ 21) with 1000000000000000000000; lia).
  destruct z as [|p|p]; [split; reflexivity | |].
  - destruct (pretty_pos_digits p) as [Hne Hd].
    change (pretty (Z.pos p)) with (pretty (N.pos p)). split.
    + destruct (pretty (N.pos p)); [contradiction | reflexivity].
    + rewrite parseInt_digits, parseDigits_pretty by assumption. now apply ofZ_exact.
  - destruct (pretty_pos_digits p) as [Hne Hd].
    change (pretty (Z.neg p)) with (String "-" (pretty (N.pos p))).
    split; [reflexivity|].
    unfold JsNumber.parseInt. cbn [JsString.trimStart].
    change (JsString.isWhiteSpace "-") with false. cbv iota.
    rewrite parseUnsigned_digits, parseDigits_pretty by assumption.
    change (- Z.pos p) with (Z.neg p). now apply ofZ_exact.
Qed.

(** ** The user's progress *)

Lemma intOrZero_toString (n : number) :
  safeNumber n ->
  GameStorage.intOrZero (Some (JsNumber.toString n)) = n.
Proof.
  intros Hsafe. destruct (parseInt_toString n Hsafe) as [Ht Hp].
  simpl. now rewrite Ht.
Qed.

(** A counter below 2^53 is raised by one exactly. *)
Lemma add_one_safe (n : number) :
  safeCounter n ->
  safeNumber (JsNumber.add n (Num 1)) /\
  (forall z, n = Num z -> JsNumber.add n (Num 1) = Num (z + 1)).
Proof.
  intros Hn. destruct n as [z| |s]; [| split; [exact I | discriminate] | destruct Hn].
  cbn [safeCounter] in Hn. rewrite add_exact by lia. split.
  - cbn [safeNumber]. lia.
  - now intros z' [= <-].
Qed.

Lemma safeCounter_safeNumber (n : number) : safeCounter n -> safeNumber n.
Proof. destruct n; cbn; [lia | trivial | trivial]. Qed.

Lemma max_safe (a b : number) :
  safeNumber a -> safeNumber b -> safeNumber (JsNumber.max a b).
Proof.
  destruct a as [x| |s], b as [y| |t]; cbn; try tauto. lia.
Qed.

(** [Math.max] keeps a maximum it has already reached. *)
Lemma max_absorb (a b : number) :
  JsNumber.max a (JsNumber.max a b) = JsNumber.max a b.
Proof.
  destruct a as [x| |[]], b as [y| |[]]; simpl; try reflexivity; f_equal; lia.
Qed.

Lemma user_keys_distinct (userId : string) :
  "user:" +:+ userId +:+ ":streak" <> "user:" +:+ userId +:+ ":maxStreak" /\
  "user:" +:+ userId +:+ ":streak" <> "user:" +:+ userId +:+ ":lastPlayed" /\
  "user:" +:+ userId +:+ ":maxStreak" <> "user:" +:+ userId +:+ ":lastPlayed".
Proof.
  repeat split; intros H; do 2 apply String.app_inj in H; discriminate.
Qed.

(** The state read back after [updateUserState]. *)
Lemma getUserState_updateUserState (userId : string) (state : UserState) (r : GameStorage.store) :
  safeNumber (streak state) -> safeNumber (maxStreak state) ->
  GameStorage.getUserState userId (GameStorage.updateUserState userId state r)
  = {| streak := streak state;
       maxStreak := maxStreak state;
       lastPlayed :=
         match lastPlayed state with
         | Some x => if JsString.truthy x then Some x
                     else lastPlayed (GameStorage.getUserState userId r)
         | None => lastPlayed (GameStorage.getUserState userId r)
         end |}.
Proof.
  intros Hs Hm. destruct (user_keys_distinct userId) as (Hsm & Hsl & Hml).
  unfold GameStorage.getUserState, GameStorage.updateUserState, GameStorage.get.
  destruct (lastPlayed state) as [x|]; [destruct (JsString.truthy x) eqn:Hx|];
    unfold GameStorage.set; cbn [GameStorage.strings];
    repeat (rewrite lookup_insert_eq || rewrite lookup_insert_ne by congruence);
    rewrite ?intOrZero_toString by assumption; rewrite ?Hx; reflexivity.
Qed.

Lemma getUserState_saveUserResult
    (userId : string) (result : UserResult.t) (r : GameStorage.store) :
  GameStorage.getUserState userId (GameStorage.saveUserResult result r)
  = GameStorage.getUserState userId r.
Proof. reflexivity. Qed.

Lemma passed_iff (currentStreak : number) (score totalItems : Z) :
  Scoring.passed (Scoring.updateStreak currentStreak score totalItems)
  = (5 * totalItems <=? 8 * score).
Proof.
  unfold Scoring.updateStreak; simpl. rewrite ceil_five_eighths.
  pose proof (Z.div_mod (5 * totalItems + 7) 8 ltac:(lia)) as H3.
  pose proof (Z.mod_pos_bound (5 * totalItems + 7) 8 ltac:(lia)) as H4.
  destruct (Z.leb_spec ((5 * totalItems + 7) `div` 8) score);
    destruct (Z.leb_spec (5 * totalItems) (8 * score)); (reflexivity || lia).
Qed.

(** C4 (amended).  While the stored streak is an integer below 2^53 in
    magnitude (or not a number) and the stored maximum is at most 2^53:
    after a submitted result the new streak is the old one plus one when
    the session passed and zero otherwise; the streak and the maximum read
    back from the store are the new streak and the greater of the old
    maximum and the new streak, so the maximum never decreases;
    [lastPlayed] is the session seed when the seed is not the empty
    string, and is left as it was otherwise. *)
Theorem submit_result_progress (result : UserResult.t) (r : GameStorage.store) :
  let userId := UserResult.userId result in
  let seed := UserResult.seed result in
  let answers := UserResult.answers result in
  let before := GameStorage.getUserState userId r in
  let response := (Server.submitResult result r).1 in
  let after := GameStorage.getUserState userId (Server.submitResult result r).2 in
  let score := Scoring.score (Scoring.computeScore answers) in
  let passed := 5 * Z.of_nat (length answers) <=? 8 * score in
  safeCounter (streak before) ->
  safeNumber (maxStreak before) ->
  SubmitResultResponse.newStreak response
    = (if passed then JsNumber.add (streak before) (Num 1) else Num 0) /\
  (forall s, streak before = Num s ->
             SubmitResultResponse.newStreak response = Num (if passed then s + 1 else 0)) /\
  streak after = SubmitResultResponse.newStreak response /\
  maxStreak after = JsNumber.max (maxStreak before) (SubmitResultResponse.newStreak response) /\
  SubmitResultResponse.maxStreak response = maxStreak after /\
  JsNumber.max (maxStreak before) (maxStreak after) = maxStreak after /\
  (forall m s, maxStreak before = Num m -> streak before = Num s ->
               maxStreak after = Num (Z.max m (if passed then s + 1 else 0)) /\
               m <= Z.max m (if passed then s + 1 else 0)) /\
  lastPlayed after = (if JsString.truthy seed then Some seed else lastPlayed before).
Proof.
  cbv zeta. intros Hstreak Hmaximum. unfold Server.submitResult. cbn [fst snd].
  set (before := GameStorage.getUserState (UserResult.userId result) r) in *.
  set (update := Scoring.updateStreak _ _ _).
  destruct (add_one_safe (streak before) Hstreak) as [Hsafe Hplus].
  assert (Hnew : Scoring.newStreak update
                 = if 5 * Z.of_nat (length (UserResult.answers result))
                        <=? 8 * Scoring.score (Scoring.computeScore (UserResult.answers result))
                   then JsNumber.add (streak before) (Num 1) else Num 0).
  { subst update. rewrite <- passed_iff with (currentStreak := streak before).
    reflexivity. }
  assert (Hfin : safeNumber (Scoring.newStreak update)).
  { rewrite Hnew. destruct (_ <=? _); [exact Hsafe | cbn; lia]. }
  assert (Hmax : safeNumber (JsNumber.max (maxStreak before) (Scoring.newStreak update)))
    by now apply max_safe.
  rewrite getUserState_saveUserResult, getUserState_updateUserState by assumption.
  cbn [streak maxStreak lastPlayed SubmitResultResponse.newStreak
       SubmitResultResponse.maxStreak].
  assert (Hexact : forall s, streak before = Num s ->
            Scoring.newStreak update
            = Num (if 5 * Z.of_nat (length (UserResult.answers result))
                        <=? 8 * Scoring.score (Scoring.computeScore (UserResult.answers result))
                   then s + 1 else 0)).
  { intros s Hs. rewrite Hnew. destruct (_ <=? _); [now apply Hplus | reflexivity]. }
  split; [exact Hnew|]. split; [exact Hexact|]. split; [reflexivity|].
  split; [reflexivity|]. split; [reflexivity|]. split; [apply max_absorb|].
  split; [|reflexivity].
  intros m s Hm Hs. rewrite (Hexact s Hs), Hm. cbn [JsNumber.max]. split; [reflexivity | lia].
Qed.

(** C4 (as stated, at a streak of 2^53 and at an empty seed).  A number
    holds the integers up to 2^53 only: from a stored streak of
    9007199254740992 a passed session gives the new streak
    9007199254740992 again, not one more.  And a user who played the
    session "2025-09-01:de" and then submits a result whose seed is the
    empty string keeps "2025-09-01:de" as [lastPlayed]: the write of
    [lastPlayed] is skipped for an empty string. *)
Lemma submit_result_not_as_stated :
  let answers := [{| itemId := "w1"; pick := A; correct := true; ms := 1000 |}] in
  let first := {| UserResult.userId := "u"; UserResult.seed := "2025-09-01:de";
                  UserResult.score := 0; UserResult.timeMs := Num 0;
                  UserResult.answers := answers |} in
  let second := {| UserResult.userId := "u"; UserResult.seed := "";
                   UserResult.score := 0; UserResult.timeMs := Num 0;
                   UserResult.answers := answers |} in
  let long := {| GameStorage.strings := {[ "user:u:streak" := "9007199254740992" ]};
                 GameStorage.docs := ∅ |} in
  let r := (Server.submitResult first {| GameStorage.strings := ∅; GameStorage.docs := ∅ |}).2 in
  let after := GameStorage.getUserState "u" (Server.submitResult second r).2 in
  streak (GameStorage.getUserState "u" long) = Num 9007199254740992 /\
  SubmitResultResponse.newStreak (Server.submitResult first long).1 = Num 9007199254740992 /\
  SubmitResultResponse.newStreak (Server.submitResult first long).1
    <> Num (9007199254740992 + 1) /\
  after = {| streak := Num 2; maxStreak := Num 2; lastPlayed := Some "2025-09-01:de" |} /\
  lastPlayed after <> Some (UserResult.seed second).
Proof. vm_compute. repeat split; try reflexivity; discriminate. Qed.

(** The first result of a user on an empty store. *)
Lemma submit_result_first :
  let first := {| UserResult.userId := "u"; UserResult.seed := "2025-09-01:de";
                  UserResult.score := 0; UserResult.timeMs := Num 0;
                  UserResult.answers :=
                    [{| itemId := "w1"; pick := A; correct := true; ms := 1000 |}] |} in
  let empty := {| GameStorage.strings := ∅; GameStorage.docs := ∅ |} in
  streak (GameStorage.getUserState "u" (Server.submitResult first empty).2) = Num 1 /\
  maxStreak (GameStorage.getUserState "u" (Server.submitResult first empty).2) = Num 1.
Proof.
  cbv zeta.
  set (first := {| UserResult.userId := "u" |}).
  set (r := {| GameStorage.strings := ∅ |}).
  assert (Hbefore : GameStorage.getUserState "u" r
                    = {| streak := Num 0; maxStreak := Num 0; lastPlayed := None |})
    by (vm_compute; reflexivity).
  destruct (submit_result_progress first r) as (_ & Hnew & Hstreak & Hmax & _).
  - cbv zeta. change (UserResult.userId first) with "u". rewrite Hbefore. cbn. lia.
  - cbv zeta. change (UserResult.userId first) with "u". rewrite Hbefore. cbn. lia.
  - cbv zeta in Hnew, Hstreak, Hmax. change (UserResult.userId first) with "u" in *.
    rewrite Hbefore in Hnew, Hmax. cbn [streak maxStreak] in Hnew, Hmax.
    rewrite Hmax, Hstreak, (Hnew 0 eq_refl). split; reflexivity.
Defined.

(** ** The word pool *)

Lemma exists_present (p : WordEnricherRedis.pools) (candidate : string) :
  WordEnricherRedis.exists_ p candidate = true <-> present p candidate.
Proof.
  unfold WordEnricherRedis.exists_, present. rewrite existsb_exists.
  split; intros (x & Hx & Heq); exists x.
  - split; [now apply list_elem_of_In | now apply String.eqb_eq].
  - split; [now apply list_elem_of_In | now apply String.eqb_eq].
Qed.

Lemma exists_absent (p : WordEnricherRedis.pools) (candidate : string) :
  WordEnricherRedis.exists_ p candidate = false <-> ~ present p candidate.
Proof.
  rewrite <- exists_present. destruct (WordEnricherRedis.exists_ p candidate); split;
    congruence.
Qed.

Lemma tier_push (p : WordEnricherRedis.pools) (d d' : HangmanDifficulty) (entry : HangmanWord) :
  WordEnricherRedis.tier (WordEnricherRedis.push p d entry) d'
  = if decide (d' = d) then WordEnricherRedis.tier p d' ++ [entry]
    else WordEnricherRedis.tier p d'.
Proof. destruct d, d'; reflexivity. Qed.

Lemma elem_of_allWords (p : WordEnricherRedis.pools) (x : HangmanWord) :
  x ∈ WordEnricherRedis.allWords p <-> exists d, x ∈ WordEnricherRedis.tier p d.
Proof.
  unfold WordEnricherRedis.allWords. rewrite !elem_of_app. split.
  - intros [H | [H | H]]; [exists Easy | exists Medium | exists Hard]; exact H.
  - intros ([] & H); simpl in H; tauto.
Qed.

Lemma elem_of_allWords_push
    (p : WordEnricherRedis.pools) (d : HangmanDifficulty) (entry x : HangmanWord) :
  x ∈ WordEnricherRedis.allWords (WordEnricherRedis.push p d entry)
  <-> x ∈ WordEnricherRedis.allWords p \/ x = entry.
Proof.
  rewrite !elem_of_allWords. split.
  - intros (d' & H). rewrite tier_push in H. destruct (decide (d' = d)).
    + apply elem_of_app in H as [H | H%list_elem_of_singleton]; [left; eauto | now right].
    + left; eauto.
  - intros [(d' & H) | ->].
    + exists d'. rewrite tier_push. destruct (decide (d' = d)); [|exact H].
      apply elem_of_app; now left.
    + exists d. rewrite tier_push, decide_True by reflexivity.
      apply elem_of_app; right. now apply list_elem_of_singleton.
Qed.

Lemma initialize_initialized (w : WordEnricherRedis.world) :
  WordEnricherRedis.isInitialized (WordEnricherRedis.initialize w) = true.
Proof.
  unfold WordEnricherRedis.initialize.
  destruct (WordEnricherRedis.isInitialized w) eqn:H; [exact H | reflexivity].
Qed.

Lemma initialize_done (w : WordEnricherRedis.world) :
  WordEnricherRedis.isInitialized w = true -> WordEnricherRedis.initialize w = w.
Proof. intros H. unfold WordEnricherRedis.initialize. now rewrite H. Qed.

Lemma enrichedWords_hSet
    (w : WordEnricherRedis.world) (key : string) (fields : list (string * string)) :
  WordEnricherRedis.enrichedWords (WordEnricherRedis.hSet w key fields)
  = WordEnricherRedis.enrichedWords w.
Proof. unfold WordEnricherRedis.hSet. destruct fields; reflexivity. Qed.

Lemma isInitialized_hSet
    (w : WordEnricherRedis.world) (key : string) (fields : list (string * string)) :
  WordEnricherRedis.isInitialized (WordEnricherRedis.hSet w key fields)
  = WordEnricherRedis.isInitialized w.
Proof. unfold WordEnricherRedis.hSet. destruct fields; reflexivity. Qed.

Lemma enrichedWords_saveToRedis
    (d : HangmanDifficulty) (words : list HangmanWord) (w : WordEnricherRedis.world) :
  WordEnricherRedis.enrichedWords (WordEnricherRedis.saveToRedis d words w)
  = WordEnricherRedis.enrichedWords w.
Proof.
  unfold WordEnricherRedis.saveToRedis. destruct words; [reflexivity | apply enrichedWords_hSet].
Qed.

Lemma isInitialized_saveToRedis
    (d : HangmanDifficulty) (words : list HangmanWord) (w : WordEnricherRedis.world) :
  WordEnricherRedis.isInitialized (WordEnricherRedis.saveToRedis d words w)
  = WordEnricherRedis.isInitialized w.
Proof.
  unfold WordEnricherRedis.saveToRedis. destruct words; [reflexivity | apply isInitialized_hSet].
Qed.

Lemma addWord_present
    (word hint : string) (difficulty : option HangmanDifficulty) (w : WordEnricherRedis.world) :
  let w0 := WordEnricherRedis.initialize w in
  present (WordEnricherRedis.enrichedWords w0) (JsString.trim (JsString.toLowerCase word)) ->
  WordEnricherRedis.addWord word hint difficulty w = (false, w0).
Proof.
  cbv zeta. intros H%exists_present. unfold WordEnricherRedis.addWord. now rewrite H.
Qed.

Lemma addWord_absent
    (word hint : string) (difficulty : option HangmanDifficulty) (w : WordEnricherRedis.world) :
  let w0 := WordEnricherRedis.initialize w in
  let normalizedWord := JsString.trim (JsString.toLowerCase word) in
  let actualDifficulty :=
    default (RandomWordsAPI.estimateDifficulty normalizedWord) difficulty in
  let newWord := {| word := normalizedWord; hint := hint |} in
  ~ present (WordEnricherRedis.enrichedWords w0) normalizedWord ->
  WordEnricherRedis.addWord word hint difficulty w
  = (true,
     WordEnricherRedis.saveToRedis actualDifficulty [newWord]
       (WordEnricherRedis.setPools w0
          (WordEnricherRedis.push (WordEnricherRedis.enrichedWords w0) actualDifficulty newWord))).
Proof.
  cbv zeta. intros H%exists_absent. unfold WordEnricherRedis.addWord. now rewrite H.
Qed.

(** After [addWord], whatever it returned, the normalized word is in the
    pool and the pool is loaded. *)
Lemma addWord_then_present
    (word hint : string) (difficulty : option HangmanDifficulty) (w : WordEnricherRedis.world) :
  let w' := (WordEnricherRedis.addWord word hint difficulty w).2 in
  WordEnricherRedis.isInitialized w' = true /\
  present (WordEnricherRedis.enrichedWords w') (JsString.trim (JsString.toLowerCase word)).
Proof.
  cbv zeta.
  destruct (WordEnricherRedis.exists_
              (WordEnricherRedis.enrichedWords (WordEnricherRedis.initialize w))
              (JsString.trim (JsString.toLowerCase word))) eqn:Hex.
  - apply exists_present in Hex. rewrite addWord_present by exact Hex.
    split; [apply initialize_initialized | exact Hex].
  - apply exists_absent in Hex. rewrite addWord_absent by exact Hex. cbn [snd].
    rewrite isInitialized_saveToRedis, enrichedWords_saveToRedis.
    split; [apply initialize_initialized|].
    eexists. split; [apply elem_of_allWords_push; right; reflexivity|].
    apply normalized_lower.
Qed.

(** C6 (the word "__proto__").  [addWord("__proto__", ...)] on an empty
    pool returns true and appends the word to the medium tier of the
    cache, but nothing is stored: the object that [saveToRedis] fills has
    no property, every hash is empty, and a process that starts anew
    finds no word, while a word such as "apfel" is found. *)
Theorem addWord_proto_is_not_persisted :
  let outcome := WordEnricherRedis.addWord "__proto__" "Where a property is looked up" None
                   emptyWorld in
  let other := WordEnricherRedis.addWord "Apfel" "A fruit" None emptyWorld in
  outcome.1 = true /\
  WordEnricherRedis.enrichedWords outcome.2
  = {| WordEnricherRedis.easy := [];
       WordEnricherRedis.medium :=
         [{| word := "__proto__"; hint := "Where a property is looked up" |}];
       WordEnricherRedis.hard := [] |} /\
  WordEnricherRedis.hGetAll outcome.2 "german_words:medium" = [] /\
  (WordEnricherRedis.getWords Medium (restart outcome.2)).1 = [] /\
  WordEnricherRedis.hGetAll other.2 "german_words:easy" = [("apfel", "A fruit")] /\
  (WordEnricherRedis.getWords Easy (restart other.2)).1
  = [{| word := "apfel"; hint := "A fruit" |}].
Proof. vm_compute. repeat split; reflexivity. Qed.

(** *** Enrichment *)

Lemma allWords_push_perm
    (p : WordEnricherRedis.pools) (d : HangmanDifficulty) (entry : HangmanWord) :
  WordEnricherRedis.allWords (WordEnricherRedis.push p d entry)
  ≡ₚ WordEnricherRedis.allWords p ++ [entry].
Proof.
  unfold WordEnricherRedis.allWords.
  destruct d; cbn; rewrite <- !Permutation_cons_append; cbn.
  - reflexivity.
  - now rewrite <- Permutation_middle.
  - now rewrite <- !Permutation_middle.
Qed.

Section Loop.

Variable estimate : string -> HangmanDifficulty.
Variable p0 : WordEnricherRedis.pools.

Lemma present_mono (st : WordEnricherRedis.progress) (candidate : string) :
  loop_inv p0 st -> present p0 candidate ->
  present (WordEnricherRedis.current st) candidate.
Proof.
  intros (Htier & _) (x & Hx & Heq). exists x. split; [|exact Heq].
  apply elem_of_allWords in Hx as (d & Hd). apply elem_of_allWords. exists d.
  rewrite Htier. apply elem_of_app. now left.
Qed.

Lemma addEntry_inv (st : WordEnricherRedis.progress) (entry : HangmanWord) :
  loop_inv p0 st -> loop_inv p0 (WordEnricherRedis.addEntry estimate st entry).
Proof.
  intros Hinv. unfold WordEnricherRedis.addEntry.
  destruct (WordEnricherRedis.exists_ _ _) eqn:Hex; [exact Hinv|].
  apply exists_absent in Hex.
  pose proof Hinv as (Htier & Hadded & Hnew & Huniq).
  repeat split; cbn [WordEnricherRedis.current WordEnricherRedis.byDifficulty
                     WordEnricherRedis.added].
  - intros d. rewrite !tier_push, Htier.
    destruct (decide (d = estimate (word entry))); [now rewrite app_assoc | reflexivity].
  - rewrite Hadded, allWords_push_perm, length_app. simpl. lia.
  - intros x [Hx | ->]%elem_of_allWords_push; [now apply Hnew|].
    intros Hp. apply Hex. now apply present_mono.
  - intros Hu. specialize (Huniq Hu). unfold unique_pool in *.
    rewrite allWords_push_perm, fmap_app. apply NoDup_app. split; [exact Huniq|].
    split; [|apply NoDup_singleton].
    intros c Hc [= ->]%list_elem_of_singleton.
    apply Hex. apply list_elem_of_fmap in Hc as (x & Heq & Hx). exists x. split; congruence.
Qed.

Lemma fold_addEntry_inv (entries : list HangmanWord) (st : WordEnricherRedis.progress) :
  loop_inv p0 st -> loop_inv p0 (fold_left (WordEnricherRedis.addEntry estimate) entries st).
Proof.
  revert st. induction entries as [|entry entries IH]; intros st Hinv; simpl.
  - exact Hinv.
  - apply IH, addEntry_inv, Hinv.
Qed.

End Loop.

Lemma start_inv (w : WordEnricherRedis.world) :
  loop_inv (WordEnricherRedis.enrichedWords w) (WordEnricherRedis.start w).
Proof.
  repeat split; simpl.
  - intros []; simpl; now rewrite app_nil_r.
  - intros x Hx. inversion Hx.
  - intros H; exact H.
Qed.

Lemma enrichedWords_persist (b : WordEnricherRedis.pools) (w : WordEnricherRedis.world) :
  WordEnricherRedis.enrichedWords (WordEnricherRedis.persist b w)
  = WordEnricherRedis.enrichedWords w.
Proof.
  unfold WordEnricherRedis.persist. cbn [fold_left].
  repeat match goal with
         | |- context [if ?c then _ else _] => destruct c
         end;
    rewrite ?enrichedWords_saveToRedis; reflexivity.
Qed.

Lemma finish_enriched (w : WordEnricherRedis.world) (st : WordEnricherRedis.progress) :
  loop_inv (WordEnricherRedis.enrichedWords w) st ->
  enriched (WordEnricherRedis.enrichedWords w) (WordEnricherRedis.finish st w)
           (WordEnricherRedis.byDifficulty st).
Proof.
  intros (Htier & Hadded & Hnew & Huniq). unfold enriched, WordEnricherRedis.finish.
  cbn [fst snd]. rewrite enrichedWords_persist. cbn [WordEnricherRedis.setPools
    WordEnricherRedis.enrichedWords].
  repeat split; try assumption.
  rewrite Hadded. unfold WordEnricherRedis.allWords.
  pose proof (Htier Easy) as He. pose proof (Htier Medium) as Hm.
  pose proof (Htier Hard) as Hh. simpl in He, Hm, Hh.
  rewrite He, Hm, Hh, !length_app. lia.
Qed.

Lemma addFound_addEntry (api : OpenThesaurusAPI.provider)
    (st : WordEnricherRedis.progress) (found : string) :
  WordEnricherRedis.addFound api st found
  = WordEnricherRedis.addEntry OpenThesaurusAPI.estimateWordDifficulty st
      {| word := found; hint := OpenThesaurusAPI.generateHint api found |}.
Proof.
  unfold WordEnricherRedis.addFound, WordEnricherRedis.addEntry. cbn [word hint].
  destruct (WordEnricherRedis.exists_ _ _); reflexivity.
Qed.

Lemma fold_addFound (api : OpenThesaurusAPI.provider)
    (selected : list string) (st : WordEnricherRedis.progress) :
  fold_left (WordEnricherRedis.addFound api) selected st
  = fold_left (WordEnricherRedis.addEntry OpenThesaurusAPI.estimateWordDifficulty)
      ((fun found => {| word := found; hint := OpenThesaurusAPI.generateHint api found |})
         <$> selected) st.
Proof.
  revert st. induction selected as [|found selected IH]; intros st; simpl; [reflexivity|].
  now rewrite addFound_addEntry, IH.
Qed.

(** C7.  Both enrichment operations append only words that no tier held
    (compared in lower case), keep the pool free of duplicates across its
    tiers, and return the number of entries they appended: the growth of
    the three tiers together. *)
Theorem enrichment_adds_only_new_words
    (fetchRandomGermanWords : Z -> option (list HangmanWord))
    (api : OpenThesaurusAPI.provider) (shuffle : list string -> list string)
    (searchTerm : string) (count : Z) (w : WordEnricherRedis.world) :
  let p0 := WordEnricherRedis.enrichedWords (WordEnricherRedis.initialize w) in
  (exists appended,
     enriched p0 (WordEnricherRedis.enrichWithRandomGermanWords
                    fetchRandomGermanWords count w) appended) /\
  (exists appended,
     enriched p0 (WordEnricherRedis.searchAndAddWords api shuffle searchTerm count w)
              appended).
Proof.
  cbv zeta. split.
  - unfold WordEnricherRedis.enrichWithRandomGermanWords.
    destruct (fetchRandomGermanWords count) as [fetched|].
    + eexists. apply finish_enriched, fold_addEntry_inv, start_inv.
    + exists WordEnricherRedis.noWords. repeat split; cbn [fst snd].
      * intros d. destruct d; simpl; now rewrite app_nil_r.
      * intros x Hx. inversion Hx.
      * intros H; exact H.
      * lia.
  - unfold WordEnricherRedis.searchAndAddWords. rewrite fold_addFound.
    eexists. apply finish_enriched, fold_addEntry_inv, start_inv.
Qed.

(** *** Selection by index *)

Lemma isInitialized_finish (st : WordEnricherRedis.progress) (w : WordEnricherRedis.world) :
  WordEnricherRedis.isInitialized (WordEnricherRedis.finish st w).2
  = WordEnricherRedis.isInitialized w.
Proof.
  unfold WordEnricherRedis.finish, WordEnricherRedis.persist. cbn [snd fold_left].
  repeat match goal with
         | |- context [if ?c then _ else _] => destruct c
         end;
    rewrite ?isInitialized_saveToRedis; reflexivity.
Qed.

Lemma enrich_initialized
    (fetchRandomGermanWords : Z -> option (list HangmanWord)) (count : Z)
    (w : WordEnricherRedis.world) :
  WordEnricherRedis.isInitialized
    (WordEnricherRedis.enrichWithRandomGermanWords fetchRandomGermanWords count w).2 = true.
Proof.
  unfold WordEnricherRedis.enrichWithRandomGermanWords.
  destruct (fetchRandomGermanWords count).
  - rewrite isInitialized_finish. apply initialize_initialized.
  - apply initialize_initialized.
Qed.

Lemma length_zero {X : Type} (l : list X) : (JsArray.length l =? 0) = true <-> l = [].
Proof.
  unfold JsArray.length. rewrite Z.eqb_eq. destruct l; simpl; split; (reflexivity || lia || discriminate).
Qed.

(** Reading at [index % length] in a list that is not empty. *)
Lemma item_rem {X : Type} (l : list X) (index : Z) :
  l <> [] -> 0 <= index ->
  exists x, JsArray.item l (Z.rem index (JsArray.length l)) = Some x /\
            l !! Z.to_nat (index mod Z.of_nat (length l)) = Some x.
Proof.
  intros Hne Hidx. unfold JsArray.length.
  assert (0 < Z.of_nat (length l)) by (destruct l; [contradiction | simpl; lia]).
  rewrite Z.rem_mod_nonneg by lia.
  pose proof (Z.mod_pos_bound index (Z.of_nat (length l)) ltac:(lia)) as Hb.
  destruct (lookup_lt_is_Some_2 l (Z.to_nat (index mod Z.of_nat (length l)))
              ltac:(lia)) as [x Hx].
  exists x. split; [|exact Hx].
  unfold JsArray.item. destruct (Z.leb_spec 0 (index mod Z.of_nat (length l))); [exact Hx | lia].
Qed.

(** C9.  When the tier has words, [getWordByIndex] returns, for every
    index that is not negative, the entry at the index modulo the size of
    the tier, and does not throw; the same holds when the tier is empty
    and the fallback enrichment fills it.  When the tier is still empty
    after the enrichment, the call throws "No words available ..." and no
    remainder is taken.  The static variant reads one of its ten words per
    tier for every index that is not negative. *)
Theorem getWordByIndex_wraps_or_throws
    (fetchRandomGermanWords : Z -> option (list HangmanWord))
    (difficulty : HangmanDifficulty) (index : Z) (w : WordEnricherRedis.world) :
  let w0 := WordEnricherRedis.initialize w in
  let words := WordEnricherRedis.tier (WordEnricherRedis.enrichedWords w0) difficulty in
  let w1 := (WordEnricherRedis.enrichWithRandomGermanWords fetchRandomGermanWords 6 w0).2 in
  let words1 := WordEnricherRedis.tier (WordEnricherRedis.enrichedWords w1) difficulty in
  let outcome := GermanWords.getWordByIndex fetchRandomGermanWords difficulty index w in
  (words <> [] -> 0 <= index ->
     exists entry, outcome = (Ok (Some entry), w0) /\
                   words !! Z.to_nat (index mod Z.of_nat (length words)) = Some entry) /\
  (words = [] -> words1 <> [] -> 0 <= index ->
     exists entry, outcome = (Ok (Some entry), w1) /\
                   words1 !! Z.to_nat (index mod Z.of_nat (length words1)) = Some entry) /\
  (words = [] -> words1 = [] ->
     outcome = (Throw ("No words available in Redis for difficulty "
                       +:+ difficultyName difficulty), w1)) /\
  (0 <= index ->
     exists entry, StaticWords.getWordByIndex difficulty index = Some entry /\
                   WordEnricherRedis.tier StaticWords.germanWords difficulty
                     !! Z.to_nat (index mod 10) = Some entry).
Proof.
  cbv zeta. unfold GermanWords.getWordByIndex, WordEnricherRedis.getWords.
  set (w0 := WordEnricherRedis.initialize w).
  set (w1 := (WordEnricherRedis.enrichWithRandomGermanWords fetchRandomGermanWords 6 w0).2).
  assert (Hw1 : WordEnricherRedis.initialize w1 = w1).
  { apply initialize_done. subst w1. apply enrich_initialized. }
  split; [|split; [|split]].
  - intros Hne Hidx.
    destruct (JsArray.length _ =? 0) eqn:Hlen; [now apply length_zero in Hlen|].
    rewrite Hlen. destruct (item_rem _ index Hne Hidx) as (entry & Hitem & Hlook).
    exists entry. now rewrite Hitem.
  - intros Hempty Hne Hidx. rewrite Hempty.
    change (JsArray.length (@nil HangmanWord) =? 0) with true. cbv iota.
    destruct (WordEnricherRedis.enrichWithRandomGermanWords _ _ _) as [n w1'] eqn:He.
    subst w1. cbn [snd] in *. rewrite Hw1.
    destruct (JsArray.length _ =? 0) eqn:Hlen; [now apply length_zero in Hlen|].
    destruct (item_rem _ index Hne Hidx) as (entry & Hitem & Hlook).
    exists entry. now rewrite Hitem.
  - intros Hempty Hempty1. rewrite Hempty.
    change (JsArray.length (@nil HangmanWord) =? 0) with true. cbv iota.
    destruct (WordEnricherRedis.enrichWithRandomGermanWords _ _ _) as [n w1'] eqn:He.
    subst w1. cbn [snd] in *. rewrite Hw1, Hempty1. reflexivity.
  - intros Hidx. unfold StaticWords.getWordByIndex.
    assert (Hten : length (WordEnricherRedis.tier StaticWords.germanWords difficulty) = 10%nat)
      by (destruct difficulty; reflexivity).
    assert (Hne : WordEnricherRedis.tier StaticWords.germanWords difficulty <> [])
      by (destruct difficulty; discriminate).
    destruct (JsArray.length _ =? 0) eqn:Hlen; [now apply length_zero in Hlen|].
    destruct (item_rem _ index Hne Hidx) as (entry & Hitem & Hlook).
    exists entry. rewrite Hten in Hlook. now split.
Qed.

(** ** The daily puzzle *)

Lemma getPuzzle_saveWordBank
    (seed lang : string) (items : list WordMatch.slot) (r : GameStorage.store) :
  GameStorage.getPuzzle seed (GameStorage.saveWordBank lang items r)
  = GameStorage.getPuzzle seed r.
Proof.
  unfold GameStorage.getPuzzle, GameStorage.saveWordBank, GameStorage.setDoc.
  cbn [GameStorage.docs]. rewrite lookup_insert_ne; [reflexivity|].
  simpl. discriminate.
Qed.

Lemma getPuzzle_savePuzzle (puzzle : WordMatchDaily.t) (r : GameStorage.store) :
  GameStorage.getPuzzle (WordMatchDaily.id puzzle) (GameStorage.savePuzzle puzzle r)
  = Some (GameStorage.jsonPuzzle puzzle).
Proof.
  unfold GameStorage.getPuzzle, GameStorage.savePuzzle, GameStorage.setDoc.
  cbn [GameStorage.docs]. now rewrite lookup_insert_eq.
Qed.

(** [JSON.stringify] changes nothing in a list without [undefined]. *)
Lemma jsonSlot_defined (items : list WordMatch.slot) :
  WordMatch.Undefined ∉ items -> GameStorage.jsonSlot <$> items = items.
Proof.
  induction items as [|x items IH]; intros Hnot; [reflexivity|].
  rewrite fmap_cons, IH by (intros H; apply Hnot; now apply list_elem_of_further).
  destruct x; try reflexivity. destruct Hnot. apply list_elem_of_here.
Qed.

Lemma jsonPuzzle_defined (puzzle : WordMatchDaily.t) :
  WordMatch.Undefined ∉ WordMatchDaily.items puzzle ->
  GameStorage.jsonPuzzle puzzle = puzzle.
Proof.
  intros H. destruct puzzle as [i l d its m]. unfold GameStorage.jsonPuzzle. simpl in *.
  now rewrite jsonSlot_defined.
Qed.

Lemma generatePuzzleFromBank_result (seed : string) (r : GameStorage.store) :
  let generated := ContentManager.generatePuzzleFromBank seed r in
  GameStorage.getPuzzle seed generated.2 = GameStorage.getPuzzle seed r /\
  match generated.1 with
  | Ok puzzle =>
      JsString.truthy (dateOf seed) = true /\
      WordMatchDaily.id puzzle = seed /\
      WordMatchDaily.date puzzle = dateOf seed /\
      WordMatchDaily.items puzzle
        = JsArray.slice0 (Seed.seededShuffle WordMatch.Undefined (bankOf r) seed) 8
  | Throw message =>
      JsString.truthy (dateOf seed) = false /\ message = "Invalid seed format"
  end.
Proof.
  cbv zeta. unfold ContentManager.generatePuzzleFromBank, bankOf, dateOf.
  destruct (GameStorage.getWordBank "de" r) as [bank|];
    destruct (JsString.split_head ":" seed) as [dateStr rest];
    destruct (JsString.truthy dateStr) eqn:Hdate; cbn [negb fst snd default];
    rewrite ?getPuzzle_saveWordBank; repeat split; assumption.
Qed.

Lemma getDailyPuzzle_hit (seed : string) (r : GameStorage.store) (cached : WordMatchDaily.t) :
  GameStorage.getPuzzle seed r = Some cached ->
  ContentManager.getDailyPuzzle seed r = (Ok cached, r).
Proof. intros H. unfold ContentManager.getDailyPuzzle. now rewrite H. Qed.

Lemma getDailyPuzzle_miss (seed : string) (r : GameStorage.store) :
  GameStorage.getPuzzle seed r = None ->
  ContentManager.getDailyPuzzle seed r
  = match ContentManager.generatePuzzleFromBank seed r with
    | (Ok puzzle, r) => (Ok puzzle, GameStorage.savePuzzle puzzle r)
    | (Throw message, r) => (Throw message, r)
    end.
Proof. intros H. unfold ContentManager.getDailyPuzzle. now rewrite H. Qed.

(** C8 (amended).  A session that is cached for the seed is returned as
    it is stored, also after the bank has changed.  Without a cached
    session, a seed whose date part is not empty gets a puzzle with that
    seed as its id, whose items are the first entries, at most 8, of the
    seeded shuffle of the bank; the puzzle is cached, every later call
    returns the cached session whatever the bank has become, and that is
    the puzzle of the first call when none of its items is [undefined].  A
    seed whose date part is empty gets "Invalid seed format" from every
    call. *)
Theorem getDailyPuzzle_repeatable
    (seed : string) (bank' : list WordMatch.slot) (r : GameStorage.store) :
  let first := ContentManager.getDailyPuzzle seed r in
  let grown := GameStorage.saveWordBank "de" bank' first.2 in
  let second := ContentManager.getDailyPuzzle seed grown in
  (forall cached, GameStorage.getPuzzle seed r = Some cached ->
     first = (Ok cached, r) /\ second = (Ok cached, grown)) /\
  (GameStorage.getPuzzle seed r = None -> JsString.truthy (dateOf seed) = true ->
     exists puzzle,
       first.1 = Ok puzzle /\
       WordMatchDaily.id puzzle = seed /\
       WordMatchDaily.items puzzle
         = JsArray.slice0 (Seed.seededShuffle WordMatch.Undefined (bankOf r) seed) 8 /\
       (length (WordMatchDaily.items puzzle) <= 8)%nat /\
       second = (Ok (GameStorage.jsonPuzzle puzzle), grown) /\
       (WordMatch.Undefined ∉ WordMatchDaily.items puzzle -> second.1 = first.1)) /\
  (GameStorage.getPuzzle seed r = None -> JsString.truthy (dateOf seed) = false ->
     first.1 = Throw "Invalid seed format" /\ second.1 = Throw "Invalid seed format").
Proof.
  cbv zeta. split; [|split].
  - intros cached Hhit. rewrite (getDailyPuzzle_hit seed r cached Hhit). cbn [snd].
    split; [reflexivity|]. apply getDailyPuzzle_hit.
    now rewrite getPuzzle_saveWordBank.
  - intros Hmiss Hdate.
    pose proof (generatePuzzleFromBank_result seed r) as [Hkeep Hgen]. cbv zeta in Hgen.
    rewrite (getDailyPuzzle_miss seed r Hmiss).
    destruct (ContentManager.generatePuzzleFromBank seed r) as [[puzzle|message] r'];
      cbn [fst snd] in *; [|destruct Hgen; congruence].
    destruct Hgen as (_ & Hid & _ & Hitems).
    exists puzzle. split; [reflexivity|]. split; [exact Hid|]. split; [exact Hitems|].
    assert (Hsecond : ContentManager.getDailyPuzzle seed
                        (GameStorage.saveWordBank "de" bank' (GameStorage.savePuzzle puzzle r'))
                      = (Ok (GameStorage.jsonPuzzle puzzle),
                         GameStorage.saveWordBank "de" bank' (GameStorage.savePuzzle puzzle r'))).
    { apply getDailyPuzzle_hit.
      rewrite getPuzzle_saveWordBank. rewrite <- Hid at 1.
      apply getPuzzle_savePuzzle. }
    split; [|split; [exact Hsecond|]].
    + rewrite Hitems. unfold JsArray.slice0. cbn. rewrite length_take. lia.
    + intros Hdef. rewrite Hsecond. cbn [fst]. now rewrite jsonPuzzle_defined.
  - intros Hmiss Hdate.
    pose proof (generatePuzzleFromBank_result seed r) as [Hkeep Hgen]. cbv zeta in Hgen.
    rewrite (getDailyPuzzle_miss seed r Hmiss).
    destruct (ContentManager.generatePuzzleFromBank seed r) as [[puzzle|message] r'];
      cbn [fst snd] in *; [destruct Hgen; congruence|].
    destruct Hgen as (_ & ->). split; [reflexivity|].
    rewrite getDailyPuzzle_miss by (now rewrite getPuzzle_saveWordBank, Hkeep).
    pose proof (generatePuzzleFromBank_result seed (GameStorage.saveWordBank "de" bank' r'))
      as [_ Hgen2]. cbv zeta in Hgen2.
    destruct (ContentManager.generatePuzzleFromBank seed _) as [[puzzle|message] r''];
      cbn [fst snd] in *; [destruct Hgen2; congruence|].
    destruct Hgen2 as (_ & ->). reflexivity.
Qed.

(** ** Runs on concrete inputs *)

(** C7, on a concrete pool: of the three fetched words one is new, so one
    entry is appended and counted, and the pool stays free of duplicates;
    the search appends "Apfelbaum" only. *)
Lemma enrichment_on_stored_world :
  (WordEnricherRedis.enrichWithRandomGermanWords fetchThree 6 storedWorld).1 = 1 /\
  unique_pool (WordEnricherRedis.enrichedWords
                 (WordEnricherRedis.enrichWithRandomGermanWords fetchThree 6 storedWorld).2) /\
  unique_pool (WordEnricherRedis.enrichedWords
                 (WordEnricherRedis.searchAndAddWords thesaurus (fun l => l) "apf" 6
                    storedWorld).2).
Proof.
  pose proof (enrichment_adds_only_new_words fetchThree thesaurus (fun l => l) "apf" 6
                storedWorld) as [(a1 & _ & _ & _ & Hu1 & Hc1) (a2 & _ & _ & _ & Hu2 & _)].
  assert (Hp0 : unique_pool (WordEnricherRedis.enrichedWords
                               (WordEnricherRedis.initialize storedWorld))).
  { unfold unique_pool. apply (@bool_decide_unpack _ (NoDup_dec _)). vm_compute. exact I. }
  split; [|split].
  - rewrite Hc1. vm_compute. reflexivity.
  - apply Hu1, Hp0.
  - apply Hu2, Hp0.
Defined.

(** C9, on a concrete pool: index 7 in a tier of two words reads the
    second word. *)
Lemma getWordByIndex_seven :
  exists entry,
    GermanWords.getWordByIndex fetchThree Easy 7 storedWorld
    = (Ok (Some entry), WordEnricherRedis.initialize storedWorld) /\
    word entry = "birne".
Proof.
  pose proof (getWordByIndex_wraps_or_throws fetchThree Easy 7 storedWorld) as (Hhit & _).
  cbv zeta in Hhit.
  destruct Hhit as (entry & Hout & Hentry); [vm_compute; discriminate | lia |].
  exists entry. split; [exact Hout|].
  vm_compute in Hentry. now injection Hentry as <-.
Defined.

(** C8, on a concrete store: the puzzle of "2025-09-01:de" is created from
    the default bank, and a second call, after the bank was replaced by an
    empty one, returns the same puzzle. *)
Lemma getDailyPuzzle_twice :
  exists puzzle,
    (ContentManager.getDailyPuzzle "2025-09-01:de" emptyStore).1 = Ok puzzle /\
    (ContentManager.getDailyPuzzle "2025-09-01:de"
       (GameStorage.saveWordBank "de" []
          (ContentManager.getDailyPuzzle "2025-09-01:de" emptyStore).2)).1 = Ok puzzle /\
    slotName <$> WordMatchDaily.items puzzle
      = ["w12"; "w2"; "w6"; "w5"; "w3"; "w9"; "w4"; "w10"].
Proof.
  pose proof (getDailyPuzzle_repeatable "2025-09-01:de" [] emptyStore) as (_ & Hmiss & _).
  cbv zeta in Hmiss.
  destruct Hmiss as (puzzle & Hfirst & _ & Hitems & _ & Hsecond & Hsame);
    [reflexivity | reflexivity |].
  exists puzzle. split; [exact Hfirst|].
  assert (Hnames : slotName <$> WordMatchDaily.items puzzle
                   = ["w12"; "w2"; "w6"; "w5"; "w3"; "w9"; "w4"; "w10"]).
  { rewrite Hitems. vm_compute. reflexivity. }
  split; [|exact Hnames].
  rewrite <- Hfirst. apply Hsame.
  intros Hin. apply (list_elem_of_fmap_2 slotName) in Hin. rewrite Hnames in Hin.
  clear -Hin. apply list_elem_of_In in Hin. cbn in Hin.
  repeat (destruct Hin as [Hin | Hin]; [discriminate Hin|]). exact Hin.
Defined.

(** C8 (as stated).  A seed without a date part gets an error from every
    call and never a puzzle; a bank of three items gives a puzzle of three
    items, not eight; and for the seed "2025-01-01:de" the first call
    returns slots that are [undefined] where every later call returns
    [null]. *)
Lemma getDailyPuzzle_not_identical :
  let again seed r :=
    ContentManager.getDailyPuzzle seed (ContentManager.getDailyPuzzle seed r).2 in
  let small :=
    GameStorage.saveWordBank "de"
      (WordMatch.Item <$> take 3 ContentManager.GERMAN_WORD_BANK) emptyStore in
  (ContentManager.getDailyPuzzle ":de" emptyStore).1 = Throw "Invalid seed format" /\
  (again ":de" emptyStore).1 = Throw "Invalid seed format" /\
  itemNames (ContentManager.getDailyPuzzle "2025-09-01:de" small).1 = Ok ["w1"; "w3"; "w2"] /\
  itemNames (ContentManager.getDailyPuzzle "2025-01-01:de" emptyStore).1
    = Ok ["w6"; "w3"; "w7"; "w12"; "undefined"; "undefined"; "w10"; "undefined"] /\
  itemNames (again "2025-01-01:de" emptyStore).1
    = Ok ["w6"; "w3"; "w7"; "w12"; "null"; "null"; "w10"; "null"] /\
  (again "2025-01-01:de" emptyStore).1
    <> (ContentManager.getDailyPuzzle "2025-01-01:de" emptyStore).1.
Proof.
  cbv zeta. do 5 (split; [vm_compute; reflexivity|]).
  intros H. apply (f_equal itemNames) in H. vm_compute in H. discriminate H.
Qed.
(** * Further properties *)

(** ** The store behind the pool *)

Lemma hintOrDefault_idempotent (w h : string) :
  WordEnricherRedis.hintOrDefault w (WordEnricherRedis.hintOrDefault w h)
  = WordEnricherRedis.hintOrDefault w h.
Proof.
  unfold WordEnricherRedis.hintOrDefault.
  destruct (JsString.truthy h) eqn:Hh; [now rewrite Hh | reflexivity].
Qed.

Lemma stored_idempotent (x : HangmanWord) : stored (stored x) = stored x.
Proof. unfold stored. cbn [word hint]. now rewrite hintOrDefault_idempotent. Qed.

Lemma setField_fresh (h : WordEnricherRedis.hash) (k v : string) :
  k ∉ h.*1 -> WordEnricherRedis.setField h k v = h ++ [(k, v)].
Proof.
  induction h as [|[k' v'] h IH]; intros Hk; simpl; [reflexivity|].
  rewrite fmap_cons, not_elem_of_cons in Hk. destruct Hk as [Hne Hk]. cbn in Hne.
  destruct (String.eqb_spec k' k); [congruence|]. now rewrite IH.
Qed.

Lemma put_fresh (o : JsObject.object) (k v : string) :
  k ∉ o.*1 -> JsObject.put o k v = o ++ [(k, v)].
Proof.
  induction o as [|[k' v'] o IH]; intros Hk; simpl; [reflexivity|].
  rewrite fmap_cons, not_elem_of_cons in Hk. destruct Hk as [Hne Hk]. cbn in Hne.
  destruct (String.eqb_spec k' k); [congruence|]. now rewrite IH.
Qed.

Lemma set_fresh (o : JsObject.object) (k v : string) :
  k <> "__proto__" -> k ∉ o.*1 -> JsObject.set o k v = o ++ [(k, v)].
Proof.
  intros Hk Hfresh. unfold JsObject.set.
  destruct (String.eqb_spec k "__proto__"); [contradiction | now apply put_fresh].
Qed.

Lemma plainWord_spec (k : string) :
  plainWord k = true <-> k <> "__proto__" /\ JsObject.arrayIndex k = None.
Proof.
  unfold plainWord. rewrite andb_true_iff, negb_true_iff.
  destruct (String.eqb_spec k "__proto__"), (JsObject.arrayIndex k); split;
    intros [H1 H2]; (split; congruence).
Qed.

(** The object [saveToRedis] fills from distinct words other than
    [__proto__]. *)
Lemma wordHash_fresh (words : list HangmanWord) (o : JsObject.object) :
  NoDup (word <$> words) ->
  (forall x, x ∈ words -> word x ∉ o.*1) ->
  (forall x, x ∈ words -> word x <> "__proto__") ->
  fold_left (fun o x => JsObject.set o (word x)
                          (WordEnricherRedis.hintOrDefault (word x) (hint x))) words o
  = o ++ (field <$> words).
Proof.
  revert o. induction words as [|x words IH]; intros o Hnd Hfresh Hproto; simpl.
  - now rewrite app_nil_r.
  - rewrite fmap_cons in Hnd. apply NoDup_cons in Hnd as [Hx Hnd].
    rewrite set_fresh
      by (try apply Hproto; try apply Hfresh; apply list_elem_of_here).
    rewrite IH; [now rewrite <- app_assoc | exact Hnd | |].
    + intros y Hy. rewrite fmap_app, elem_of_app. intros [Hin | Hin].
      * now apply (Hfresh y); [apply list_elem_of_further|].
      * cbn in Hin. apply list_elem_of_singleton in Hin.
        apply Hx. rewrite <- Hin. now apply list_elem_of_fmap_2.
    + intros y Hy. apply Hproto. now apply list_elem_of_further.
Qed.

(** The keys of an object without array indices are listed in the order
    of their creation. *)
Lemma keys_plain (o : JsObject.object) :
  (forall k, k ∈ o.*1 -> JsObject.arrayIndex k = None) -> JsObject.keys o = o.*1.
Proof.
  intros Hplain. unfold JsObject.keys.
  assert (Hindices : fold_right
            (fun kv sorted =>
               match JsObject.arrayIndex kv.1 with
               | Some i => JsObject.insertIndex i kv.1 sorted
               | None => sorted
               end) [] o = []).
  { induction o as [|[k v] o IH]; [reflexivity|]. cbn [fold_right fst].
    rewrite (Hplain k) by (rewrite fmap_cons; apply list_elem_of_here).
    apply IH. intros k' Hk'. apply Hplain. rewrite fmap_cons. now apply list_elem_of_further. }
  rewrite Hindices. cbn [fmap list_fmap app].
  induction (o.*1) as [|k keys IH]; [reflexivity|]. cbn [List.filter].
  rewrite (Hplain k) by apply list_elem_of_here. f_equal.
  apply IH. intros k' Hk'. apply Hplain. now apply list_elem_of_further.
Qed.

Lemma getOwn_head (o : JsObject.object) (k v : string) :
  JsObject.getOwn ((k, v) :: o) k = Some v.
Proof. unfold JsObject.getOwn. cbn. now rewrite String.eqb_refl. Qed.

Lemma getOwn_tail (o : JsObject.object) (k k' v : string) :
  k' <> k -> JsObject.getOwn ((k', v) :: o) k = JsObject.getOwn o k.
Proof.
  intros Hne. unfold JsObject.getOwn. cbn.
  destruct (String.eqb_spec k' k); [contradiction | reflexivity].
Qed.

(** Reading every key of an object whose keys are distinct gives the
    properties back. *)
Lemma read_keys {X : Type} (f : string -> string -> X) (o : JsObject.object) :
  NoDup o.*1 ->
  (fun k => f k (default "" (JsObject.getOwn o k))) <$> o.*1 = (fun kv => f kv.1 kv.2) <$> o.
Proof.
  induction o as [|[k v] o IH]; intros Hnd; [reflexivity|].
  rewrite fmap_cons in Hnd. apply NoDup_cons in Hnd as [Hk Hnd]. cbn in Hk.
  cbn [fmap list_fmap fst snd]. rewrite getOwn_head. cbn [default]. f_equal.
  rewrite <- (IH Hnd). apply list_fmap_ext. intros i k' Hk'.
  rewrite getOwn_tail; [reflexivity|].
  intros ->. apply Hk. now apply list_elem_of_lookup_2 in Hk'.
Qed.

Lemma entries_plain (o : JsObject.object) :
  NoDup o.*1 -> (forall k, k ∈ o.*1 -> JsObject.arrayIndex k = None) ->
  JsObject.entries o = o.
Proof.
  intros Hnd Hplain. unfold JsObject.entries. rewrite keys_plain by exact Hplain.
  rewrite (read_keys (fun k v => (k, v)) o Hnd).
  rewrite <- (list_fmap_id o) at 2. apply list_fmap_ext. now intros _ [k v] _.
Qed.

(** The entries of an object with one property, whatever its key. *)
Lemma entries_single (k v : string) :
  k <> "__proto__" -> JsObject.entries (JsObject.set [] k v) = [(k, v)].
Proof.
  intros Hk. unfold JsObject.set.
  destruct (String.eqb_spec k "__proto__"); [contradiction|].
  unfold JsObject.entries, JsObject.keys. cbn [JsObject.put fold_right fmap list_fmap fst].
  destruct (JsObject.arrayIndex k) eqn:Hindex; cbn [JsObject.insertIndex List.filter];
    rewrite Hindex; cbn [fmap list_fmap snd app]; now rewrite getOwn_head.
Qed.

(** The object the client fills from distinct fields other than
    [__proto__] has these fields as its properties. *)
Lemma ofFields_plain (fields : WordEnricherRedis.hash) :
  NoDup fields.*1 -> (forall k, k ∈ fields.*1 -> k <> "__proto__") ->
  JsObject.ofFields fields = fields.
Proof.
  intros Hnd Hproto. unfold JsObject.ofFields.
  assert (H : forall o, NoDup (o ++ fields).*1 ->
                        fold_left (fun o kv => JsObject.set o kv.1 kv.2) fields o = o ++ fields).
  { clear Hnd. induction fields as [|[k v] fields IH]; intros o Hnd; cbn [fold_left fst snd].
    - now rewrite app_nil_r.
    - rewrite fmap_app, fmap_cons in Hnd. cbn [fst] in Hnd.
      apply NoDup_app in Hnd as (Ho & Hdisjoint & Hfields).
      apply NoDup_cons in Hfields as [Hk Hfields].
      rewrite set_fresh.
      + rewrite IH.
        * now rewrite <- app_assoc.
        * intros k' Hk'. apply Hproto. rewrite fmap_cons. now apply list_elem_of_further.
        * rewrite <- app_assoc. cbn [app]. rewrite fmap_app, fmap_cons. cbn [fst].
          apply NoDup_app. repeat split; [exact Ho | exact Hdisjoint |].
          now apply NoDup_cons.
      + apply Hproto. rewrite fmap_cons. apply list_elem_of_here.
      + intros Hin. apply (Hdisjoint k Hin). apply list_elem_of_here. }
  now apply (H []).
Qed.

(** Over distinct plain fields, the pool that is loaded lists the fields
    in the order of the store. *)
Lemma getWordsFromRedis_plain (w : WordEnricherRedis.world) (key : string) :
  NoDup (WordEnricherRedis.hGetAll w key).*1 ->
  (forall k, k ∈ (WordEnricherRedis.hGetAll w key).*1 -> plainWord k = true) ->
  WordEnricherRedis.getWordsFromRedis w key = readFields (WordEnricherRedis.hGetAll w key).
Proof.
  intros Hnd Hplain. unfold WordEnricherRedis.getWordsFromRedis.
  rewrite ofFields_plain by (try exact Hnd; intros k Hk; now apply plainWord_spec, Hplain).
  rewrite keys_plain by (intros k Hk; now apply plainWord_spec, Hplain).
  set (h := WordEnricherRedis.hGetAll w key) in *.
  destruct (JsArray.length h.*1 =? 0) eqn:Hlen.
  - apply Z.eqb_eq in Hlen. unfold JsArray.length in Hlen. rewrite length_fmap in Hlen.
    destruct h; [reflexivity | discriminate Hlen].
  - apply (read_keys (fun k v => {| word := k; hint := WordEnricherRedis.hintOrDefault k v |})
             h Hnd).
Qed.

Lemma hSetFields_fresh (stored0 fields : WordEnricherRedis.hash) :
  NoDup fields.*1 -> (forall k, k ∈ fields.*1 -> k ∉ stored0.*1) ->
  WordEnricherRedis.hSetFields stored0 fields = stored0 ++ fields.
Proof.
  unfold WordEnricherRedis.hSetFields.
  revert stored0. induction fields as [|[k v] fields IH]; intros h Hnd Hfresh; simpl.
  - now rewrite app_nil_r.
  - rewrite fmap_cons in Hnd. apply NoDup_cons in Hnd as [Hk Hnd]. cbn in Hk.
    rewrite setField_fresh by (apply Hfresh; rewrite fmap_cons; apply list_elem_of_here).
    rewrite IH; [now rewrite <- app_assoc | exact Hnd |].
    intros k' Hk'. rewrite fmap_app, elem_of_app. intros [Hin | Hin].
    + apply (Hfresh k'); [rewrite fmap_cons; now apply list_elem_of_further | exact Hin].
    + cbn in Hin. apply list_elem_of_singleton in Hin. congruence.
Qed.

Lemma field_fst (words : list HangmanWord) : (field <$> words).*1 = word <$> words.
Proof. rewrite <- list_fmap_compose. reflexivity. Qed.

Lemma redisKey_inj (d d' : HangmanDifficulty) :
  WordEnricherRedis.redisKey d = WordEnricherRedis.redisKey d' -> d = d'.
Proof. destruct d, d'; intros H; (reflexivity || discriminate H). Qed.

Lemma hGetAll_hSet (w : WordEnricherRedis.world) (d d' : HangmanDifficulty)
    (fields : list (string * string)) :
  WordEnricherRedis.hGetAll (WordEnricherRedis.hSet w (WordEnricherRedis.redisKey d) fields)
    (WordEnricherRedis.redisKey d')
  = if decide (d' = d)
    then WordEnricherRedis.hSetFields
           (WordEnricherRedis.hGetAll w (WordEnricherRedis.redisKey d')) fields
    else WordEnricherRedis.hGetAll w (WordEnricherRedis.redisKey d').
Proof.
  unfold WordEnricherRedis.hSet. destruct fields as [|f fields].
  - destruct (decide (d' = d)); reflexivity.
  - unfold WordEnricherRedis.hGetAll at 1. cbn [WordEnricherRedis.redis].
    destruct (decide (d' = d)) as [-> | Hne].
    + now rewrite lookup_insert_eq.
    + rewrite lookup_insert_ne by (intros H; apply Hne; symmetry; now apply redisKey_inj).
      reflexivity.
Qed.

(** What [saveToRedis] leaves in the store when the words are distinct
    and plain and none of them is a field of the hash yet. *)
Lemma hGetAll_saveToRedis
    (d d' : HangmanDifficulty) (words : list HangmanWord) (w : WordEnricherRedis.world) :
  NoDup (word <$> words) ->
  (forall x, x ∈ words -> word x ∉ (WordEnricherRedis.hGetAll w (WordEnricherRedis.redisKey d)).*1) ->
  (forall x, x ∈ words -> plainWord (word x) = true) ->
  WordEnricherRedis.hGetAll (WordEnricherRedis.saveToRedis d words w) (WordEnricherRedis.redisKey d')
  = if decide (d' = d)
    then WordEnricherRedis.hGetAll w (WordEnricherRedis.redisKey d') ++ (field <$> words)
    else WordEnricherRedis.hGetAll w (WordEnricherRedis.redisKey d').
Proof.
  intros Hnd Hfresh Hplain. unfold WordEnricherRedis.saveToRedis.
  destruct words as [|x words].
  - destruct (decide (d' = d)); [now rewrite app_nil_r | reflexivity].
  - set (l := x :: words) in *.
    rewrite (wordHash_fresh l []);
      [ | exact Hnd | intros y _; cbn; apply not_elem_of_nil
        | intros y Hy; now apply plainWord_spec, Hplain ].
    rewrite app_nil_l, entries_plain.
    + rewrite hGetAll_hSet. destruct (decide (d' = d)) as [-> | Hne]; [|reflexivity].
      apply hSetFields_fresh.
      * now rewrite field_fst.
      * intros k Hk. rewrite field_fst in Hk.
        apply list_elem_of_fmap in Hk as (y & -> & Hy). now apply Hfresh.
    + now rewrite field_fst.
    + intros k Hk. rewrite field_fst in Hk.
      apply list_elem_of_fmap in Hk as (y & -> & Hy). now apply plainWord_spec, Hplain.
Qed.

(** What [saveToRedis] does with one word other than [__proto__]: it
    sets the field of the word in the hash of the tier. *)
Lemma hGetAll_saveToRedis_one
    (d d' : HangmanDifficulty) (x : HangmanWord) (w : WordEnricherRedis.world) :
  word x <> "__proto__" ->
  WordEnricherRedis.hGetAll (WordEnricherRedis.saveToRedis d [x] w) (WordEnricherRedis.redisKey d')
  = if decide (d' = d)
    then WordEnricherRedis.setField
           (WordEnricherRedis.hGetAll w (WordEnricherRedis.redisKey d'))
           (word x) (WordEnricherRedis.hintOrDefault (word x) (hint x))
    else WordEnricherRedis.hGetAll w (WordEnricherRedis.redisKey d').
Proof.
  intros Hproto. unfold WordEnricherRedis.saveToRedis. cbn [fold_left].
  rewrite entries_single by exact Hproto. rewrite hGetAll_hSet.
  destruct (decide (d' = d)); reflexivity.
Qed.

Lemma stored_word (words : list HangmanWord) : word <$> (stored <$> words) = word <$> words.
Proof. rewrite <- list_fmap_compose. reflexivity. Qed.

Lemma readFields_keys (fields : WordEnricherRedis.hash) :
  word <$> readFields fields = fields.*1.
Proof. unfold readFields. rewrite <- list_fmap_compose. reflexivity. Qed.

Lemma readFields_app (h : WordEnricherRedis.hash) (words : list HangmanWord) :
  readFields (h ++ (field <$> words)) = readFields h ++ (stored <$> words).
Proof.
  unfold readFields. rewrite fmap_app. f_equal.
  rewrite <- list_fmap_compose. apply list_fmap_ext. intros _ x _.
  unfold field, stored. cbn. now rewrite hintOrDefault_idempotent.
Qed.

(** In a mirrored world the fields of a hash are the words of its tier. *)
Lemma mirrored_keys (w : WordEnricherRedis.world) (d : HangmanDifficulty) :
  mirrored w ->
  (WordEnricherRedis.hGetAll w (WordEnricherRedis.redisKey d)).*1
  = word <$> WordEnricherRedis.tier (WordEnricherRedis.enrichedWords w) d.
Proof. intros H. now rewrite <- readFields_keys, H, stored_word. Qed.

(** A word no entry of the pool has in lower case is no word of the
    pool. *)
Lemma absent_word (p : WordEnricherRedis.pools) (candidate : HangmanWord) (y : HangmanWord) :
  ~ present p (JsString.toLowerCase (word candidate)) ->
  y ∈ WordEnricherRedis.allWords p -> word y <> word candidate.
Proof. intros Habs Hy Heq. apply Habs. exists y. split; [exact Hy | now rewrite Heq]. Qed.

Lemma estimateDifficulty_tierOfLength (spelling : string) :
  RandomWordsAPI.estimateDifficulty spelling = tierOfLength (String.length spelling).
Proof.
  unfold RandomWordsAPI.estimateDifficulty, tierOfLength, JsString.length.
  destruct (Z.leb_spec (Z.of_nat (String.length spelling)) 5);
    destruct (Nat.leb_spec (String.length spelling) 5); try lia; [reflexivity|].
  destruct (Z.leb_spec (Z.of_nat (String.length spelling)) 9);
    destruct (Nat.leb_spec (String.length spelling) 9); try lia; reflexivity.
Qed.

(** X1.  For every word whose normalized form, lower-cased and trimmed,
    is not [__proto__]: [addWord] returns false and changes nothing but
    the load of the pool when the normalized word is present in some
    tier; otherwise it returns true, appends the entry to the given tier,
    or to the tier of its length (at most 5 easy, at most 9 medium, else
    hard) when none is given, leaves the other tiers alone, sets the
    field of the word in the hash of that tier and leaves the other
    hashes alone.  Over a store that mirrors the cache the new field is
    the last of its hash, and the store mirrors the cache again. *)
Theorem addWord_persists_the_word
    (spelling hint : string) (difficulty : option HangmanDifficulty) (w : WordEnricherRedis.world) :
  let w0 := WordEnricherRedis.initialize w in
  let normalizedWord := JsString.trim (JsString.toLowerCase spelling) in
  let actualDifficulty := default (tierOfLength (String.length normalizedWord)) difficulty in
  let newWord := {| word := normalizedWord; hint := hint |} in
  let value := WordEnricherRedis.hintOrDefault normalizedWord hint in
  let outcome := WordEnricherRedis.addWord spelling hint difficulty w in
  normalizedWord <> "__proto__" ->
  (present (WordEnricherRedis.enrichedWords w0) normalizedWord -> outcome = (false, w0)) /\
  (~ present (WordEnricherRedis.enrichedWords w0) normalizedWord ->
     outcome.1 = true /\
     (forall d, WordEnricherRedis.tier (WordEnricherRedis.enrichedWords outcome.2) d
                = if decide (d = actualDifficulty)
                  then WordEnricherRedis.tier (WordEnricherRedis.enrichedWords w0) d ++ [newWord]
                  else WordEnricherRedis.tier (WordEnricherRedis.enrichedWords w0) d) /\
     (forall d, WordEnricherRedis.hGetAll outcome.2 (WordEnricherRedis.redisKey d)
                = if decide (d = actualDifficulty)
                  then WordEnricherRedis.setField
                         (WordEnricherRedis.hGetAll w0 (WordEnricherRedis.redisKey d))
                         normalizedWord value
                  else WordEnricherRedis.hGetAll w0 (WordEnricherRedis.redisKey d)) /\
     (mirrored w0 ->
        WordEnricherRedis.hGetAll outcome.2 (WordEnricherRedis.redisKey actualDifficulty)
        = WordEnricherRedis.hGetAll w0 (WordEnricherRedis.redisKey actualDifficulty)
          ++ [(normalizedWord, value)])) /\
  (mirrored w0 -> mirrored outcome.2) /\
  (forall spelling2 hint2 difficulty2,
     JsString.trim (JsString.toLowerCase spelling2) = normalizedWord ->
     (WordEnricherRedis.addWord spelling2 hint2 difficulty2 outcome.2).1 = false).
Proof.
  cbv zeta. intros Hproto.
  set (w0 := WordEnricherRedis.initialize w).
  set (normalizedWord := JsString.trim (JsString.toLowerCase spelling)) in *.
  set (actualDifficulty := default (tierOfLength (String.length normalizedWord)) difficulty).
  set (newWord := {| word := normalizedWord; hint := hint |}).
  assert (Hadd : ~ present (WordEnricherRedis.enrichedWords w0) normalizedWord ->
            WordEnricherRedis.addWord spelling hint difficulty w
            = (true,
               WordEnricherRedis.saveToRedis actualDifficulty [newWord]
                 (WordEnricherRedis.setPools w0
                    (WordEnricherRedis.push (WordEnricherRedis.enrichedWords w0)
                       actualDifficulty newWord)))).
  { intros Habs. rewrite addWord_absent by exact Habs. fold normalizedWord.
    now rewrite estimateDifficulty_tierOfLength. }
  assert (Hhash : forall d,
            WordEnricherRedis.hGetAll
              (WordEnricherRedis.saveToRedis actualDifficulty [newWord]
                 (WordEnricherRedis.setPools w0
                    (WordEnricherRedis.push (WordEnricherRedis.enrichedWords w0)
                       actualDifficulty newWord)))
              (WordEnricherRedis.redisKey d)
            = if decide (d = actualDifficulty)
              then WordEnricherRedis.setField
                     (WordEnricherRedis.hGetAll w0 (WordEnricherRedis.redisKey d))
                     normalizedWord (WordEnricherRedis.hintOrDefault normalizedWord hint)
              else WordEnricherRedis.hGetAll w0 (WordEnricherRedis.redisKey d)).
  { intros d. now rewrite hGetAll_saveToRedis_one by exact Hproto. }
  assert (Hfresh : ~ present (WordEnricherRedis.enrichedWords w0) normalizedWord ->
            mirrored w0 ->
            normalizedWord
            ∉ (WordEnricherRedis.hGetAll w0 (WordEnricherRedis.redisKey actualDifficulty)).*1).
  { intros Habs Hm. rewrite mirrored_keys by exact Hm.
    intros (y & Heq & Hy)%list_elem_of_fmap.
    apply (absent_word (WordEnricherRedis.enrichedWords w0) newWord y).
    - pose proof (normalized_lower spelling) as Hn. cbv zeta in Hn.
      subst newWord normalizedWord. cbn. now rewrite Hn.
    - apply elem_of_allWords. eauto.
    - now symmetry. }
  split; [apply addWord_present|]. split; [|split].
  - intros Habs. rewrite (Hadd Habs). cbn [fst snd].
    split; [reflexivity|]. split; [|split].
    + intros d. rewrite enrichedWords_saveToRedis.
      cbn [WordEnricherRedis.setPools WordEnricherRedis.enrichedWords]. apply tier_push.
    + exact Hhash.
    + intros Hm. rewrite Hhash, decide_True by reflexivity.
      apply setField_fresh. now apply Hfresh.
  - intros Hm.
    destruct (WordEnricherRedis.exists_ (WordEnricherRedis.enrichedWords w0) normalizedWord)
      eqn:Hex.
    + apply exists_present in Hex. now rewrite addWord_present.
    + apply exists_absent in Hex. rewrite (Hadd Hex). cbn [snd]. intros d.
      rewrite Hhash, enrichedWords_saveToRedis.
      cbn [WordEnricherRedis.setPools WordEnricherRedis.enrichedWords]. rewrite tier_push.
      destruct (decide (d = actualDifficulty)) as [-> | Hne]; [|apply (Hm d)].
      rewrite setField_fresh by now apply Hfresh.
      rewrite (readFields_app _ [newWord]), fmap_app. f_equal. apply (Hm actualDifficulty).
  - intros spelling2 hint2 difficulty2 Heq.
    destruct (addWord_then_present spelling hint difficulty w) as [Hinit Hpres].
    rewrite addWord_present; [reflexivity|].
    rewrite initialize_done by exact Hinit. rewrite Heq. exact Hpres.
Qed.

(** The entries an enrichment loop has appended have distinct words. *)
Lemma addEntry_batch_distinct (estimate : string -> HangmanDifficulty)
    (p0 : WordEnricherRedis.pools) (st : WordEnricherRedis.progress) (entry : HangmanWord) :
  loop_inv p0 st ->
  NoDup (word <$> WordEnricherRedis.allWords (WordEnricherRedis.byDifficulty st)) ->
  NoDup (word <$> WordEnricherRedis.allWords
                    (WordEnricherRedis.byDifficulty (WordEnricherRedis.addEntry estimate st entry))).
Proof.
  intros (Htier & _) Hnd. unfold WordEnricherRedis.addEntry.
  destruct (WordEnricherRedis.exists_ _ _) eqn:Hex; [exact Hnd|].
  apply exists_absent in Hex. cbn [WordEnricherRedis.byDifficulty].
  rewrite allWords_push_perm, fmap_app. apply NoDup_app. split; [exact Hnd|].
  split; [|apply NoDup_singleton].
  intros k (y & -> & Hy)%list_elem_of_fmap Hk. cbn in Hk. apply list_elem_of_singleton in Hk.
  apply (absent_word _ _ y Hex); [|exact Hk].
  apply elem_of_allWords in Hy as (d & Hd). apply elem_of_allWords. exists d.
  rewrite Htier. apply elem_of_app. now right.
Qed.

Lemma fold_addEntry_batch_distinct (estimate : string -> HangmanDifficulty)
    (p0 : WordEnricherRedis.pools) (entries : list HangmanWord) (st : WordEnricherRedis.progress) :
  loop_inv p0 st ->
  NoDup (word <$> WordEnricherRedis.allWords (WordEnricherRedis.byDifficulty st)) ->
  NoDup (word <$> WordEnricherRedis.allWords
                    (WordEnricherRedis.byDifficulty
                       (fold_left (WordEnricherRedis.addEntry estimate) entries st))).
Proof.
  revert st. induction entries as [|entry entries IH]; intros st Hinv Hnd; simpl.
  - exact Hnd.
  - apply IH; [now apply addEntry_inv | now apply addEntry_batch_distinct with (p0 := p0)].
Qed.

Lemma NoDup_tier (b : WordEnricherRedis.pools) (d : HangmanDifficulty) :
  NoDup (word <$> WordEnricherRedis.allWords b) -> NoDup (word <$> WordEnricherRedis.tier b d).
Proof.
  unfold WordEnricherRedis.allWords. rewrite !fmap_app.
  intros (He & _ & (Hm & _ & Hh)%NoDup_app)%NoDup_app. now destruct d.
Qed.

(** What [persist] leaves in the store when the new entries have distinct
    plain words and none of them is a field of the hash of its tier. *)
Lemma hGetAll_persist (b : WordEnricherRedis.pools) (w : WordEnricherRedis.world)
    (d : HangmanDifficulty) :
  NoDup (word <$> WordEnricherRedis.allWords b) ->
  (forall d x, x ∈ WordEnricherRedis.tier b d ->
               word x ∉ (WordEnricherRedis.hGetAll w (WordEnricherRedis.redisKey d)).*1) ->
  plain_pool b ->
  WordEnricherRedis.hGetAll (WordEnricherRedis.persist b w) (WordEnricherRedis.redisKey d)
  = WordEnricherRedis.hGetAll w (WordEnricherRedis.redisKey d)
    ++ (field <$> WordEnricherRedis.tier b d).
Proof.
  intros Hnd Hfresh Hplain.
  assert (Hstep : forall d' w',
            (forall x, x ∈ WordEnricherRedis.tier b d' ->
                       word x ∉ (WordEnricherRedis.hGetAll w' (WordEnricherRedis.redisKey d')).*1) ->
            forall d,
            WordEnricherRedis.hGetAll
              (if 0 <? JsArray.length (WordEnricherRedis.tier b d')
               then WordEnricherRedis.saveToRedis d' (WordEnricherRedis.tier b d') w' else w')
              (WordEnricherRedis.redisKey d)
            = if decide (d = d')
              then WordEnricherRedis.hGetAll w' (WordEnricherRedis.redisKey d)
                   ++ (field <$> WordEnricherRedis.tier b d')
              else WordEnricherRedis.hGetAll w' (WordEnricherRedis.redisKey d)).
  { intros d' w' Hf d0. destruct (0 <? JsArray.length _) eqn:Hlen.
    - apply hGetAll_saveToRedis; [now apply NoDup_tier | exact Hf |].
      intros x Hx. apply Hplain. apply elem_of_allWords. eauto.
    - assert (WordEnricherRedis.tier b d' = []) as ->.
      { apply length_zero, Z.eqb_eq. apply Z.ltb_ge in Hlen.
        unfold JsArray.length in *. lia. }
      destruct (decide (d0 = d')); [now rewrite app_nil_r | reflexivity]. }
  unfold WordEnricherRedis.persist. cbn [fold_left].
  pose proof (Hstep Easy w (Hfresh Easy)) as H1.
  set (w1 := if 0 <? JsArray.length (WordEnricherRedis.tier b Easy) then _ else w) in *.
  assert (H2 := Hstep Medium w1). lapply H2; clear H2.
  2:{ intros x Hx. rewrite H1, decide_False by discriminate. now apply Hfresh. }
  intros H2.
  set (w2 := if 0 <? JsArray.length (WordEnricherRedis.tier b Medium) then _ else w1) in *.
  assert (H3 := Hstep Hard w2). lapply H3; clear H3.
  2:{ intros x Hx. rewrite H2, decide_False, H1, decide_False by discriminate.
      now apply Hfresh. }
  intros H3. rewrite H3, H2, H1.
  destruct d; repeat (rewrite decide_True by reflexivity || rewrite decide_False by discriminate);
    reflexivity.
Qed.

(** The end of an enrichment leaves the store a mirror of the cache,
    when the words it appended are plain. *)
Lemma finish_mirrored (w : WordEnricherRedis.world) (st : WordEnricherRedis.progress) :
  mirrored w -> loop_inv (WordEnricherRedis.enrichedWords w) st ->
  NoDup (word <$> WordEnricherRedis.allWords (WordEnricherRedis.byDifficulty st)) ->
  plain_pool (WordEnricherRedis.enrichedWords (WordEnricherRedis.finish st w).2) ->
  mirrored (WordEnricherRedis.finish st w).2.
Proof.
  intros Hm Hinv Hnd Hplain d. pose proof Hinv as (Htier & _ & Hnew & _).
  revert Hplain. unfold WordEnricherRedis.finish. cbn [snd]. rewrite enrichedWords_persist.
  cbn [WordEnricherRedis.setPools WordEnricherRedis.enrichedWords]. intros Hplain.
  rewrite hGetAll_persist.
  - rewrite readFields_app, Htier, fmap_app. f_equal. apply (Hm d).
  - exact Hnd.
  - intros d' x Hx.
    change (WordEnricherRedis.hGetAll (WordEnricherRedis.setPools w _) ?k)
      with (WordEnricherRedis.hGetAll w k).
    rewrite mirrored_keys by exact Hm.
    intros (y & Heq & Hy)%list_elem_of_fmap.
    apply (absent_word (WordEnricherRedis.enrichedWords w) x y).
    + apply Hnew. apply elem_of_allWords. eauto.
    + apply elem_of_allWords. eauto.
    + now symmetry.
  - intros x (d' & Hx)%elem_of_allWords. apply Hplain. apply elem_of_allWords. exists d'.
    rewrite Htier. apply elem_of_app. now right.
Qed.

(** X2.  The three enrichment operations keep the store a mirror of the
    cache when the words of the pool are plain keys of a JavaScript
    object (not [__proto__], not array indices): the entries they append
    to a tier are appended, in the same order, to the fields of the hash
    of that tier. *)
Theorem enrichment_keeps_store_mirrored
    (fetchRandomGermanWords : Z -> option (list HangmanWord))
    (api : OpenThesaurusAPI.provider) (shuffle : list string -> list string)
    (searchWord : string -> Thesaurus.SearchOptions -> option Thesaurus.Response)
    (term : string) (count : Z) (w : WordEnricherRedis.world) :
  let random := WordEnricherRedis.enrichWithRandomGermanWords fetchRandomGermanWords count w in
  let found := WordEnricherRedis.searchAndAddWords api shuffle term count w in
  let seeded := SeedWords.enrichWithSeedWord searchWord shuffle term count w in
  mirrored (WordEnricherRedis.initialize w) ->
  (plain_pool (WordEnricherRedis.enrichedWords random.2) -> mirrored random.2) /\
  (plain_pool (WordEnricherRedis.enrichedWords found.2) -> mirrored found.2) /\
  (plain_pool (WordEnricherRedis.enrichedWords seeded.2) -> mirrored seeded.2).
Proof.
  cbv zeta. intros Hm.
  assert (Hstart : NoDup (word <$> WordEnricherRedis.allWords
                            (WordEnricherRedis.byDifficulty
                               (WordEnricherRedis.start (WordEnricherRedis.initialize w)))))
    by apply NoDup_nil_2.
  split; [|split].
  - unfold WordEnricherRedis.enrichWithRandomGermanWords.
    destruct (fetchRandomGermanWords count) as [fetched|]; [|intros _; exact Hm].
    apply finish_mirrored; [exact Hm | apply fold_addEntry_inv, start_inv |].
    eapply fold_addEntry_batch_distinct; [apply start_inv | exact Hstart].
  - unfold WordEnricherRedis.searchAndAddWords. rewrite fold_addFound.
    apply finish_mirrored; [exact Hm | apply fold_addEntry_inv, start_inv |].
    eapply fold_addEntry_batch_distinct; [apply start_inv | exact Hstart].
  - unfold SeedWords.enrichWithSeedWord.
    apply finish_mirrored; [exact Hm | apply fold_addEntry_inv, start_inv |].
    eapply fold_addEntry_batch_distinct; [apply start_inv | exact Hstart].
Qed.

(** X3.  A restart loses nothing of a pool of plain words: over a store
    that mirrors the cache, where no tier lists a word twice and every
    word is a plain key of a JavaScript object, a process that starts
    anew loads, for every tier, the same words in the same order, each
    with its hint, or with the default hint when its hint was empty. *)
Theorem restart_reloads_pool (w : WordEnricherRedis.world) (d : HangmanDifficulty) :
  mirrored w ->
  plain_pool (WordEnricherRedis.enrichedWords w) ->
  listed_once (WordEnricherRedis.enrichedWords w) ->
  (WordEnricherRedis.getWords d (restart w)).1
  = stored <$> WordEnricherRedis.tier (WordEnricherRedis.enrichedWords w) d /\
  word <$> (WordEnricherRedis.getWords d (restart w)).1
  = word <$> WordEnricherRedis.tier (WordEnricherRedis.enrichedWords w) d /\
  mirrored (WordEnricherRedis.getWords d (restart w)).2.
Proof.
  intros Hm Hplain Honce.
  assert (Hload : forall d',
            WordEnricherRedis.getWordsFromRedis (restart w) (WordEnricherRedis.redisKey d')
            = stored <$> WordEnricherRedis.tier (WordEnricherRedis.enrichedWords w) d').
  { intros d'.
    change (WordEnricherRedis.getWordsFromRedis (restart w) ?k)
      with (WordEnricherRedis.getWordsFromRedis w k).
    rewrite getWordsFromRedis_plain.
    - apply (Hm d').
    - rewrite mirrored_keys by exact Hm. apply Honce.
    - intros k. rewrite mirrored_keys by exact Hm.
      intros (x & -> & Hx)%list_elem_of_fmap. apply Hplain. apply elem_of_allWords. eauto. }
  assert (H : (WordEnricherRedis.getWords d (restart w)).1
              = WordEnricherRedis.getWordsFromRedis (restart w) (WordEnricherRedis.redisKey d))
    by (destruct d; reflexivity).
  rewrite H, Hload. split; [reflexivity|]. split; [apply stored_word|].
  intros d'. unfold WordEnricherRedis.getWords. cbn [snd].
  assert (Htier : WordEnricherRedis.tier
                    (WordEnricherRedis.enrichedWords (WordEnricherRedis.initialize (restart w))) d'
                  = WordEnricherRedis.getWordsFromRedis (restart w)
                      (WordEnricherRedis.redisKey d'))
    by (destruct d'; reflexivity).
  rewrite Htier, Hload.
  change (WordEnricherRedis.hGetAll (WordEnricherRedis.initialize (restart w)) ?k)
    with (WordEnricherRedis.hGetAll w k).
  rewrite (Hm d'), <- list_fmap_compose. apply list_fmap_ext. intros _ x _.
  cbn. now rewrite stored_idempotent.
Qed.

(** ** The tier of a new word *)

Lemma addEntry_tier (estimate : string -> HangmanDifficulty)
    (st : WordEnricherRedis.progress) (entry : HangmanWord) :
  (forall d x, x ∈ WordEnricherRedis.tier (WordEnricherRedis.byDifficulty st) d ->
               estimate (word x) = d) ->
  forall d x,
    x ∈ WordEnricherRedis.tier
          (WordEnricherRedis.byDifficulty (WordEnricherRedis.addEntry estimate st entry)) d ->
    estimate (word x) = d.
Proof.
  intros H d x. unfold WordEnricherRedis.addEntry.
  destruct (WordEnricherRedis.exists_ _ _); [apply H|].
  cbn [WordEnricherRedis.byDifficulty]. rewrite tier_push.
  destruct (decide (d = estimate (word entry))) as [-> | Hne]; [|apply H].
  intros [Hx | ->%list_elem_of_singleton]%elem_of_app; [now apply H | reflexivity].
Qed.

Lemma fold_addEntry_tier (estimate : string -> HangmanDifficulty)
    (entries : list HangmanWord) (st : WordEnricherRedis.progress) :
  (forall d x, x ∈ WordEnricherRedis.tier (WordEnricherRedis.byDifficulty st) d ->
               estimate (word x) = d) ->
  forall d x,
    x ∈ WordEnricherRedis.tier
          (WordEnricherRedis.byDifficulty
             (fold_left (WordEnricherRedis.addEntry estimate) entries st)) d ->
    estimate (word x) = d.
Proof.
  revert st. induction entries as [|entry entries IH]; intros st H; simpl; [exact H|].
  apply IH. now apply addEntry_tier.
Qed.

Lemma finish_tier (estimate : string -> HangmanDifficulty)
    (w : WordEnricherRedis.world) (entries : list HangmanWord)
    (d : HangmanDifficulty) (x : HangmanWord) :
  let st := fold_left (WordEnricherRedis.addEntry estimate) entries (WordEnricherRedis.start w) in
  x ∈ WordEnricherRedis.tier (WordEnricherRedis.enrichedWords (WordEnricherRedis.finish st w).2) d ->
  x ∈ WordEnricherRedis.tier (WordEnricherRedis.enrichedWords w) d \/ estimate (word x) = d.
Proof.
  cbv zeta. unfold WordEnricherRedis.finish. cbn [snd]. rewrite enrichedWords_persist.
  cbn [WordEnricherRedis.setPools WordEnricherRedis.enrichedWords].
  destruct (fold_addEntry_inv estimate _ entries _ (start_inv w)) as (Htier & _).
  rewrite Htier. intros [Hx | Hx]%elem_of_app; [now left | right].
  revert Hx. apply fold_addEntry_tier. intros d' y Hy.
  destruct d'; cbn in Hy; inversion Hy.
Qed.

(** X4.  An enrichment files every word it adds under the tier that the
    length of the word selects: an entry of a tier after the call was in
    that tier before, or is classified into it.  So the random-word
    enrichment adds to the easy tier only words of at most five letters,
    and to the hard tier only words of at least ten. *)
Theorem enrichment_files_by_length
    (fetchRandomGermanWords : Z -> option (list HangmanWord))
    (api : OpenThesaurusAPI.provider) (shuffle : list string -> list string)
    (searchTerm : string) (count : Z) (w : WordEnricherRedis.world)
    (d : HangmanDifficulty) (x : HangmanWord) :
  let p0 := WordEnricherRedis.enrichedWords (WordEnricherRedis.initialize w) in
  let random := WordEnricherRedis.enrichWithRandomGermanWords fetchRandomGermanWords count w in
  let found := WordEnricherRedis.searchAndAddWords api shuffle searchTerm count w in
  (x ∈ WordEnricherRedis.tier (WordEnricherRedis.enrichedWords random.2) d ->
     x ∈ WordEnricherRedis.tier p0 d \/ RandomWordsAPI.estimateDifficulty (word x) = d) /\
  (x ∈ WordEnricherRedis.tier (WordEnricherRedis.enrichedWords found.2) d ->
     x ∈ WordEnricherRedis.tier p0 d \/ OpenThesaurusAPI.estimateWordDifficulty (word x) = d) /\
  (x ∈ WordEnricherRedis.tier (WordEnricherRedis.enrichedWords random.2) Easy ->
     x ∈ WordEnricherRedis.tier p0 Easy \/ (String.length (word x) <= 5)%nat) /\
  (x ∈ WordEnricherRedis.tier (WordEnricherRedis.enrichedWords random.2) Hard ->
     x ∈ WordEnricherRedis.tier p0 Hard \/ (10 <= String.length (word x))%nat).
Proof.
  cbv zeta.
  assert (Hrandom : forall d,
            x ∈ WordEnricherRedis.tier
                  (WordEnricherRedis.enrichedWords
                     (WordEnricherRedis.enrichWithRandomGermanWords
                        fetchRandomGermanWords count w).2) d ->
            x ∈ WordEnricherRedis.tier
                  (WordEnricherRedis.enrichedWords (WordEnricherRedis.initialize w)) d
            \/ RandomWordsAPI.estimateDifficulty (word x) = d).
  { intros d'. unfold WordEnricherRedis.enrichWithRandomGermanWords.
    destruct (fetchRandomGermanWords count) as [fetched|]; [apply finish_tier | now left]. }
  split; [apply Hrandom|]. split.
  - unfold WordEnricherRedis.searchAndAddWords. rewrite fold_addFound. apply finish_tier.
  - unfold RandomWordsAPI.estimateDifficulty, JsString.length in Hrandom.
    split; intros [H | H]%Hrandom; try (now left); right;
      destruct (Z.leb_spec (Z.of_nat (String.length (word x))) 5);
      destruct (Z.leb_spec (Z.of_nat (String.length (word x))) 9);
      try discriminate H; lia.
Qed.

(** ** Selection at a negative index *)

(** Reading at [index % length] for a negative index: the remainder has
    the sign of the index, so the read is outside the array unless the
    remainder is zero. *)
Lemma item_rem_negative {X : Type} (l : list X) (index : Z) :
  l <> [] -> index < 0 ->
  JsArray.item l (Z.rem index (JsArray.length l))
  = if decide (index mod Z.of_nat (length l) = 0) then head l else None.
Proof.
  intros Hne Hidx. unfold JsArray.length.
  assert (Hlen : 0 < Z.of_nat (length l)) by (destruct l; [contradiction | simpl; lia]).
  pose proof (Z.rem_bound_pos_neg index (Z.of_nat (length l)) ltac:(lia) ltac:(lia)) as Hb.
  pose proof (Z.rem_mod_eq_0 index (Z.of_nat (length l)) ltac:(lia)) as Hz.
  unfold JsArray.item.
  destruct (decide (index mod Z.of_nat (length l) = 0)) as [H0 | H0].
  - apply Hz in H0. rewrite H0. simpl. now destruct l.
  - destruct (Z.leb_spec 0 (Z.rem index (Z.of_nat (length l)))); [|reflexivity].
    destruct H0. apply Hz. lia.
Qed.

(** X5.  At a negative index both variants of [getWordByIndex] return
    [undefined] and do not throw, unless the index is a multiple of the
    size of the tier, where they return the first word. *)
Theorem getWordByIndex_negative_index
    (fetchRandomGermanWords : Z -> option (list HangmanWord))
    (difficulty : HangmanDifficulty) (index : Z) (w : WordEnricherRedis.world) :
  let w0 := WordEnricherRedis.initialize w in
  let words := WordEnricherRedis.tier (WordEnricherRedis.enrichedWords w0) difficulty in
  (words <> [] -> index < 0 ->
     GermanWords.getWordByIndex fetchRandomGermanWords difficulty index w
     = (Ok (if decide (index mod Z.of_nat (length words) = 0) then head words else None), w0)) /\
  (index < 0 ->
     StaticWords.getWordByIndex difficulty index
     = if decide (index mod 10 = 0)
       then head (WordEnricherRedis.tier StaticWords.germanWords difficulty)
       else None).
Proof.
  cbv zeta. split.
  - intros Hne Hidx. unfold GermanWords.getWordByIndex, WordEnricherRedis.getWords.
    destruct (JsArray.length _ =? 0) eqn:Hlen; [now apply length_zero in Hlen|].
    rewrite Hlen. now rewrite item_rem_negative.
  - intros Hidx. unfold StaticWords.getWordByIndex.
    assert (Hten : length (WordEnricherRedis.tier StaticWords.germanWords difficulty) = 10%nat)
      by (destruct difficulty; reflexivity).
    assert (Hne : WordEnricherRedis.tier StaticWords.germanWords difficulty <> [])
      by (destruct difficulty; discriminate).
    destruct (JsArray.length _ =? 0) eqn:Hlen; [now apply length_zero in Hlen|].
    rewrite item_rem_negative by assumption. now rewrite Hten.
Qed.

(** ** What the shuffle returns for any seed *)

Section ShuffleContent.

Context {T : Type} (undefined : T).

Variable array : list T.

(** A value of the array, or [undefined]. *)
Let known (x : T) : Prop := x ∈ array \/ x = undefined.

Let sound (a : Seed.jsArray) : Prop :=
  Forall known (Seed.elems a) /\ map_Forall (fun _ x => known x) (Seed.props a).

Lemma read_known (a : Seed.jsArray) (i : Z) : sound a -> known (Seed.read undefined a i).
Proof.
  intros [He Hp]. unfold Seed.read. destruct (0 <=? i).
  - destruct (Seed.elems a !! Z.to_nat i) as [x|] eqn:Hx; simpl; [|now right].
    eapply Forall_lookup_1; eassumption.
  - destruct (Seed.props a !! i) as [x|] eqn:Hx; simpl; [|now right].
    exact (Hp i x Hx).
Qed.

Lemma write_sound (a : Seed.jsArray) (i : Z) (v : T) :
  sound a -> known v ->
  sound (Seed.write undefined a i v) /\
  (length (Seed.elems a) <= length (Seed.elems (Seed.write undefined a i v)))%nat.
Proof.
  intros [He Hp] Hv. unfold Seed.write. destruct (0 <=? i).
  - destruct (Z.to_nat i <? length (Seed.elems a))%nat; cbn [Seed.elems Seed.props].
    + split; [split; [now apply Forall_insert | exact Hp]|].
      now rewrite length_insert.
    + split; [split; [|exact Hp]|].
      * apply Forall_app. split; [exact He|]. apply Forall_app. split.
        -- apply Forall_replicate. now right.
        -- now apply Forall_singleton.
      * rewrite length_app. lia.
  - cbn [Seed.elems Seed.props]. split; [split; [exact He|] | lia].
    now apply map_Forall_insert_2.
Qed.

Lemma swap_sound (a : Seed.jsArray) (i j : Z) :
  sound a ->
  sound (Seed.swap undefined a i j) /\
  (length (Seed.elems a) <= length (Seed.elems (Seed.swap undefined a i j)))%nat.
Proof.
  intros Ha. unfold Seed.swap.
  destruct (write_sound a i (Seed.read undefined a j) Ha (read_known a j Ha)) as [H1 L1].
  destruct (write_sound _ j (Seed.read undefined a i) H1 (read_known a i Ha)) as [H2 L2].
  split; [exact H2 | lia].
Qed.

Lemma shuffleLoop_sound (currentIndex : nat) (hash : Z) (a : Seed.jsArray) :
  sound a ->
  sound (Seed.shuffleLoop undefined currentIndex hash a) /\
  (length (Seed.elems a)
   <= length (Seed.elems (Seed.shuffleLoop undefined currentIndex hash a)))%nat.
Proof.
  revert hash a. induction currentIndex as [|n IH]; intros hash a Ha; simpl.
  - split; [exact Ha | lia].
  - destruct (swap_sound a (Z.of_nat n)
                (Seed.randomIndex (Seed.nextHash hash) (Z.of_nat (S n))) Ha) as [Hs Ls].
    destruct (IH (Seed.nextHash hash) _ Hs) as [Hr Lr].
    split; [exact Hr | lia].
Qed.

Lemma seededShuffle_content (seed : string) :
  Forall known (Seed.seededShuffle undefined array seed) /\
  (length array <= length (Seed.seededShuffle undefined array seed))%nat.
Proof.
  unfold Seed.seededShuffle.
  destruct (shuffleLoop_sound (length array) (Seed.hashSeed seed)
              {| Seed.elems := array; Seed.props := ∅ |}) as [[He _] Hl].
  - split; cbn.
    + apply Forall_forall. intros x Hx. now left.
    + apply map_Forall_empty.
  - split; [exact He | exact Hl].
Qed.

End ShuffleContent.

(** X6.  Whatever the seed, the shuffle returns only values of the array
    it was given and [undefined], in at least as many places as the array
    has; so a selection holds only values of the given items and
    [undefined], and every slot of a new daily puzzle is an item of the
    bank or [undefined]. *)
Theorem seededShuffle_invents_nothing
    {T : Type} (undefined : T) (array : list T) (count : Z) (seed : string)
    (r : GameStorage.store) :
  (forall x, x ∈ Seed.seededShuffle undefined array seed -> x ∈ array \/ x = undefined) /\
  (length array <= length (Seed.seededShuffle undefined array seed))%nat /\
  (forall x, x ∈ Seed.selectRandomItems undefined array count seed ->
             x ∈ array \/ x = undefined) /\
  (forall puzzle x,
     (ContentManager.generatePuzzleFromBank seed r).1 = Ok puzzle ->
     x ∈ WordMatchDaily.items puzzle -> x ∈ bankOf r \/ x = WordMatch.Undefined).
Proof.
  destruct (seededShuffle_content undefined array seed) as [Hk Hl].
  assert (Hsel : forall (U : Type) (u : U) (l : list U) (n : Z) (x : U),
            x ∈ Seed.selectRandomItems u l n seed -> x ∈ l \/ x = u).
  { intros U u l n x. unfold Seed.selectRandomItems, JsArray.slice0.
    destruct (seededShuffle_content u l seed) as [Hk' _].
    destruct (0 <=? n); intros Hx%subseteq_take;
      exact (proj1 (Forall_forall _ _) Hk' x Hx). }
  split; [exact (proj1 (Forall_forall _ _) Hk)|]. split; [exact Hl|].
  split; [apply Hsel|].
  intros puzzle x Hok Hx.
  pose proof (generatePuzzleFromBank_result seed r) as [_ Hgen]. cbv zeta in Hgen.
  rewrite Hok in Hgen. destruct Hgen as (_ & _ & _ & Hitems).
  rewrite Hitems in Hx. apply (Hsel _ WordMatch.Undefined (bankOf r) 8 x). exact Hx.
Qed.

(** ** The seed of the day and the puzzle made from it *)

Lemma append_assoc (s t u : string) : (s +:+ t) +:+ u = s +:+ (t +:+ u).
Proof.
  induction s as [|a s IH]; [reflexivity|].
  change (String a ((s +:+ t) +:+ u) = String a (s +:+ (t +:+ u))). now rewrite IH.
Qed.

Lemma append_nil_r (s : string) : s +:+ "" = s.
Proof.
  induction s as [|a s IH]; [reflexivity|].
  change (String a (s +:+ "") = String a s). now rewrite IH.
Qed.

Lemma split_head_colon (d rest : string) :
  ":"%char ∉ JsString.split_chars d ->
  JsString.split_head ":" (d +:+ String ":" rest) = (d, Some rest).
Proof.
  induction d as [|a d IH]; intros Hd; [reflexivity|].
  cbn in Hd. apply not_elem_of_cons in Hd as [Ha Hd].
  change (String a d +:+ String ":" rest) with (String a (d +:+ String ":" rest)).
  cbn [JsString.split_head].
  destruct (Ascii.eqb_spec a ":"); [congruence|]. now rewrite IH.
Qed.

Lemma split_head_whole (s : string) :
  ":"%char ∉ JsString.split_chars s -> JsString.split_head ":" s = (s, None).
Proof.
  induction s as [|a s IH]; intros Hs; [reflexivity|].
  cbn in Hs. apply not_elem_of_cons in Hs as [Ha Hs]. cbn [JsString.split_head].
  destruct (Ascii.eqb_spec a ":"); [congruence|]. now rewrite IH.
Qed.

(** X7.  The seed of a day is read back by the puzzle made from it: for
    a date part and a language without a colon, the new puzzle of the seed
    [date:lang], or of a seed with more parts after the language, has the
    seed as its id, the date part as its date and the language as its
    language (['de'] when the language is empty), and is stored under the
    seed. *)
Theorem daily_seed_read_back
    (iso lang : string) (more : option string) (r : GameStorage.store) :
  let dateStr := JsText.slice10 iso in
  let seed :=
    DailySeed.getTodaySeed iso lang
    +:+ match more with Some part => ":" +:+ part | None => "" end in
  dateStr <> "" ->
  ":"%char ∉ JsString.split_chars dateStr ->
  ":"%char ∉ JsString.split_chars lang ->
  GameStorage.getPuzzle seed r = None ->
  exists puzzle,
    (ContentManager.getDailyPuzzle seed r).1 = Ok puzzle /\
    WordMatchDaily.id puzzle = seed /\
    WordMatchDaily.date puzzle = dateStr /\
    WordMatchDaily.lang puzzle = (if JsString.truthy lang then lang else "de") /\
    GameStorage.getPuzzle seed (ContentManager.getDailyPuzzle seed r).2
    = Some (GameStorage.jsonPuzzle puzzle).
Proof.
  cbv zeta. intros Hne Hdate Hlang Hmiss.
  set (dateStr := JsText.slice10 iso) in *.
  set (seed := _ +:+ _) in *.
  assert (Hseed : seed = dateStr +:+ String ":" (lang +:+ match more with
                                                        | Some part => String ":" part
                                                        | None => ""
                                                        end)).
  { subst seed. unfold DailySeed.getTodaySeed. fold dateStr.
    rewrite !append_assoc. destruct more; reflexivity. }
  assert (Hsplit : JsString.split_head ":" seed
                   = (dateStr, Some (lang +:+ match more with
                                              | Some part => String ":" part
                                              | None => ""
                                              end))).
  { rewrite Hseed. now apply split_head_colon. }
  assert (Hrest : (JsString.split_head ":" (lang +:+ match more with
                                                    | Some part => String ":" part
                                                    | None => ""
                                                    end)).1 = lang).
  { destruct more as [part|].
    - now rewrite split_head_colon.
    - rewrite append_nil_r. now rewrite split_head_whole. }
  assert (Htruthy : JsString.truthy dateStr = true) by (destruct dateStr; [contradiction | reflexivity]).
  rewrite getDailyPuzzle_miss by exact Hmiss.
  unfold ContentManager.generatePuzzleFromBank.
  destruct (GameStorage.getWordBank "de" r) as [bank|];
    rewrite Hsplit; cbn [fmap option_fmap option_map]; rewrite Hrest, Htruthy; cbn [negb fst snd];
    eexists; (split; [reflexivity|]); cbn [WordMatchDaily.id WordMatchDaily.date WordMatchDaily.lang];
    (split; [reflexivity|]); (split; [reflexivity|]); (split; [reflexivity|]);
    apply (getPuzzle_savePuzzle {| WordMatchDaily.id := seed |}).
Qed.

(** ** One user's progress and another user's *)

Lemma split_chars_app (s t : string) :
  JsString.split_chars (s +:+ t) = JsString.split_chars s ++ JsString.split_chars t.
Proof.
  induction s as [|a s IH]; [reflexivity|].
  change (a :: JsString.split_chars (s +:+ t)
          = a :: (JsString.split_chars s ++ JsString.split_chars t)).
  now rewrite IH.
Qed.

Lemma split_chars_inj (s t : string) :
  JsString.split_chars s = JsString.split_chars t -> s = t.
Proof.
  revert t. induction s as [|a s IH]; intros [|b t] H; try discriminate H; [reflexivity|].
  cbn in H. injection H as -> H. now rewrite (IH t H).
Qed.

(** Two texts that end in [x] and [y] are equal only when the last
    characters of [x] and [y] agree as far as both reach. *)
Lemma same_ending (a b x y : string) (n : nat) :
  a +:+ x = b +:+ y ->
  (n <= String.length x)%nat -> (n <= String.length y)%nat ->
  take n (reverse (JsString.split_chars x)) = take n (reverse (JsString.split_chars y)).
Proof.
  intros H Hx Hy. apply (f_equal JsString.split_chars) in H.
  rewrite !split_chars_app in H. apply (f_equal reverse) in H.
  rewrite !reverse_app in H. apply (f_equal (take n)) in H.
  assert (Hlen : forall s, length (reverse (JsString.split_chars s)) = String.length s).
  { intros s. rewrite length_reverse. unfold JsString.split_chars.
    induction s as [|c s IH]; [reflexivity | cbn; now rewrite IH]. }
  rewrite !take_app_le in H by (rewrite Hlen; assumption). exact H.
Qed.

(** The keys of two users are different keys. *)
Lemma user_keys_apart (userId other field1 field2 : string) :
  userId <> other ->
  field1 ∈ [":streak"; ":maxStreak"; ":lastPlayed"] ->
  field2 ∈ [":streak"; ":maxStreak"; ":lastPlayed"] ->
  "user:" +:+ userId +:+ field1 <> "user:" +:+ other +:+ field2.
Proof.
  intros Hne H1 H2 H. apply String.app_inj in H.
  assert (Hsame : forall x, userId +:+ x = other +:+ x -> False).
  { intros x Hx. apply Hne. apply (f_equal JsString.split_chars) in Hx.
    rewrite !split_chars_app in Hx. apply app_inv_tail in Hx. now apply split_chars_inj. }
  apply list_elem_of_In in H1, H2. cbn in H1, H2.
  destruct H1 as [<- | [<- | [<- | []]]]; destruct H2 as [<- | [<- | [<- | []]]];
    try (now apply (Hsame _ H));
    apply (same_ending _ _ _ _ 7) in H; try (cbn; lia); discriminate H.
Qed.

Lemma colons_app (s t : string) : colons (s +:+ t) = (colons s + colons t)%nat.
Proof. unfold colons. now rewrite split_chars_app, List.filter_app, length_app. Qed.

Lemma colons_none (s : string) : ":"%char ∉ JsString.split_chars s -> colons s = 0%nat.
Proof.
  unfold colons. induction s as [|a s IH]; intros Hs; [reflexivity|].
  cbn in Hs. apply not_elem_of_cons in Hs as [Ha Hs]. cbn.
  destruct (Ascii.eqb_spec a ":"); [congruence | now apply IH].
Qed.

(** The result of a user is filed under a key that holds the progress of
    no user whose name has no colon. *)
Lemma played_key_apart (userId seed other : string) :
  ":"%char ∉ JsString.split_chars other ->
  playedKey userId seed ∉ progressKeys other.
Proof.
  intros Hother%colons_none Hin. unfold progressKeys in Hin.
  assert (Hcount : forall field, colons field = 1%nat ->
            playedKey userId seed <> "user:" +:+ other +:+ field).
  { intros field Hfield Heq. apply (f_equal colons) in Heq. unfold playedKey in Heq.
    rewrite !colons_app, Hother, Hfield in Heq.
    change (colons ":played:") with 2%nat in Heq. lia. }
  apply list_elem_of_In in Hin. cbn in Hin.
  destruct Hin as [H | [H | [H | []]]]; symmetry in H; revert H; now apply Hcount.
Qed.

(** X8.  A submitted result changes the progress of its own user only:
    the streak, the maximum and [lastPlayed] of every other user whose
    name has no colon read the same before and after, and the key the
    result is filed under is none of the keys of that user. *)
Theorem submit_result_leaves_other_users
    (result : UserResult.t) (other : string) (r : GameStorage.store) :
  UserResult.userId result <> other ->
  ":"%char ∉ JsString.split_chars other ->
  GameStorage.getUserState other (Server.submitResult result r).2
  = GameStorage.getUserState other r /\
  playedKey (UserResult.userId result) (UserResult.seed result) ∉ progressKeys other.
Proof.
  intros Hne Hother. split; [|now apply played_key_apart].
  unfold Server.submitResult. cbn [snd].
  rewrite getUserState_saveUserResult.
  unfold GameStorage.updateUserState, GameStorage.getUserState, GameStorage.get.
  cbn [lastPlayed streak maxStreak].
  assert (Hkey : forall field2, field2 ∈ [":streak"; ":maxStreak"; ":lastPlayed"] ->
            forall field1, field1 ∈ [":streak"; ":maxStreak"; ":lastPlayed"] ->
            "user:" +:+ UserResult.userId result +:+ field1 <> "user:" +:+ other +:+ field2).
  { intros f2 H2 f1 H1. now apply user_keys_apart. }
  assert (Hs : ":streak" ∈ [":streak"; ":maxStreak"; ":lastPlayed"])
    by (repeat first [apply list_elem_of_here | apply list_elem_of_further]).
  assert (Hm : ":maxStreak" ∈ [":streak"; ":maxStreak"; ":lastPlayed"])
    by (repeat first [apply list_elem_of_here | apply list_elem_of_further]).
  assert (Hl : ":lastPlayed" ∈ [":streak"; ":maxStreak"; ":lastPlayed"])
    by (repeat first [apply list_elem_of_here | apply list_elem_of_further]).
  destruct (JsString.truthy (UserResult.seed result));
    unfold GameStorage.set; cbn [GameStorage.strings];
    rewrite !lookup_insert_ne by (apply Hkey; assumption); reflexivity.
Qed.

(** X9.  A result without answers counts as a passed and perfect
    session: its score and its time are zero, it is marked perfect, and,
    while the stored streak is an integer below 2^53 in magnitude and the
    stored maximum at most 2^53, it extends the streak of the user by
    one, in the response and in the store. *)
Theorem submit_result_without_answers
    (userId seed : string) (score : Z) (timeMs : number) (r : GameStorage.store) :
  let result := {| UserResult.userId := userId; UserResult.seed := seed;
                   UserResult.score := score; UserResult.timeMs := timeMs;
                   UserResult.answers := [] |} in
  let before := GameStorage.getUserState userId r in
  let response := (Server.submitResult result r).1 in
  safeCounter (streak before) ->
  safeNumber (maxStreak before) ->
  SubmitResultResponse.score response = 0 /\
  SubmitResultResponse.perfect response = true /\
  SubmitResultResponse.timeMs response = Num 0 /\
  (forall s, streak before = Num s ->
             SubmitResultResponse.newStreak response = Num (s + 1) /\
             streak (GameStorage.getUserState userId (Server.submitResult result r).2)
             = Num (s + 1)).
Proof.
  cbv zeta. intros Hstreak Hmaximum.
  unfold Server.submitResult. cbn [fst snd UserResult.userId UserResult.seed
    UserResult.answers SubmitResultResponse.score SubmitResultResponse.perfect
    SubmitResultResponse.timeMs SubmitResultResponse.newStreak].
  assert (Hnew : Scoring.newStreak
                   (Scoring.updateStreak (streak (GameStorage.getUserState userId r))
                      (Scoring.score (Scoring.computeScore [])) (JsArray.length (@nil GameAnswer)))
                 = JsNumber.add (streak (GameStorage.getUserState userId r)) (Num 1))
    by reflexivity.
  destruct (add_one_safe _ Hstreak) as [Hsafe Hplus].
  split; [reflexivity|]. split; [reflexivity|]. split; [reflexivity|].
  intros s Hs. rewrite getUserState_saveUserResult, getUserState_updateUserState.
  - cbn [streak]. rewrite Hnew. split; now apply Hplus.
  - cbn [streak]. now rewrite Hnew.
  - cbn [maxStreak]. apply max_safe; [exact Hmaximum | now rewrite Hnew].
Qed.

(** ** Adding a list of words *)

(** The pool as the next call sees it. *)
Lemma allWords_addWord
    (spelling hint : string) (difficulty : option HangmanDifficulty)
    (w : WordEnricherRedis.world) :
  let p0 := WordEnricherRedis.enrichedWords (WordEnricherRedis.initialize w) in
  let outcome := WordEnricherRedis.addWord spelling hint difficulty w in
  WordEnricherRedis.initialize outcome.2 = outcome.2 /\
  length (WordEnricherRedis.allWords (WordEnricherRedis.enrichedWords outcome.2))
  = (length (WordEnricherRedis.allWords p0) + if outcome.1 then 1 else 0)%nat /\
  (unique_pool p0 -> unique_pool (WordEnricherRedis.enrichedWords outcome.2)).
Proof.
  cbv zeta.
  destruct (addWord_then_present spelling hint difficulty w) as [Hinit _].
  split; [now apply initialize_done|].
  destruct (WordEnricherRedis.exists_
              (WordEnricherRedis.enrichedWords (WordEnricherRedis.initialize w))
              (JsString.trim (JsString.toLowerCase spelling))) eqn:Hex.
  - apply exists_present in Hex. rewrite addWord_present by exact Hex. cbn [fst snd].
    split; [lia | tauto].
  - apply exists_absent in Hex. rewrite addWord_absent by exact Hex. cbn [fst snd].
    rewrite enrichedWords_saveToRedis.
    cbn [WordEnricherRedis.setPools WordEnricherRedis.enrichedWords].
    split.
    + rewrite allWords_push_perm, length_app. reflexivity.
    + unfold unique_pool. intros Hu. rewrite allWords_push_perm, fmap_app.
      apply NoDup_app. split; [exact Hu|]. split; [|apply NoDup_singleton].
      intros c (x & -> & Hx)%list_elem_of_fmap Hc. cbn in Hc.
      apply list_elem_of_singleton in Hc. apply Hex. exists x. split; [exact Hx|].
      rewrite Hc. apply normalized_lower.
Qed.

Lemma addTestWords_loop (words : list TestWords.TestWord) (count : Z)
    (w : WordEnricherRedis.world) :
  let step := fun '(addedCount, w) entry =>
    let '(added, w) :=
      WordEnricherRedis.addWord (TestWords.word entry) (TestWords.hint entry)
        (Some (TestWords.difficulty entry)) w in
    if added then (addedCount + 1, w) else (addedCount, w) in
  let outcome := fold_left step words (count, w) in
  let before := WordEnricherRedis.enrichedWords (WordEnricherRedis.initialize w) in
  let after := WordEnricherRedis.enrichedWords (WordEnricherRedis.initialize outcome.2) in
  outcome.1 - count
  = Z.of_nat (length (WordEnricherRedis.allWords after))
    - Z.of_nat (length (WordEnricherRedis.allWords before)) /\
  count <= outcome.1 <= count + Z.of_nat (length words) /\
  (unique_pool before -> unique_pool after).
Proof.
  cbv zeta. revert count w. induction words as [|entry words IH]; intros count w.
  - cbn [fold_left fst snd length]. split; [lia|]. split; [lia | tauto].
  - cbn [fold_left].
    destruct (allWords_addWord (TestWords.word entry) (TestWords.hint entry)
                (Some (TestWords.difficulty entry)) w) as (Hinit & Hlen & Huniq).
    cbv zeta in Hinit, Hlen, Huniq.
    destruct (WordEnricherRedis.addWord _ _ _ w) as [added w1]. cbn [fst snd] in *.
    destruct added;
      [specialize (IH (count + 1) w1) | specialize (IH count w1)];
      destruct IH as (IH1 & IH2 & IH3); rewrite Hinit in IH1, IH3;
      (split; [|split]); cbn [length]; try lia; tauto.
Qed.

(** X10.  [addTestWords] returns the number of entries by which the pool
    has grown, which is at most the number of words it was given, and it
    keeps a pool free of duplicates free of them. *)
Theorem addTestWords_counts_new_words
    (words : list TestWords.TestWord) (w : WordEnricherRedis.world) :
  let before := (WordEnricherRedis.getAllWords w).1 in
  let outcome := TestWords.addTestWords words w in
  let after := (WordEnricherRedis.getAllWords outcome.2).1 in
  outcome.1 = Z.of_nat (length (WordEnricherRedis.allWords after))
              - Z.of_nat (length (WordEnricherRedis.allWords before)) /\
  0 <= outcome.1 <= Z.of_nat (length words) /\
  (unique_pool before -> unique_pool after).
Proof.
  cbv zeta. unfold TestWords.addTestWords, WordEnricherRedis.getAllWords. cbn [fst].
  pose proof (addTestWords_loop words 0 w) as H. cbv zeta in H.
  destruct H as (H1 & H2 & H3). split; [lia|]. split; [lia | exact H3].
Qed.

(** ** The hangman game of a day *)

Lemma seedNum_nonnegative (seed : string) : 0 <= HangmanManager.seedNum seed.
Proof.
  unfold HangmanManager.seedNum.
  assert (H : forall l acc, 0 <= acc ->
            0 <= fold_left (fun acc char => acc + JsString.charCode char) l acc).
  { induction l as [|a l IH]; intros acc Hacc; simpl; [exact Hacc|].
    apply IH. unfold JsString.charCode. lia. }
  apply H. lia.
Qed.

(** At an index that is not negative, [getWordByIndex] returns a word of
    the tier, or throws because the tier is empty. *)
Lemma getWordByIndex_outcome
    (fetchRandomGermanWords : Z -> option (list HangmanWord))
    (difficulty : HangmanDifficulty) (index : Z) (w : WordEnricherRedis.world) :
  0 <= index ->
  let outcome := GermanWords.getWordByIndex fetchRandomGermanWords difficulty index w in
  let words := WordEnricherRedis.tier (WordEnricherRedis.enrichedWords outcome.2) difficulty in
  (exists entry, outcome.1 = Ok (Some entry) /\ entry ∈ words) \/
  (outcome.1 = Throw (GermanWords.noWordsAvailable difficulty) /\ words = []).
Proof.
  intros Hidx. cbv zeta. unfold GermanWords.getWordByIndex, WordEnricherRedis.getWords.
  set (w0 := WordEnricherRedis.initialize w).
  destruct (JsArray.length (WordEnricherRedis.tier (WordEnricherRedis.enrichedWords w0) difficulty)
            =? 0) eqn:Hlen.
  - pose proof (enrich_initialized fetchRandomGermanWords 6 w0) as Hinit.
    destruct (WordEnricherRedis.enrichWithRandomGermanWords _ _ _) as [n w1].
    cbn [snd] in Hinit. rewrite (initialize_done w1 Hinit).
    destruct (JsArray.length (WordEnricherRedis.tier (WordEnricherRedis.enrichedWords w1) difficulty)
              =? 0) eqn:Hlen1.
    + right. cbn [fst snd]. split; [reflexivity | now apply length_zero].
    + left. cbn [fst snd].
      assert (Hne : WordEnricherRedis.tier (WordEnricherRedis.enrichedWords w1) difficulty <> []).
      { intros H. apply length_zero in H. congruence. }
      destruct (item_rem _ index Hne Hidx) as (entry & Hitem & Hlook).
      exists entry. rewrite Hitem. split; [reflexivity|].
      eapply list_elem_of_lookup_2, Hlook.
  - rewrite Hlen. left. cbn [fst snd].
    assert (Hne : WordEnricherRedis.tier (WordEnricherRedis.enrichedWords w0) difficulty <> []).
    { intros H. apply length_zero in H. congruence. }
    destruct (item_rem _ index Hne Hidx) as (entry & Hitem & Hlook).
    exists entry. rewrite Hitem. split; [reflexivity|].
    eapply list_elem_of_lookup_2, Hlook.
Qed.

Lemma getHangmanGame_saveHangmanGame (game : HangmanGame.t) (r : HangmanManager.games) :
  HangmanManager.getHangmanGame (HangmanGame.id game) (HangmanManager.saveHangmanGame game r)
  = Some game.
Proof. apply lookup_insert_eq. Qed.

(** X11.  When no game is stored for the day, [createHangmanGame] either
    throws because the tier has no words, also after the fallback
    enrichment, and stores nothing; or it returns a game whose word and
    hint are an entry of the tier, with the seed [date:lang:hangman] as
    its id, six attempts and the given difficulty, and stores it under
    the seed.  It never fails to read a word from a tier that has
    words. *)
Theorem createHangmanGame_new_game
    (fetchRandomGermanWords : Z -> option (list HangmanWord))
    (iso : string) (language : option string) (difficulty : option HangmanDifficulty)
    (w : WordEnricherRedis.world) (r : HangmanManager.games) :
  let lang := default "de" language in
  let tier := default Medium difficulty in
  let seed := JsText.slice10 iso +:+ ":" +:+ lang +:+ ":hangman" in
  let outcome :=
    HangmanManager.createHangmanGame fetchRandomGermanWords iso language difficulty w r in
  let words := WordEnricherRedis.tier (WordEnricherRedis.enrichedWords outcome.1.2) tier in
  HangmanManager.getHangmanGame seed r = None ->
  (exists game,
     outcome.1.1 = Ok game /\
     {| word := HangmanGame.word game; hint := HangmanGame.hint game |} ∈ words /\
     HangmanGame.id game = seed /\
     HangmanGame.lang game = lang /\
     HangmanGame.date game = JsText.slice10 iso /\
     HangmanGame.maxAttempts game = 6 /\
     HangmanGame.difficulty game = tier /\
     HangmanManager.getHangmanGame seed outcome.2 = Some game) \/
  (outcome.1.1 = Throw ("No words available in Redis for difficulty " +:+ difficultyName tier) /\
   words = [] /\ outcome.2 = r).
Proof.
  cbv zeta. intros Hmiss. unfold HangmanManager.createHangmanGame. rewrite Hmiss.
  set (seed := JsText.slice10 iso +:+ ":" +:+ default "de" language +:+ ":hangman").
  pose proof (getWordByIndex_outcome fetchRandomGermanWords (default Medium difficulty)
                (HangmanManager.seedNum seed) w (seedNum_nonnegative seed)) as H.
  cbv zeta in H.
  destruct (GermanWords.getWordByIndex _ _ _ w) as [[[entry|]|message] w1]; cbn [fst snd] in *.
  - left. destruct H as [(entry' & [= <-] & Hin) | [H _]]; [|discriminate H].
    eexists. split; [reflexivity|]. cbn [HangmanGame.word HangmanGame.hint HangmanGame.id
      HangmanGame.lang HangmanGame.date HangmanGame.maxAttempts HangmanGame.difficulty].
    split; [now destruct entry|]. repeat (split; [reflexivity|]).
    apply (getHangmanGame_saveHangmanGame {| HangmanGame.id := seed |}).
  - destruct H as [(entry' & H & _) | [H _]]; discriminate H.
  - right. destruct H as [(entry' & H & _) | [[= ->] Hempty]]; [discriminate H|].
    split; [reflexivity|]. split; [exact Hempty | reflexivity].
Qed.

(** X12.  A game that was returned for a day is returned by every later
    call for that day and language: whatever difficulty is asked for and
    whatever the pool holds by then, and without touching the store. *)
Theorem createHangmanGame_same_game_all_day
    (fetch1 fetch2 : Z -> option (list HangmanWord))
    (iso1 iso2 : string) (language : option string)
    (difficulty1 difficulty2 : option HangmanDifficulty)
    (w1 w2 : WordEnricherRedis.world) (r : HangmanManager.games) (game : HangmanGame.t) :
  let first := HangmanManager.createHangmanGame fetch1 iso1 language difficulty1 w1 r in
  JsText.slice10 iso2 = JsText.slice10 iso1 ->
  first.1.1 = Ok game ->
  HangmanManager.createHangmanGame fetch2 iso2 language difficulty2 w2 first.2
  = (Ok game, w2, first.2).
Proof.
  cbv zeta. intros Hday. unfold HangmanManager.createHangmanGame. rewrite Hday.
  set (seed := JsText.slice10 iso1 +:+ ":" +:+ default "de" language +:+ ":hangman").
  destruct (HangmanManager.getHangmanGame seed r) as [existing|] eqn:Hget.
  - cbn [fst snd]. intros [= ->]. now rewrite Hget.
  - destruct (GermanWords.getWordByIndex _ _ _ w1) as [[[entry|]|message] w1'];
      cbn [fst snd]; intros [= <-].
    match goal with
    | |- context [HangmanManager.saveHangmanGame ?g r] =>
        pose proof (getHangmanGame_saveHangmanGame g r) as Hsaved
    end.
    cbn [HangmanGame.id] in Hsaved. now rewrite Hsaved.
Qed.

(** ** Words from the random-word service *)

Lemma trimEnd_idempotent (s : string) :
  JsString.trimEnd (JsString.trimEnd s) = JsString.trimEnd s.
Proof.
  induction s as [|a s IH]; [reflexivity|].
  cbn [JsString.trimEnd]. destruct (JsString.trimEnd s) as [|b t] eqn:Ht.
  - destruct (JsString.isWhiteSpace a) eqn:Ha; [reflexivity|].
    cbn [JsString.trimEnd]. now rewrite Ha.
  - cbn [JsString.trimEnd]. cbn [JsString.trimEnd] in IH.
    destruct (JsString.trimEnd t) as [|c u].
    + destruct (JsString.isWhiteSpace b); [discriminate IH | now rewrite IH].
    + now rewrite IH.
Qed.

(** A text that does not start with white space. *)
Lemma trimStart_fixed (s : string) :
  match s with String a _ => JsString.isWhiteSpace a = false | EmptyString => True end ->
  JsString.trimStart s = s.
Proof. destruct s as [|a s]; [reflexivity|]. intros H. cbn. now rewrite H. Qed.

Lemma trimStart_head (s : string) :
  match JsString.trimStart s with
  | String a _ => JsString.isWhiteSpace a = false
  | EmptyString => True
  end.
Proof.
  induction s as [|a s IH]; [exact I|]. cbn [JsString.trimStart].
  destruct (JsString.isWhiteSpace a) eqn:Ha; [exact IH | exact Ha].
Qed.

Lemma trimEnd_head (s : string) :
  match s with String a _ => JsString.isWhiteSpace a = false | EmptyString => True end ->
  match JsString.trimEnd s with
  | String a _ => JsString.isWhiteSpace a = false
  | EmptyString => True
  end.
Proof.
  destruct s as [|a s]; [intros _; exact I|]. intros Ha. cbn [JsString.trimEnd].
  destruct (JsString.trimEnd s); [now rewrite Ha | exact Ha].
Qed.

Lemma trim_idempotent (s : string) : JsString.trim (JsString.trim s) = JsString.trim s.
Proof.
  unfold JsString.trim.
  rewrite (trimStart_fixed (JsString.trimEnd (JsString.trimStart s)))
    by apply trimEnd_head, trimStart_head.
  apply trimEnd_idempotent.
Qed.

Lemma unique_subseteq (seen array : list string) : JsArray.unique seen array ⊆ array.
Proof.
  revert seen. induction array as [|x array IH]; intros seen; cbn [JsArray.unique].
  - reflexivity.
  - destruct (bool_decide (x ∈ seen)).
    + intros y Hy. apply list_elem_of_further. now apply (IH seen).
    + intros y [-> | Hy]%elem_of_cons; [apply list_elem_of_here|].
      apply list_elem_of_further. now apply (IH (x :: seen)).
Qed.

Lemma buildHint_both (word category : string) (length : Z) :
  JsString.truthy category = true -> length <> 0 ->
  RandomWordsClient.buildHint word (Some category) (Some length)
  = "Category: " +:+ category +:+ RandomWordsClient.middleDot
    +:+ JsNumber.toString (Num length) +:+ " letters".
Proof.
  intros Hc Hl. unfold RandomWordsClient.buildHint. rewrite Hc.
  destruct (Z.eqb_spec length 0); [contradiction|]. cbn [app].
  change (JsArray.length [ "Category: " +:+ category;
                           JsNumber.toString (Num length) +:+ " letters" ] =? 0) with false.
  cbn [JsText.join]. now rewrite !append_assoc.
Qed.

Lemma buildHint_truthy (word category : string) (length : Z) :
  JsString.truthy category = true ->
  JsString.truthy (RandomWordsClient.buildHint word (Some category) (Some length)) = true.
Proof.
  intros Hc. unfold RandomWordsClient.buildHint. rewrite Hc.
  destruct (length =? 0); reflexivity.
Qed.

(** Where a returned entry comes from. *)
Lemma fetched_word
    (category : RandomWordsClient.Category) (length : Z)
    (fetchWords : RandomWordsClient.RandomWordsParams -> list string) (desiredCount : Z)
    (x : HangmanWord) :
  x ∈ RandomWordsClient.fetchRandomGermanWords category length fetchWords desiredCount ->
  exists raw,
    raw ∈ fetchWords
            {| RandomWordsClient.language := Some "de";
               RandomWordsClient.category := Some category;
               RandomWordsClient.length := Some length;
               RandomWordsClient.words := Some (Z.max 3 (Z.min desiredCount 12));
               RandomWordsClient.type := Some RandomWordsClient.Lowercase;
               RandomWordsClient.alphabetize := Some false;
               RandomWordsClient.firstletter := None |} /\
    word x = JsString.trim (JsString.toLowerCase raw) /\
    (3 <= String.length (word x))%nat /\
    hint x = RandomWordsClient.buildHint (word x)
               (Some (RandomWordsClient.categoryName category)) (Some length).
Proof.
  unfold RandomWordsClient.fetchRandomGermanWords.
  intros (w & -> & Hw)%list_elem_of_fmap. cbn [word hint].
  apply list_elem_of_In, filter_In in Hw as [Hw Hkeep].
  apply list_elem_of_In, list_elem_of_fmap in Hw as (raw & -> & Hraw).
  apply unique_subseteq in Hraw.
  apply andb_true_iff in Hkeep as [_ Hlen%Z.leb_le]. unfold JsString.length in Hlen.
  exists raw. split; [exact Hraw|]. split; [reflexivity|]. split; [lia | reflexivity].
Qed.

(** X13.  Every word [fetchRandomGermanWords] returns is a word of the
    service in lower case and trimmed, is its own lower-case and trimmed
    form, has at least three letters, and carries the hint built from the
    category and the length drawn for the request; the request asks for at
    least 3 and at most 12 words. *)
Theorem fetchRandomGermanWords_normalized
    (category : RandomWordsClient.Category) (length : Z)
    (fetchWords : RandomWordsClient.RandomWordsParams -> list string) (desiredCount : Z) :
  Forall
    (fun x =>
       JsString.toLowerCase (word x) = word x /\
       JsString.trim (word x) = word x /\
       (3 <= String.length (word x))%nat /\
       hint x = RandomWordsClient.buildHint (word x)
                  (Some (RandomWordsClient.categoryName category)) (Some length) /\
       (length <> 0 ->
        hint x = "Category: " +:+ RandomWordsClient.categoryName category
                 +:+ RandomWordsClient.middleDot
                 +:+ JsNumber.toString (Num length) +:+ " letters") /\
       exists wordsParam raw,
         3 <= wordsParam <= 12 /\
         raw ∈ fetchWords
                 {| RandomWordsClient.language := Some "de";
                    RandomWordsClient.category := Some category;
                    RandomWordsClient.length := Some length;
                    RandomWordsClient.words := Some wordsParam;
                    RandomWordsClient.type := Some RandomWordsClient.Lowercase;
                    RandomWordsClient.alphabetize := Some false;
                    RandomWordsClient.firstletter := None |} /\
         word x = JsString.trim (JsString.toLowerCase raw))
    (RandomWordsClient.fetchRandomGermanWords category length fetchWords desiredCount).
Proof.
  apply Forall_forall. intros x (raw & Hraw & Hword & Hlen & Hhint)%fetched_word.
  split; [rewrite Hword; apply normalized_lower|].
  split; [rewrite Hword; apply trim_idempotent|].
  split; [exact Hlen|]. split; [exact Hhint|]. split.
  - intros Hl. rewrite Hhint. apply buildHint_both; [now destruct category | exact Hl].
  - exists (Z.max 3 (Z.min desiredCount 12)), raw. split; [lia|]. now split.
Qed.

Lemma fold_addEntry_from (estimate : string -> HangmanDifficulty) (P : HangmanWord -> Prop)
    (entries : list HangmanWord) (st : WordEnricherRedis.progress) :
  Forall P entries ->
  (forall x, x ∈ WordEnricherRedis.allWords (WordEnricherRedis.byDifficulty st) -> P x) ->
  forall x,
    x ∈ WordEnricherRedis.allWords
          (WordEnricherRedis.byDifficulty
             (fold_left (WordEnricherRedis.addEntry estimate) entries st)) -> P x.
Proof.
  revert st. induction entries as [|entry entries IH]; intros st HP Hst; [exact Hst|].
  apply Forall_cons in HP as [Hentry HP]. cbn [fold_left]. apply IH; [exact HP|].
  intros x. unfold WordEnricherRedis.addEntry.
  destruct (WordEnricherRedis.exists_ _ _); [apply Hst|].
  cbn [WordEnricherRedis.byDifficulty].
  intros [Hx | ->]%elem_of_allWords_push; [now apply Hst | exact Hentry].
Qed.

(** X14.  The words the pool takes from the random-word service are
    normalized: an entry of a tier after [enrichWithRandomGermanWords] was
    in the tier before, or its word is in lower case, trimmed, at least
    three letters long and filed by its length, and its hint is not
    empty. *)
Theorem random_enrichment_adds_normalized_words
    (category : RandomWordsClient.Category) (length : Z)
    (fetchWords : RandomWordsClient.RandomWordsParams -> list string)
    (count : Z) (w : WordEnricherRedis.world) (d : HangmanDifficulty) :
  let fetch n :=
    Some (RandomWordsClient.fetchRandomGermanWords category length fetchWords n) in
  let p0 := WordEnricherRedis.enrichedWords (WordEnricherRedis.initialize w) in
  let outcome := WordEnricherRedis.enrichWithRandomGermanWords fetch count w in
  Forall
    (fun x =>
       x ∈ WordEnricherRedis.tier p0 d \/
       (JsString.toLowerCase (word x) = word x /\
        JsString.trim (word x) = word x /\
        (3 <= String.length (word x))%nat /\
        RandomWordsAPI.estimateDifficulty (word x) = d /\
        JsString.truthy (hint x) = true))
    (WordEnricherRedis.tier (WordEnricherRedis.enrichedWords outcome.2) d).
Proof.
  cbv zeta. unfold WordEnricherRedis.enrichWithRandomGermanWords, WordEnricherRedis.finish.
  cbn [snd]. rewrite enrichedWords_persist.
  cbn [WordEnricherRedis.setPools WordEnricherRedis.enrichedWords].
  set (fetched := RandomWordsClient.fetchRandomGermanWords category length fetchWords count).
  destruct (fold_addEntry_inv RandomWordsAPI.estimateDifficulty _ fetched _
              (start_inv (WordEnricherRedis.initialize w))) as (Hsplit & _).
  rewrite Hsplit. apply Forall_forall. intros x [Hx | Hx]%elem_of_app; [now left | right].
  assert (Hnone : forall y, y ∈ WordEnricherRedis.allWords WordEnricherRedis.noWords -> False)
    by (intros y Hy; inversion Hy).
  assert (Hfile : RandomWordsAPI.estimateDifficulty (word x) = d).
  { revert Hx. apply fold_addEntry_tier. intros d' y Hy. exfalso. apply (Hnone y).
    apply elem_of_allWords. eauto. }
  assert (Hall : x ∈ WordEnricherRedis.allWords
                       (WordEnricherRedis.byDifficulty
                          (fold_left (WordEnricherRedis.addEntry RandomWordsAPI.estimateDifficulty)
                             fetched (WordEnricherRedis.start (WordEnricherRedis.initialize w)))))
    by (apply elem_of_allWords; eauto).
  pose proof (fold_addEntry_from RandomWordsAPI.estimateDifficulty
                (fun y => JsString.toLowerCase (word y) = word y /\
                          JsString.trim (word y) = word y /\
                          (3 <= String.length (word y))%nat /\
                          JsString.truthy (hint y) = true) fetched
                (WordEnricherRedis.start (WordEnricherRedis.initialize w))) as Hfrom.
  destruct (Hfrom) with (x := x) as (H1 & H2 & H3 & H4).
  - apply Forall_forall. intros y (raw & Hraw & Hword & Hlen & Hhint)%fetched_word.
    split; [rewrite Hword; apply normalized_lower|].
    split; [rewrite Hword; apply trim_idempotent|].
    split; [exact Hlen|]. rewrite Hhint. apply buildHint_truthy. now destruct category.
  - intros y Hy. destruct (Hnone y Hy).
  - exact Hall.
  - repeat split; assumption.
Qed.

(** ** Synonyms *)

Lemma unique_elem (seen array : list string) (x : string) :
  x ∈ JsArray.unique seen array <-> x ∈ array /\ x ∉ seen.
Proof.
  revert seen. induction array as [|y array IH]; intros seen; cbn [JsArray.unique].
  - split; [intros H; inversion H | intros [H _]; inversion H].
  - destruct (bool_decide (y ∈ seen)) eqn:Hy.
    + apply bool_decide_eq_true in Hy. rewrite IH, elem_of_cons. split.
      * intros [H1 H2]. split; [now right | exact H2].
      * intros [[-> | H1] H2]; [contradiction | now split].
    + apply bool_decide_eq_false in Hy. rewrite !elem_of_cons, IH, not_elem_of_cons. split.
      * intros [-> | [H1 [H2 H3]]]; [split; [now left | exact Hy] | split; [now right | exact H3]].
      * intros [[-> | H1] H2]; [now left|].
        destruct (decide (x = y)) as [-> | Hne]; [now left | right; now repeat split].
Qed.

Lemma unique_NoDup (seen array : list string) : NoDup (JsArray.unique seen array).
Proof.
  revert seen. induction array as [|y array IH]; intros seen; cbn [JsArray.unique].
  - apply NoDup_nil_2.
  - destruct (bool_decide (y ∈ seen)); [apply IH|].
    apply NoDup_cons. split; [|apply IH].
    rewrite unique_elem, not_elem_of_cons. tauto.
Qed.

(** X15.  [getSynonyms] returns every term of the response that differs
    from the word in lower case, each once, and nothing else; it returns
    no term when the request fails.  So the hint made from the first synonym never names the word
    itself, in any letter case. *)
Theorem getSynonyms_excludes_the_word
    (searchWord : string -> Thesaurus.SearchOptions -> option Thesaurus.Response)
    (word : string) :
  let synonyms := Thesaurus.getSynonyms searchWord word in
  NoDup synonyms /\
  (forall term,
     term ∈ synonyms <->
     JsString.toLowerCase term <> JsString.toLowerCase word /\
     exists response synset,
       searchWord word Thesaurus.noOptions = Some response /\
       synset ∈ Thesaurus.synsets response /\ term ∈ Thesaurus.terms synset) /\
  (searchWord word Thesaurus.noOptions = None -> synonyms = []) /\
  (forall term,
     JsString.toLowerCase term = JsString.toLowerCase word ->
     Thesaurus.generateHint searchWord word <> "Similar to: " +:+ term).
Proof.
  cbv zeta.
  assert (Hiff : forall term,
     term ∈ Thesaurus.getSynonyms searchWord word <->
     JsString.toLowerCase term <> JsString.toLowerCase word /\
     exists response synset,
       searchWord word Thesaurus.noOptions = Some response /\
       synset ∈ Thesaurus.synsets response /\ term ∈ Thesaurus.terms synset).
  { intros term. unfold Thesaurus.getSynonyms.
    destruct (searchWord word Thesaurus.noOptions) as [response|].
    - rewrite unique_elem. split.
      + intros [Hin _]. apply list_elem_of_In, filter_In in Hin as [Hin Hne].
        apply in_concat in Hin as (l & Hl & Hterm).
        apply list_elem_of_In, list_elem_of_fmap in Hl as (synset & -> & Hsyn).
        apply list_elem_of_In in Hterm.
        apply negb_true_iff, String.eqb_neq in Hne. split; [exact Hne | eauto 6].
      + intros (Hne & response' & synset & [= <-] & Hsyn & Hterm).
        split; [|apply not_elem_of_nil].
        apply list_elem_of_In, filter_In. split.
        * apply in_concat. exists (Thesaurus.terms synset).
          split; apply list_elem_of_In; [now apply list_elem_of_fmap_2 | exact Hterm].
        * now apply negb_true_iff, String.eqb_neq.
    - split; [intros H; inversion H|]. intros (_ & response & synset & H & _). discriminate H. }
  split; [|split; [exact Hiff|split]].
  - unfold Thesaurus.getSynonyms. destruct (searchWord word Thesaurus.noOptions);
      [apply unique_NoDup | apply NoDup_nil_2].
  - intros Hfail. unfold Thesaurus.getSynonyms. now rewrite Hfail.
  - intros term Hsame. unfold Thesaurus.generateHint.
    destruct (Thesaurus.getSynonyms searchWord word) as [|synonym rest] eqn:Hsyn.
    + unfold WordEnricherRedis.defaultHint. discriminate.
    + intros Heq. apply String.app_inj in Heq. subst synonym.
      destruct (proj1 (Hiff term) (list_elem_of_here _ _)) as [Hne _]. contradiction.
Qed.

(** ** Content from Reddit *)

Lemma filter_none {X : Type} (f : X -> bool) (l : list X) :
  (forall x, x ∈ l -> f x = false) -> List.filter f l = [].
Proof.
  induction l as [|x l IH]; intros H; [reflexivity|]. cbn [List.filter].
  rewrite (H x) by apply list_elem_of_here. apply IH.
  intros y Hy. apply H. now apply list_elem_of_further.
Qed.

Lemma elem_of_filter_bool {X : Type} (f : X -> bool) (l : list X) (x : X) :
  x ∈ List.filter f l <-> x ∈ l /\ f x = true.
Proof. rewrite !list_elem_of_In. apply filter_In. Qed.

Lemma ids_items (wordBank : list WordMatch.slot) (existingIds : list string) :
  RedditContentManager.ids wordBank = Some existingIds ->
  exists items, wordBank = WordMatch.Item <$> items /\ existingIds = WordMatch.id <$> items.
Proof.
  revert existingIds. induction wordBank as [|s wordBank IH]; intros existingIds H.
  - injection H as <-. now exists [].
  - destruct s as [item| |]; try discriminate H. cbn [RedditContentManager.ids] in H.
    destruct (RedditContentManager.ids wordBank) as [l|]; [|discriminate H].
    injection H as <-. destruct (IH l eq_refl) as (items & -> & ->). now exists (item :: items).
Qed.

Lemma ids_of_items (items : list WordMatch.WordMatchItem) :
  RedditContentManager.ids (WordMatch.Item <$> items) = Some (WordMatch.id <$> items).
Proof.
  induction items as [|item items IH]; [reflexivity|].
  cbn [fmap list_fmap RedditContentManager.ids]. cbn [fmap list_fmap] in IH. now rewrite IH.
Qed.

Lemma jsonSlot_items (items : list WordMatch.WordMatchItem) :
  GameStorage.jsonSlot <$> (WordMatch.Item <$> items) = WordMatch.Item <$> items.
Proof. rewrite <- list_fmap_compose. reflexivity. Qed.

Lemma getWordBank_saveWordBank (lang : string) (items : list WordMatch.slot)
    (r : GameStorage.store) :
  GameStorage.getWordBank lang (GameStorage.saveWordBank lang items r)
  = Some (GameStorage.jsonSlot <$> items).
Proof.
  unfold GameStorage.getWordBank, GameStorage.saveWordBank, GameStorage.setDoc.
  cbn [GameStorage.docs]. now rewrite lookup_insert_eq.
Qed.

(** X16.  [refreshWordBank] returns false and leaves the store alone when
    nothing was fetched.  When it returns true, the bank is the old bank
    followed by the fetched items whose id no item of the old bank has:
    nothing is removed or moved, and no id of the bank is given twice.
    Refreshing again with the same content leaves the bank as it is, and
    no refresh touches a stored puzzle. *)
Theorem refreshWordBank_appends_new_ids
    (fetchRedditContent : string -> list WordMatch.WordMatchItem)
    (subredditName : option string) (r : GameStorage.store) :
  let fetched := fetchRedditContent (default "German" subredditName) in
  let wordBank := default [] (GameStorage.getWordBank "de" r) in
  let first := RedditContentManager.refreshWordBank fetchRedditContent subredditName r in
  let second :=
    RedditContentManager.refreshWordBank fetchRedditContent subredditName first.2 in
  (fetched = [] -> first = (false, r)) /\
  (first.1 = false -> first.2 = r) /\
  (first.1 = true ->
     exists newItems,
       GameStorage.getWordBank "de" first.2 = Some (wordBank ++ (WordMatch.Item <$> newItems)) /\
       (forall x, x ∈ newItems <->
                  x ∈ fetched /\
                  forall y, WordMatch.Item y ∈ wordBank -> WordMatch.id y <> WordMatch.id x) /\
       second.1 = true /\
       GameStorage.getWordBank "de" second.2 = GameStorage.getWordBank "de" first.2) /\
  (forall seed, GameStorage.getPuzzle seed first.2 = GameStorage.getPuzzle seed r).
Proof.
  cbv zeta. unfold RedditContentManager.refreshWordBank.
  change RedditContentManager.DEFAULT_SUBREDDIT with "German".
  set (fetched := fetchRedditContent (default "German" subredditName)).
  set (wordBank := default [] (GameStorage.getWordBank "de" r)).
  destruct (JsArray.length fetched =? 0) eqn:Hlen.
  { cbn [fst snd]. repeat split; try reflexivity; try discriminate. }
  assert (Hne : fetched <> []) by (intros H; apply length_zero in H; congruence).
  split; [intros H; contradiction|].
  destruct (RedditContentManager.ids wordBank) as [existingIds|] eqn:Hids.
  2:{ cbn [fst snd]. repeat split; try reflexivity; discriminate. }
  destruct (ids_items wordBank existingIds Hids) as (items & Hbank & Hexisting).
  cbn [fst snd]. split; [discriminate|]. split; [|intros seed; apply getPuzzle_saveWordBank].
  intros _.
  set (newItems := List.filter _ fetched).
  assert (Hstored : GameStorage.getWordBank "de"
                      (GameStorage.saveWordBank "de" (wordBank ++ (WordMatch.Item <$> newItems)) r)
                    = Some (wordBank ++ (WordMatch.Item <$> newItems))).
  { rewrite getWordBank_saveWordBank. f_equal. rewrite Hbank, <- fmap_app. apply jsonSlot_items. }
  assert (Hnew : forall x, x ∈ newItems <->
            x ∈ fetched /\
            forall y, WordMatch.Item y ∈ wordBank -> WordMatch.id y <> WordMatch.id x).
  { intros x. subst newItems. rewrite elem_of_filter_bool.
    rewrite negb_true_iff, bool_decide_eq_false, Hexisting, Hbank. split.
    - intros [Hx Hfresh]. split; [exact Hx|].
      intros y (y' & [= <-] & Hy)%list_elem_of_fmap Heq. apply Hfresh.
      rewrite <- Heq. now apply list_elem_of_fmap_2.
    - intros [Hx Hfresh]. split; [exact Hx|].
      intros (y & Heq & Hy)%list_elem_of_fmap. apply (Hfresh y); [|now symmetry].
      now apply list_elem_of_fmap_2. }
  exists newItems. split; [exact Hstored|]. split; [exact Hnew|].
  rewrite Hstored.
  change (default [] (Some (wordBank ++ (WordMatch.Item <$> newItems))))
    with (wordBank ++ (WordMatch.Item <$> newItems)).
  rewrite Hbank, <- fmap_app, ids_of_items.
  assert (Hnone : List.filter
                    (fun item => negb (bool_decide (WordMatch.id item
                                                    ∈ WordMatch.id <$> items ++ newItems)))
                    fetched = []).
  { apply filter_none. intros x Hx. apply negb_false_iff, bool_decide_eq_true.
    rewrite fmap_app, elem_of_app.
    destruct (decide (WordMatch.id x ∈ WordMatch.id <$> items)) as [Hold | Hold];
      [now left | right].
    apply list_elem_of_fmap_2. apply Hnew. split; [exact Hx|].
    intros y Hy Heq. apply Hold. rewrite <- Heq.
    rewrite Hbank in Hy. apply list_elem_of_fmap in Hy as (y' & [= <-] & Hy).
    now apply list_elem_of_fmap_2. }
  rewrite Hnone. cbn [fst snd fmap list_fmap]. rewrite app_nil_r.
  split; [reflexivity|]. rewrite getWordBank_saveWordBank, jsonSlot_items, fmap_app.
  now rewrite <- Hbank.
Qed.

(** X17.  [createRedditPuzzle] stores a puzzle only when at least eight
    items were fetched; otherwise it returns false and leaves the store
    alone.  The stored puzzle holds exactly the first eight fetched items
    under the seed [date:lang:reddit], and [getDailyPuzzle] of that seed
    then returns it instead of drawing from the bank. *)
Theorem createRedditPuzzle_needs_eight_items
    (fetchRedditContent : string -> list WordMatch.WordMatchItem)
    (iso : string) (lang : option string) (r : GameStorage.store) :
  let fetched := fetchRedditContent "German" in
  let seed := JsText.slice10 iso +:+ ":" +:+ default "de" lang +:+ ":reddit" in
  let outcome := RedditContentManager.createRedditPuzzle fetchRedditContent iso lang r in
  ((length fetched < 8)%nat -> outcome = (false, r)) /\
  ((8 <= length fetched)%nat ->
     outcome.1 = true /\
     exists puzzle,
       GameStorage.getPuzzle seed outcome.2 = Some puzzle /\
       WordMatchDaily.items puzzle = WordMatch.Item <$> take 8 fetched /\
       length (WordMatchDaily.items puzzle) = 8%nat /\
       WordMatchDaily.id puzzle = seed /\
       WordMatchDaily.date puzzle = JsText.slice10 iso /\
       ContentManager.getDailyPuzzle seed outcome.2 = (Ok puzzle, outcome.2)).
Proof.
  cbv zeta. unfold RedditContentManager.createRedditPuzzle.
  change RedditContentManager.DEFAULT_SUBREDDIT with "German".
  set (fetched := fetchRedditContent "German").
  set (seed := JsText.slice10 iso +:+ ":" +:+ default "de" lang +:+ ":reddit").
  unfold JsArray.length. split; intros Hlen.
  - destruct (Z.ltb_spec (Z.of_nat (length fetched)) 8); [reflexivity | lia].
  - destruct (Z.ltb_spec (Z.of_nat (length fetched)) 8); [lia|]. cbn [fst snd].
    split; [reflexivity|].
    set (puzzle := {| WordMatchDaily.id := seed |}).
    assert (Hjson : GameStorage.jsonPuzzle puzzle = puzzle).
    { unfold GameStorage.jsonPuzzle, puzzle. cbn. now rewrite jsonSlot_items. }
    assert (Hget : GameStorage.getPuzzle seed (GameStorage.savePuzzle puzzle r) = Some puzzle).
    { rewrite <- Hjson at 2. apply (getPuzzle_savePuzzle puzzle). }
    exists puzzle. split; [exact Hget|]. split; [reflexivity|]. split.
    + unfold puzzle. cbn [WordMatchDaily.items]. unfold JsArray.slice0. cbn.
      rewrite length_fmap, length_take. lia.
    + split; [reflexivity|]. split; [reflexivity|]. now apply getDailyPuzzle_hit.
Qed.

(** ** The hangman board *)

Lemma guessed_elem (guesses : list Hangman.HangmanGuess) (letter : string) :
  HangmanBoard.guessed guesses letter = true <-> letter ∈ Hangman.letter <$> guesses.
Proof.
  unfold HangmanBoard.guessed. rewrite existsb_exists, list_elem_of_fmap. split.
  - intros (g & Hg%list_elem_of_In & Heq%String.eqb_eq). eauto.
  - intros (g & -> & Hg). exists g. split; [now apply list_elem_of_In | apply String.eqb_refl].
Qed.

Lemma incorrectGuesses_snoc (guesses : list Hangman.HangmanGuess) (g : Hangman.HangmanGuess) :
  Hangman.incorrectGuesses (guesses ++ [g])
  = Hangman.incorrectGuesses guesses + if Hangman.correct g then 0 else 1.
Proof.
  unfold Hangman.incorrectGuesses. rewrite List.filter_app, length_app. cbn.
  destruct (Hangman.correct g); cbn; lia.
Qed.

Lemma incorrectGuesses_nonnegative (guesses : list Hangman.HangmanGuess) :
  0 <= Hangman.incorrectGuesses guesses.
Proof. unfold Hangman.incorrectGuesses. lia. Qed.

Lemma handle_step (game : HangmanGame.t) (ev : HangmanBoard.event) (st : HangmanBoard.state) :
  board_inv game st ->
  let out := HangmanBoard.handle game ev st in
  board_inv game out.1 /\
  (HangmanBoard.gameOver st = true -> out = (st, None)) /\
  (forall c, out.2 = Some c -> reports game out.1 c) /\
  (out.2 = None -> HangmanBoard.gameOver out.1 = HangmanBoard.gameOver st) /\
  (HangmanBoard.guesses out.1 = HangmanBoard.guesses st \/
   exists letter timestamp endTime,
     ev = HangmanBoard.LetterSelect letter timestamp endTime /\
     HangmanBoard.guesses out.1 = HangmanBoard.guesses st ++ [guessOf game letter timestamp]).
Proof.
  intros (Hcons & Hopen & Hwon). cbv zeta.
  assert (Hsame : forall st', st' = st ->
            board_inv game st' /\
            (HangmanBoard.gameOver st = true -> (st', @None HangmanCompletion.t) = (st, None)) /\
            (forall c, @None HangmanCompletion.t = Some c -> reports game st' c) /\
            (@None HangmanCompletion.t = None ->
             HangmanBoard.gameOver st' = HangmanBoard.gameOver st) /\
            (HangmanBoard.guesses st' = HangmanBoard.guesses st \/
             exists letter timestamp endTime,
               ev = HangmanBoard.LetterSelect letter timestamp endTime /\
               HangmanBoard.guesses st'
               = HangmanBoard.guesses st ++ [guessOf game letter timestamp])).
  { intros st' ->. split; [exact (conj Hcons (conj Hopen Hwon))|].
    split; [reflexivity|]. split; [discriminate|].
    split; [reflexivity | now left]. }
  destruct ev as [letter timestamp endTime | endTime]; cbn [HangmanBoard.handle].
  - unfold HangmanBoard.handleLetterSelect.
    destruct (HangmanBoard.gameOver st) eqn:Hover; [now apply Hsame|].
    destruct (HangmanBoard.guessed (HangmanBoard.guesses st) (JsString.toLowerCase letter))
      eqn:Hguessed; [now apply Hsame|].
    fold (guessOf game letter timestamp).
    set (g := guessOf game letter timestamp).
    set (updatedGuesses := HangmanBoard.guesses st ++ [g]).
    assert (Hmiss := incorrectGuesses_snoc (HangmanBoard.guesses st) g).
    fold updatedGuesses in Hmiss.
    pose proof (incorrectGuesses_nonnegative (HangmanBoard.guesses st)) as Hnn.
    destruct (Hopen eq_refl) as [Hleft Hquiet].
    assert (Hcons' : consistent game updatedGuesses).
    { destruct Hcons as [Hd Hf Hb]. split.
      - subst updatedGuesses. rewrite fmap_app. apply NoDup_app. split; [exact Hd|].
        split; [|apply NoDup_singleton].
        intros l Hl Hg. cbn in Hg. apply list_elem_of_singleton in Hg. subst l.
        apply guessed_elem in Hl. cbn [g guessOf Hangman.letter] in Hl. congruence.
      - intros g' [Hg' | ->%list_elem_of_singleton]%elem_of_app; [now apply Hf | reflexivity].
      - rewrite Hmiss. destruct Hleft as [H0 | Hlt]; destruct (Hangman.correct g); lia. }
    assert (Hgrown : exists letter0 timestamp0 endTime0,
              HangmanBoard.LetterSelect letter timestamp endTime
              = HangmanBoard.LetterSelect letter0 timestamp0 endTime0 /\
              updatedGuesses = HangmanBoard.guesses st ++ [guessOf game letter0 timestamp0])
      by (now exists letter, timestamp, endTime).
    destruct (forallb _ _ || (HangmanGame.maxAttempts game <=? _)) eqn:Hend.
    + cbn [HangmanBoard.endGame fst snd HangmanBoard.guesses HangmanBoard.gameOver].
      split; [split; [exact Hcons' | split; [discriminate | intros H; exact H]]|].
      split; [discriminate|]. split; [|split; [discriminate | now right]].
      intros c [= <-]. unfold reports.
      cbn [HangmanBoard.gameOver HangmanBoard.guesses HangmanCompletion.guesses
           HangmanCompletion.word HangmanCompletion.success].
      split; [reflexivity|]. split; [reflexivity|]. split; [reflexivity | tauto].
    + cbn [fst snd HangmanBoard.guesses HangmanBoard.gameOver].
      apply orb_false_iff in Hend as [_ Hless%Z.leb_gt].
      split; [split; [exact Hcons' | split]|].
      * intros _. split; [now right | exact Hquiet].
      * cbn [HangmanBoard.success]. congruence.
      * split; [discriminate|]. split; [discriminate|]. split; [reflexivity | now right].
  - unfold HangmanBoard.handleTimerComplete.
    destruct (HangmanBoard.gameOver st) eqn:Hover; cbn [negb]; [now apply Hsame|].
    cbn [HangmanBoard.endGame fst snd HangmanBoard.guesses HangmanBoard.gameOver].
    split; [split; [exact Hcons | split; discriminate]|].
    split; [discriminate|]. split; [|split; [discriminate | now left]].
    intros c [= <-]. unfold reports.
    cbn [HangmanBoard.gameOver HangmanBoard.guesses HangmanCompletion.guesses
         HangmanCompletion.word HangmanCompletion.success].
    split; [reflexivity|]. split; [reflexivity|]. split; [reflexivity | discriminate].
Qed.

Lemma play_inv (game : HangmanGame.t) (events : list HangmanBoard.event)
    (st : HangmanBoard.state) :
  board_inv game st ->
  let out := HangmanBoard.play game events st in
  board_inv game out.1 /\
  (HangmanBoard.gameOver st = true -> out = (st, [])) /\
  (length out.2 <= 1)%nat /\
  (forall c, c ∈ out.2 -> reports game out.1 c) /\
  (forall g, g ∈ HangmanBoard.guesses out.1 ->
     g ∈ HangmanBoard.guesses st \/
     exists letter timestamp endTime,
       HangmanBoard.LetterSelect letter timestamp endTime ∈ events /\
       g = guessOf game letter timestamp).
Proof.
  cbv zeta. revert st. induction events as [|ev events IH]; intros st Hinv.
  - cbn [HangmanBoard.play fst snd length]. split; [exact Hinv|]. split; [reflexivity|].
    split; [lia|]. split; [intros c Hc; inversion Hc | intros g Hg; now left].
  - cbn [HangmanBoard.play].
    destruct (handle_step game ev st Hinv) as (Hinv1 & Hover1 & Hrep1 & Hnone1 & Hgrow1).
    cbv zeta in Hinv1, Hover1, Hrep1, Hnone1, Hgrow1.
    destruct (HangmanBoard.handle game ev st) as [st1 completion]. cbn [fst snd] in *.
    destruct (IH st1 Hinv1) as (Hinv2 & Hover2 & Hlen2 & Hrep2 & Hgrow2).
    destruct (HangmanBoard.play game events st1) as [st2 completions] eqn:Hplay.
    cbn [fst snd] in *.
    split; [exact Hinv2|]. split; [|split; [|split]].
    + intros Hover. specialize (Hover1 Hover). injection Hover1 as -> ->.
      specialize (Hover2 Hover). injection Hover2 as -> ->. reflexivity.
    + destruct completion as [c|]; cbn [option_list app length]; [|exact Hlen2].
      destruct (Hrep1 c eq_refl) as (Hover & _).
      specialize (Hover2 Hover). injection Hover2 as -> ->. cbn. lia.
    + intros c. destruct completion as [c1|]; cbn [option_list app]; [|apply Hrep2].
      destruct (Hrep1 c1 eq_refl) as (Hover & Hrest).
      specialize (Hover2 Hover). injection Hover2 as -> ->.
      intros ->%list_elem_of_singleton. now split.
    + intros g Hg. destruct (Hgrow2 g Hg) as [Hg1 | (l & ts & et & Hev & ->)].
      * destruct Hgrow1 as [Heq | (l & ts & et & -> & Heq)]; rewrite Heq in Hg1.
        -- now left.
        -- apply elem_of_app in Hg1 as [Hg1 | ->%list_elem_of_singleton]; [now left | right].
           exists l, ts, et. split; [apply list_elem_of_here | reflexivity].
      * right. exists l, ts, et. split; [now apply list_elem_of_further | reflexivity].
Qed.

Lemma initial_inv (game : HangmanGame.t) (startTime : Z) :
  board_inv game (HangmanBoard.initial startTime).
Proof.
  split; [split|split]; cbn.
  - apply NoDup_nil_2.
  - intros g Hg. inversion Hg.
  - unfold Hangman.incorrectGuesses. cbn. lia.
  - intros _. split; [now left | reflexivity].
  - discriminate.
Qed.

Lemma uniqueLetters_guessed (game : HangmanGame.t) (guesses : list Hangman.HangmanGuess) :
  forallb (HangmanBoard.guessed guesses) (HangmanBoard.uniqueLetters game) = true <->
  forall a, a ∈ JsString.split_chars (JsString.toLowerCase (HangmanGame.word game)) ->
            JsText.unit a ∈ Hangman.letter <$> guesses.
Proof.
  rewrite forallb_forall. unfold HangmanBoard.uniqueLetters, JsText.split. split.
  - intros H a Ha. apply guessed_elem, H, list_elem_of_In, unique_elem.
    split; [now apply list_elem_of_fmap_2 | apply not_elem_of_nil].
  - intros H l Hl. apply list_elem_of_In, unique_elem in Hl as [(a & -> & Ha)%list_elem_of_fmap _].
    now apply guessed_elem, H.
Qed.

(** X18.  Whatever is selected and whenever the timer runs out, the board
    calls [onComplete] at most once.  What it reports is the word of the
    game with guesses of distinct letters, each flagged correct exactly
    when the lower-cased word contains it, with at most [maxAttempts]
    misses (one when [maxAttempts] is less); and it reports a success only
    when every letter of the lower-cased word is among the guesses. *)
Theorem board_reports_once
    (game : HangmanGame.t) (events : list HangmanBoard.event) (startTime : Z) :
  let out := HangmanBoard.play game events (HangmanBoard.initial startTime) in
  (length out.2 <= 1)%nat /\
  Forall
    (fun c =>
       HangmanBoard.gameOver out.1 = true /\
       HangmanCompletion.word c = HangmanGame.word game /\
       consistent game (HangmanCompletion.guesses c) /\
       (HangmanCompletion.success c = true ->
        forall a, a ∈ JsString.split_chars (JsString.toLowerCase (HangmanGame.word game)) ->
                  JsText.unit a ∈ Hangman.letter <$> HangmanCompletion.guesses c))
    out.2.
Proof.
  cbv zeta.
  destruct (play_inv game events _ (initial_inv game startTime))
    as ([Hcons _] & _ & Hlen & Hrep & _).
  split; [exact Hlen|]. apply Forall_forall. intros c Hc.
  destruct (Hrep c Hc) as (Hover & Hg & Hw & Hs).
  split; [exact Hover|]. split; [exact Hw|]. rewrite Hg. split; [exact Hcons|].
  intros Hsuccess. now apply uniqueLetters_guessed, Hs.
Qed.

(** *** Games played on the keyboard *)

Lemma alphabet_letters :
  Forall (fun l => JsString.toLowerCase l = l /\ l = JsText.unit (headUnit l))
         HangmanBoard.alphabet.
Proof. apply (@bool_decide_unpack _ (Forall_dec _ _)). vm_compute. exact I. Qed.

Lemma includes_unit (s : string) (a : ascii) :
  JsText.includes s (JsText.unit a) = true <-> a ∈ JsString.split_chars s.
Proof.
  induction s as [|b s IH].
  - cbn. split; [discriminate | intros H; inversion H].
  - cbn [JsText.includes JsText.startsWith JsText.unit]. cbn [JsText.unit] in IH.
    change (JsString.split_chars (String b s)) with (b :: JsString.split_chars s).
    rewrite andb_true_r, orb_true_iff, IH, elem_of_cons.
    destruct (Ascii.eqb_spec a b); split; intros [H | H]; try tauto; try discriminate H;
      try congruence.
Qed.

Lemma filter_sublist {X : Type} (f : X -> bool) (l : list X) : List.filter f l `sublist_of` l.
Proof.
  induction l as [|x l IH]; cbn [List.filter]; [constructor|].
  destruct (f x); [now apply sublist_skip | now apply sublist_cons].
Qed.

(** The guesses of a game played on the keyboard. *)
Lemma keyboard_guesses (game : HangmanGame.t) (events : list HangmanBoard.event)
    (startTime : Z) (g : Hangman.HangmanGuess) :
  onKeyboard events ->
  g ∈ HangmanBoard.guesses (HangmanBoard.play game events (HangmanBoard.initial startTime)).1 ->
  Hangman.letter g ∈ HangmanBoard.alphabet /\
  Hangman.letter g = JsText.unit (headUnit (Hangman.letter g)).
Proof.
  intros Hkeys Hg.
  destruct (play_inv game events _ (initial_inv game startTime)) as (_ & _ & _ & _ & Hfrom).
  destruct (Hfrom g Hg) as [Hnone | (l & ts & et & Hev & ->)]; [inversion Hnone|].
  pose proof (proj1 (Forall_forall _ _) Hkeys _ Hev) as Hl. cbn in Hl.
  destruct (proj1 (Forall_forall _ _) alphabet_letters l Hl) as [Hlow Hunit].
  cbn [guessOf Hangman.letter]. rewrite Hlow. now split.
Qed.

(** The letters that were guessed right are distinct letters of the
    word. *)
Lemma correct_letters (game : HangmanGame.t) (guesses : list Hangman.HangmanGuess) :
  consistent game guesses ->
  (forall g, g ∈ guesses -> Hangman.letter g = JsText.unit (headUnit (Hangman.letter g))) ->
  let chars :=
    headUnit <$> (Hangman.letter <$> List.filter (fun g => Hangman.correct g) guesses) in
  NoDup chars /\
  Hangman.correctGuesses guesses = Z.of_nat (length chars) /\
  (forall a, a ∈ chars <->
             a ∈ JsString.split_chars (JsString.toLowerCase (HangmanGame.word game)) /\
             JsText.unit a ∈ Hangman.letter <$> guesses).
Proof.
  intros [Hd Hf _] Hunit. cbv zeta.
  set (right := List.filter (fun g => Hangman.correct g) guesses).
  assert (Hright : forall g, g ∈ right <-> g ∈ guesses /\ Hangman.correct g = true)
    by (intros g; apply elem_of_filter_bool).
  split; [|split].
  - apply NoDup_fmap_2_strong.
    + intros l1 l2 (g1 & -> & Hg1%Hright)%list_elem_of_fmap
                   (g2 & -> & Hg2%Hright)%list_elem_of_fmap Heq.
      rewrite (Hunit g1), (Hunit g2) by tauto. now rewrite Heq.
    + apply (sublist_NoDup _ (Hangman.letter <$> guesses)); [exact Hd|].
      apply fmap_sublist, filter_sublist.
  - unfold Hangman.correctGuesses. now rewrite !length_fmap.
  - intros a. split.
    + intros (l & -> & (g & -> & [Hg Hc]%Hright)%list_elem_of_fmap)%list_elem_of_fmap.
      rewrite (Hf g Hg), (Hunit g Hg) in Hc. apply includes_unit in Hc.
      split; [exact Hc|]. rewrite <- (Hunit g Hg). now apply list_elem_of_fmap_2.
    + intros [Ha (g & Heq & Hg)%list_elem_of_fmap].
      apply list_elem_of_fmap. exists (Hangman.letter g). split; [now rewrite <- Heq|].
      apply list_elem_of_fmap_2, Hright. split; [exact Hg|].
      rewrite (Hf g Hg), <- Heq. now apply includes_unit.
Qed.

(** X19.  In a game played on the keyboard, the guesses flagged correct
    are never more than the distinct letters of the word; and when the
    board reports a success they are exactly as many, so the server gives
    such a win the full efficiency bonus of 50. *)
Theorem keyboard_win_is_efficient
    (game : HangmanGame.t) (events : list HangmanBoard.event) (startTime : Z) :
  onKeyboard events ->
  Forall
    (fun c =>
       let word := HangmanCompletion.word c in
       let guesses := HangmanCompletion.guesses c in
       Hangman.correctGuesses guesses <= Hangman.uniqueLettersInWord word /\
       (HangmanCompletion.success c = true ->
        Hangman.correctGuesses guesses = Hangman.uniqueLettersInWord word /\
        Hangman.efficiencyBonus word guesses = 50 /\
        Hangman.score (Hangman.calculateScore word guesses true (HangmanCompletion.timeMs c))
        = Num (100 + (6 - Hangman.incorrectGuesses guesses) * 15
               + Hangman.timeBonus (HangmanCompletion.timeMs c) + 50)))
    (HangmanBoard.play game events (HangmanBoard.initial startTime)).2.
Proof.
  intros Hkeys. apply Forall_forall. intros c Hc. cbv zeta.
  destruct (play_inv game events _ (initial_inv game startTime))
    as ([Hcons _] & _ & _ & Hrep & _).
  destruct (Hrep c Hc) as (_ & Hg & Hw & Hs). rewrite Hg, Hw.
  set (guesses := HangmanBoard.guesses _) in *.
  destruct (correct_letters game guesses Hcons) as (Hnd & Hcount & Hchars).
  { intros g Hg'. now apply (keyboard_guesses game events startTime g Hkeys). }
  cbv zeta in Hnd, Hcount, Hchars.
  set (chars := headUnit <$> _) in *.
  unfold Hangman.uniqueLettersInWord.
  set (letters := list_to_set _ : gset ascii).
  assert (Hsub : (list_to_set chars : gset ascii) ⊆ letters).
  { intros a Ha%elem_of_list_to_set. apply elem_of_list_to_set. now apply Hchars. }
  assert (Hsize : size (list_to_set chars : gset ascii) = length chars)
    by now apply size_list_to_set.
  assert (Hle : Hangman.correctGuesses guesses <= Z.of_nat (size letters)).
  { rewrite Hcount, <- Hsize. apply Nat2Z.inj_le. now apply subseteq_size. }
  split; [exact Hle|]. intros Hsuccess.
  assert (Heq : Hangman.correctGuesses guesses = Z.of_nat (size letters)).
  { rewrite Hcount, <- Hsize. f_equal. f_equal. apply set_eq. intros a.
    split; [apply Hsub|]. intros Ha%elem_of_list_to_set. apply elem_of_list_to_set, Hchars.
    split; [exact Ha|]. now apply (proj1 (uniqueLetters_guessed game guesses) (Hs Hsuccess)). }
  split; [exact Heq|].
  assert (Hbonus : Hangman.efficiencyBonus (HangmanGame.word game) guesses = 50).
  { unfold Hangman.efficiencyBonus, Hangman.uniqueLettersInWord. fold letters. rewrite Heq.
    now rewrite Z.leb_refl. }
  split; [exact Hbonus|].
  assert (Hlen : Z.of_nat (length guesses) < 4294967296).
  { assert (Hkeyboard : Hangman.letter <$> guesses ⊆+ HangmanBoard.alphabet).
    { apply NoDup_submseteq; [exact (distinct_letters _ _ Hcons)|].
      intros l (g & -> & Hg')%list_elem_of_fmap.
      now apply (keyboard_guesses game events startTime g Hkeys). }
    apply submseteq_length in Hkeyboard. rewrite length_fmap in Hkeyboard.
    assert (length HangmanBoard.alphabet < 100)%nat by (vm_compute; lia). lia. }
  rewrite calculateScore_won by exact Hlen. now rewrite Hbonus.
Qed.

(** X20.  A word that has a character the keyboard does not have cannot be
    won: no game played on the keyboard reports a success for it. *)
Theorem word_off_keyboard_is_never_won
    (game : HangmanGame.t) (events : list HangmanBoard.event) (startTime : Z) (a : ascii) :
  onKeyboard events ->
  a ∈ JsString.split_chars (JsString.toLowerCase (HangmanGame.word game)) ->
  JsText.unit a ∉ HangmanBoard.alphabet ->
  Forall (fun c => HangmanCompletion.success c = false)
         (HangmanBoard.play game events (HangmanBoard.initial startTime)).2.
Proof.
  intros Hkeys Ha Hoff. apply Forall_forall. intros c Hc.
  destruct (play_inv game events _ (initial_inv game startTime)) as (_ & _ & _ & Hrep & _).
  destruct (Hrep c Hc) as (_ & Hg & _ & Hs).
  destruct (HangmanCompletion.success c); [exfalso | reflexivity].
  pose proof (proj1 (uniqueLetters_guessed game _) (Hs eq_refl) a Ha) as Hin.
  apply list_elem_of_fmap in Hin as (g & Heq & Hin).
  destruct (keyboard_guesses game events startTime g Hkeys Hin) as [Halpha _].
  apply Hoff. now rewrite Heq.
Qed.

(** X21.  What the board shows: with at least one attempt allowed, the
    attempts left are never negative and never more than allowed; and the
    board shows a success only when the game is over, with every letter
    guessed and every position of the word revealed. *)
Theorem board_shows_what_happened
    (game : HangmanGame.t) (events : list HangmanBoard.event) (startTime : Z) :
  let st := (HangmanBoard.play game events (HangmanBoard.initial startTime)).1 in
  (1 <= HangmanGame.maxAttempts game ->
   0 <= HangmanBoard.remainingAttempts game st <= HangmanGame.maxAttempts game) /\
  (HangmanBoard.success st = true ->
   HangmanBoard.gameOver st = true /\
   HangmanBoard.allLettersGuessed game st = true /\
   None ∉ HangmanBoard.revealedLetters game st).
Proof.
  cbv zeta.
  destruct (play_inv game events _ (initial_inv game startTime))
    as (([_ _ Hb] & Hopen & Hwon) & _).
  set (st := (HangmanBoard.play game events (HangmanBoard.initial startTime)).1) in *.
  split.
  - intros Hmax. unfold HangmanBoard.remainingAttempts.
    pose proof (incorrectGuesses_nonnegative (HangmanBoard.guesses st)). lia.
  - intros Hsuccess. split; [|split; [now apply Hwon|]].
    + destruct (HangmanBoard.gameOver st); [reflexivity|].
      destruct (Hopen eq_refl) as [_ Hquiet]. congruence.
    + unfold HangmanBoard.revealedLetters, JsText.split.
      intros (l & Hl & (a & -> & Ha)%list_elem_of_fmap)%list_elem_of_fmap.
      pose proof (proj1 (uniqueLetters_guessed game _) (Hwon Hsuccess) a Ha) as Hin.
      apply guessed_elem in Hin. rewrite Hin in Hl. discriminate Hl.
Qed.

(** ** The numbers of the shuffle *)

Lemma toInt32_range (z : Z) : - 2147483648 <= Seed.toInt32 z < 2147483648.
Proof.
  unfold Seed.toInt32.
  change (2 ^ 31) with 2147483648. change (2 ^ 32) with 4294967296.
  pose proof (Z.mod_pos_bound (z + 2147483648) 4294967296 ltac:(lia)). lia.
Qed.

Lemma hashStep_range (hash : Z) (char : ascii) :
  - 2147483648 <= Seed.hashStep hash char < 2147483648.
Proof. unfold Seed.hashStep, Seed.and. rewrite Z.land_diag. apply toInt32_range. Qed.

(** X22.  The numbers of the shuffle stay where JavaScript's arithmetic is
    exact: the hash of a seed is a signed 32-bit integer (from -2^31 to
    2^31 - 1), the product and sum that make the next hash stay below 2^53
    in size, every later hash lies strictly between -233280 and 233280,
    and a hash that is not negative is followed by one that is not
    negative. *)
Theorem shuffle_hash_stays_exact (seed : string) (hash : Z) :
  - 2147483648 <= Seed.hashSeed seed < 2147483648 /\
  (- 2147483648 <= hash < 2147483648 ->
   - 9007199254740992 < hash * 9301 + 49297 < 9007199254740992 /\
   - 233280 < Seed.nextHash hash < 233280 /\
   (0 <= hash -> 0 <= Seed.nextHash hash)).
Proof.
  split.
  - unfold Seed.hashSeed.
    assert (H : forall l h, - 2147483648 <= h < 2147483648 ->
              - 2147483648 <= fold_left Seed.hashStep l h < 2147483648).
    { induction l as [|a l IH]; intros h Hh; [exact Hh|].
      cbn [fold_left]. apply IH. apply hashStep_range. }
    apply H. lia.
  - intros Hh. unfold Seed.nextHash.
    pose proof (Z.rem_bound_abs (hash * 9301 + 49297) 233280 ltac:(lia)) as Habs.
    split; [lia|]. split; [lia|].
    intros Hpos. apply Z.rem_nonneg; lia.
Qed.


(** ** The stored results *)

Lemma played_key_inj (userId seed userId' seed' : string) :
  ":"%char ∉ JsString.split_chars userId ->
  ":"%char ∉ JsString.split_chars userId' ->
  playedKey userId seed = playedKey userId' seed' -> userId = userId' /\ seed = seed'.
Proof.
  intros Hu Hu' Heq. unfold playedKey in Heq. apply String.app_inj in Heq.
  assert (Hsame : userId = userId').
  { apply (f_equal (JsString.split_head ":")) in Heq.
    change (":played:" +:+ seed) with (String ":" ("played:" +:+ seed)) in Heq.
    change (":played:" +:+ seed') with (String ":" ("played:" +:+ seed')) in Heq.
    rewrite !split_head_colon in Heq by assumption. now injection Heq. }
  split; [exact Hsame|]. subst userId'.
  apply String.app_inj in Heq. now apply String.app_inj in Heq.
Qed.

Lemma totalTime_nonneg (answers : list GameAnswer) :
  Forall (fun a => 0 <= ms a) answers -> 0 <= totalTime answers.
Proof.
  unfold totalTime. induction 1 as [|a answers Ha _ IH]; cbn; lia.
Qed.

(** A sum of times that stays within 2^53 is the exact sum. *)
Lemma calculateTotalTime_sum (answers : list GameAnswer) :
  Forall (fun a => 0 <= ms a) answers ->
  totalTime answers <= 9007199254740992 ->
  Scoring.calculateTotalTime answers = Num (totalTime answers).
Proof.
  unfold Scoring.calculateTotalTime. intros Hms Hsum.
  assert (H : forall start,
            0 <= start -> start + totalTime answers <= 9007199254740992 ->
            fold_left (fun total answer => JsNumber.add total (JsNumber.ofZ (ms answer)))
              answers (Num start)
            = Num (start + totalTime answers)).
  { clear Hsum. induction Hms as [|a answers Ha Hms IH]; intros start Hstart Hsum.
    - cbn. f_equal. lia.
    - pose proof (totalTime_nonneg answers Hms) as Hrest.
      change (totalTime (a :: answers)) with (ms a + totalTime answers) in *.
      cbn [fold_left]. rewrite ofZ_exact, add_exact by lia.
      rewrite IH by lia. f_equal. lia. }
  now rewrite H by lia.
Qed.

Lemma docs_updateUserState (userId : string) (state : UserState) (r : GameStorage.store) :
  GameStorage.docs (GameStorage.updateUserState userId state r) = GameStorage.docs r.
Proof.
  unfold GameStorage.updateUserState.
  destruct (lastPlayed state) as [x|]; [destruct (JsString.truthy x)|]; reflexivity.
Qed.

(** The result that is read back after a submission does not depend on
    the store it was submitted to. *)
Lemma getUserResult_submitResult (result : UserResult.t) (r : GameStorage.store) :
  ResultStorage.getUserResult (UserResult.userId result) (UserResult.seed result)
    (Server.submitResult result r).2
  = Some (GameStorage.jsonResult
            {| UserResult.userId := UserResult.userId result;
               UserResult.seed := UserResult.seed result;
               UserResult.score := Scoring.score (Scoring.computeScore (UserResult.answers result));
               UserResult.timeMs := Scoring.calculateTotalTime (UserResult.answers result);
               UserResult.answers := UserResult.answers result |}).
Proof.
  unfold ResultStorage.getUserResult, Server.submitResult, GameStorage.saveUserResult,
    GameStorage.setDoc.
  cbn [snd GameStorage.docs UserResult.userId UserResult.seed].
  now rewrite lookup_insert_eq.
Qed.

(** X23.  The server keeps one result for every user and seed, scored by
    itself: after a submission the stored result of the user and the seed
    has the submitted answers, the number of answers marked correct as its
    score and, when no time is negative and the times add up to at most
    2^53 milliseconds, the sum of their times as its time, whatever score
    and time were sent; and the stored result of any other user or seed
    is left as it was, for users whose names have no colon. *)
Theorem result_kept_per_user_and_seed
    (result : UserResult.t) (userId seed : string) (r : GameStorage.store) :
  ":"%char ∉ JsString.split_chars (UserResult.userId result) ->
  ":"%char ∉ JsString.split_chars userId ->
  (userId, seed) <> (UserResult.userId result, UserResult.seed result) ->
  Forall (fun a => 0 <= ms a) (UserResult.answers result) ->
  totalTime (UserResult.answers result) <= 9007199254740992 ->
  ResultStorage.getUserResult (UserResult.userId result) (UserResult.seed result)
    (Server.submitResult result r).2
  = Some (scored result) /\
  ResultStorage.getUserResult userId seed (Server.submitResult result r).2
  = ResultStorage.getUserResult userId seed r.
Proof.
  intros Hu Hu' Hne Hms Hsum. split.
  - rewrite getUserResult_submitResult. unfold GameStorage.jsonResult, scored.
    cbn [UserResult.userId UserResult.seed UserResult.score UserResult.timeMs
         UserResult.answers].
    now rewrite calculateTotalTime_sum.
  - unfold ResultStorage.getUserResult, Server.submitResult, GameStorage.saveUserResult,
      GameStorage.setDoc.
    cbn [snd GameStorage.docs UserResult.userId UserResult.seed].
    rewrite lookup_insert_ne; [now rewrite docs_updateUserState|].
    intros Heq. apply Hne.
    destruct (played_key_inj _ _ _ _ Hu Hu' Heq) as [-> ->]. reflexivity.
Qed.

(** ** A result that is submitted again *)

Lemma newStreak_submitResult (result : UserResult.t) (r : GameStorage.store) :
  let before := GameStorage.getUserState (UserResult.userId result) r in
  let outcome := Server.submitResult result r in
  let after := GameStorage.getUserState (UserResult.userId result) outcome.2 in
  safeCounter (streak before) ->
  safeNumber (maxStreak before) ->
  SubmitResultResponse.newStreak outcome.1
  = (if passes (UserResult.answers result)
     then JsNumber.add (streak before) (Num 1) else Num 0) /\
  streak after = SubmitResultResponse.newStreak outcome.1 /\
  safeNumber (maxStreak after).
Proof.
  cbv zeta. intros Hstreak Hmaximum.
  unfold Server.submitResult. cbn [fst snd SubmitResultResponse.newStreak].
  set (before := GameStorage.getUserState (UserResult.userId result) r) in *.
  set (update := Scoring.updateStreak _ _ _).
  assert (Hnew : Scoring.newStreak update
                 = if passes (UserResult.answers result)
                   then JsNumber.add (streak before) (Num 1) else Num 0).
  { subst update. unfold passes.
    change (Z.of_nat (length (List.filter (fun a => correct a) (UserResult.answers result))))
      with (Scoring.score (Scoring.computeScore (UserResult.answers result))).
    rewrite <- passed_iff with (currentStreak := streak before). reflexivity. }
  split; [exact Hnew|].
  assert (Hfin : safeNumber (Scoring.newStreak update)).
  { rewrite Hnew. destruct (passes _); [now apply add_one_safe | cbn; lia]. }
  assert (Hmax : safeNumber (JsNumber.max (maxStreak before) (Scoring.newStreak update)))
    by now apply max_safe.
  rewrite getUserState_saveUserResult, getUserState_updateUserState by assumption.
  split; [reflexivity | exact Hmax].
Qed.

(** X24.  The server does not ask whether a seed was played before: a
    result that is submitted a second time is counted again.  When its
    answers pass, a stored streak [s] is raised to [s + 2], as long as
    that is at most 2^53 (and the stored maximum too); the stored result
    is the same after the second submission as after the first. *)
Theorem resubmission_counts_again
    (result : UserResult.t) (r : GameStorage.store) (s : Z) :
  let userId := UserResult.userId result in
  let before := GameStorage.getUserState userId r in
  let once := Server.submitResult result r in
  let twice := Server.submitResult result once.2 in
  streak before = Num s ->
  -9007199254740992 <= s -> s + 2 <= 9007199254740992 ->
  safeNumber (maxStreak before) ->
  SubmitResultResponse.newStreak once.1
  = Num (if passes (UserResult.answers result) then s + 1 else 0) /\
  SubmitResultResponse.newStreak twice.1
  = Num (if passes (UserResult.answers result) then s + 2 else 0) /\
  streak (GameStorage.getUserState userId twice.2) = SubmitResultResponse.newStreak twice.1 /\
  ResultStorage.getUserResult userId (UserResult.seed result) twice.2
  = ResultStorage.getUserResult userId (UserResult.seed result) once.2.
Proof.
  cbv zeta. intros Hs Hlow Hhigh Hmaximum.
  destruct (newStreak_submitResult result r) as (Hfirst & Hkept & Hmax).
  { rewrite Hs. cbn. lia. }
  { exact Hmaximum. }
  cbv zeta in Hfirst, Hkept, Hmax.
  assert (Honce : SubmitResultResponse.newStreak (Server.submitResult result r).1
                  = Num (if passes (UserResult.answers result) then s + 1 else 0)).
  { rewrite Hfirst, Hs. destruct (passes _); [apply add_exact; lia | reflexivity]. }
  destruct (newStreak_submitResult result (Server.submitResult result r).2)
    as (Hsecond & Hkept' & _).
  { rewrite Hkept, Honce. destruct (passes _); cbn; lia. }
  { exact Hmax. }
  cbv zeta in Hsecond, Hkept'.
  split; [exact Honce|]. split; [|split; [exact Hkept'|now rewrite !getUserResult_submitResult]].
  rewrite Hsecond, Hkept, Honce.
  destruct (passes _); [rewrite add_exact by lia; f_equal; lia | reflexivity].
Qed.

(** ** Initialising the content *)

Lemma initializeContent_bank (r : GameStorage.store) :
  GameStorage.getWordBank "de" (ContentManager.initializeContent r) = Some (bankOf r).
Proof.
  unfold ContentManager.initializeContent, bankOf.
  destruct (GameStorage.getWordBank "de" r) as [bank|] eqn:Hbank; [exact Hbank|].
  now rewrite getWordBank_saveWordBank, jsonSlot_items.
Qed.

Lemma generatePuzzleFromBank_initializeContent (seed : string) (r : GameStorage.store) :
  ContentManager.generatePuzzleFromBank seed (ContentManager.initializeContent r)
  = ContentManager.generatePuzzleFromBank seed r.
Proof.
  unfold ContentManager.generatePuzzleFromBank at 1.
  rewrite initializeContent_bank.
  unfold ContentManager.generatePuzzleFromBank, ContentManager.initializeContent, bankOf.
  destruct (GameStorage.getWordBank "de" r) as [bank|]; reflexivity.
Qed.

(** X25.  Initialising the content is optional and harmless: the daily
    puzzle of a seed is the same with and without it, and so is the store
    after a puzzle was made; a bank that is stored is never replaced; and
    initialising twice is the same as initialising once. *)
Theorem initializeContent_is_optional (seed : string) (r : GameStorage.store) :
  let initialized := ContentManager.initializeContent r in
  (ContentManager.getDailyPuzzle seed initialized).1
  = (ContentManager.getDailyPuzzle seed r).1 /\
  (GameStorage.getPuzzle seed r = None ->
   ContentManager.getDailyPuzzle seed initialized = ContentManager.getDailyPuzzle seed r) /\
  (forall bank, GameStorage.getWordBank "de" r = Some bank -> initialized = r) /\
  GameStorage.getWordBank "de" initialized = Some (bankOf r) /\
  ContentManager.initializeContent initialized = initialized.
Proof.
  cbv zeta.
  assert (Hkeep : GameStorage.getPuzzle seed (ContentManager.initializeContent r)
                  = GameStorage.getPuzzle seed r).
  { unfold ContentManager.initializeContent.
    destruct (GameStorage.getWordBank "de" r); [reflexivity | apply getPuzzle_saveWordBank]. }
  assert (Hmiss : GameStorage.getPuzzle seed r = None ->
            ContentManager.getDailyPuzzle seed (ContentManager.initializeContent r)
            = ContentManager.getDailyPuzzle seed r).
  { intros Hnone. rewrite !getDailyPuzzle_miss by (now rewrite ?Hkeep).
    now rewrite generatePuzzleFromBank_initializeContent. }
  split; [|split; [exact Hmiss|split; [|split; [apply initializeContent_bank|]]]].
  - destruct (GameStorage.getPuzzle seed r) as [cached|] eqn:Hcached.
    + rewrite (getDailyPuzzle_hit seed r cached Hcached).
      rewrite (getDailyPuzzle_hit seed _ cached); [reflexivity | now rewrite Hkeep].
    + now rewrite Hmiss.
  - intros bank Hbank. unfold ContentManager.initializeContent. now rewrite Hbank.
  - unfold ContentManager.initializeContent at 1. now rewrite initializeContent_bank.
Qed.

Lemma filter_all {X : Type} (f : X -> bool) (l : list X) :
  (forall x, x ∈ l -> f x = true) -> List.filter f l = l.
Proof.
  induction l as [|x l IH]; intros H; [reflexivity|].
  cbn [List.filter]. rewrite (H x) by apply list_elem_of_here. f_equal.
  apply IH. intros y Hy. apply H. now apply list_elem_of_further.
Qed.

(** X26.  The default words are installed only into a store without a
    bank.  When the first write of the bank is a refresh from Reddit, the
    bank is exactly the fetched items; initialising afterwards changes
    nothing, so the puzzles are drawn from the fetched items alone. *)
Theorem refresh_before_initialize
    (fetchRedditContent : string -> list WordMatch.WordMatchItem)
    (subredditName : option string) (r : GameStorage.store) :
  let fetched := fetchRedditContent (default "German" subredditName) in
  let refreshed :=
    (RedditContentManager.refreshWordBank fetchRedditContent subredditName r).2 in
  GameStorage.getWordBank "de" r = None ->
  fetched <> [] ->
  ContentManager.initializeContent refreshed = refreshed /\
  bankOf refreshed = WordMatch.Item <$> fetched.
Proof.
  cbv zeta. intros Hnone Hne. unfold RedditContentManager.refreshWordBank.
  change RedditContentManager.DEFAULT_SUBREDDIT with "German".
  rewrite Hnone.
  destruct (JsArray.length _ =? 0) eqn:Hlen; [now apply length_zero in Hlen|].
  cbn [default RedditContentManager.ids snd app].
  rewrite filter_all by (intros x _; now rewrite bool_decide_eq_false_2 by apply not_elem_of_nil).
  assert (Hbank : GameStorage.getWordBank "de"
                    (GameStorage.saveWordBank "de"
                       (WordMatch.Item <$> fetchRedditContent (default "German" subredditName)) r)
                  = Some (WordMatch.Item <$> fetchRedditContent (default "German" subredditName)))
    by (now rewrite getWordBank_saveWordBank, jsonSlot_items).
  split.
  - unfold ContentManager.initializeContent. now rewrite Hbank.
  - unfold bankOf. now rewrite Hbank.
Qed.

(** ** The word-match board *)

Section Board.

Variable puzzle : WordMatchDaily.t.
Variable items : list WordMatch.WordMatchItem.
Hypothesis Hitems : WordMatchDaily.items puzzle = WordMatch.Item <$> items.

Lemma currentItem_lookup (st : GameBoard.state) :
  0 <= GameBoard.currentItemIndex st ->
  GameBoard.currentItem puzzle st = items !! Z.to_nat (GameBoard.currentItemIndex st).
Proof.
  intros Hi. unfold GameBoard.currentItem, JsArray.item. rewrite Hitems.
  destruct (Z.leb_spec 0 (GameBoard.currentItemIndex st)); [|lia].
  rewrite list_lookup_fmap. now destruct (items !! _).
Qed.

Lemma length_puzzle_items :
  JsArray.length (WordMatchDaily.items puzzle) = Z.of_nat (length items).
Proof. unfold JsArray.length. now rewrite Hitems, length_fmap. Qed.

Lemma graded_snoc (k : nat) (answers : list GameAnswer) (item : WordMatch.WordMatchItem)
    (a : GameAnswer) :
  graded (take k items) answers ->
  items !! k = Some item ->
  itemId a = WordMatch.id item ->
  correct a = bool_decide (pick a = WordMatch.answerKey item) ->
  graded (take (k + 1) items) (answers ++ [a]).
Proof.
  intros Hg Hk Hid Hc. rewrite Nat.add_1_r, (take_S_r _ _ _ Hk).
  apply Forall2_app; [exact Hg|]. constructor; [now split | constructor].
Qed.

Lemma handleChoiceSelect_inv (st : GameBoard.state) (item : WordMatch.WordMatchItem)
    (choice : ChoiceKey) (endTime : Z) :
  game_inv items st ->
  items !! Z.to_nat (GameBoard.currentItemIndex st) = Some item ->
  game_inv items (GameBoard.handleChoiceSelect item choice endTime st).
Proof.
  intros (Hrange & Hgraded & Htimeout) Hitem. unfold GameBoard.handleChoiceSelect.
  destruct (GameBoard.selectedChoice st) as [chosen|] eqn:Hsel.
  - unfold game_inv. rewrite Hsel. now split.
  - rewrite Nat.add_0_r in Hgraded. unfold game_inv.
    cbn [GameBoard.currentItemIndex GameBoard.answers GameBoard.selectedChoice
         GameBoard.timeout].
    split; [exact Hrange|]. split.
    + now apply (graded_snoc _ _ item).
    + intros index allAnswers [= <- <-]. now split.
Qed.

(** One event keeps the invariant, and what it hands to [onComplete]
    grades every item and closes the board. *)
Lemma game_step (ev : GameBoard.event) (st : GameBoard.state) :
  game_inv items st ->
  game_inv items (GameBoard.handle puzzle ev st).1 /\
  (forall c, (GameBoard.handle puzzle ev st).2 = Some c ->
             graded items c /\
             GameBoard.selectedChoice (GameBoard.handle puzzle ev st).1 <> None /\
             GameBoard.timeout (GameBoard.handle puzzle ev st).1 = None).
Proof.
  intros Hinv. pose proof Hinv as (Hrange & Hgraded & Htimeout).
  assert (Hcurrent : exists item,
            GameBoard.currentItem puzzle st = Some item /\
            items !! Z.to_nat (GameBoard.currentItemIndex st) = Some item).
  { destruct (lookup_lt_is_Some_2 items (Z.to_nat (GameBoard.currentItemIndex st)))
      as [item Hitem]; [lia|].
    exists item. split; [|exact Hitem]. rewrite currentItem_lookup by lia. exact Hitem. }
  destruct Hcurrent as (item & Hcurrent & Hitem).
  destruct ev as [choice endTime | endTime | now |]; cbn [GameBoard.handle].
  - rewrite Hcurrent. cbn [fst snd]. split; [now apply handleChoiceSelect_inv | discriminate].
  - rewrite Hcurrent. cbn [fst snd]. split; [|discriminate].
    unfold GameBoard.handleTimerComplete.
    destruct (GameBoard.selectedChoice st) eqn:Hsel; [exact Hinv|].
    now apply handleChoiceSelect_inv.
  - unfold GameBoard.runTimeout.
    destruct (GameBoard.timeout st) as [[index allAnswers]|] eqn:Hwait;
      [|split; [exact Hinv | discriminate]].
    destruct (Htimeout _ _ eq_refl) as (-> & -> & Hsel).
    destruct (GameBoard.selectedChoice st) as [chosen|] eqn:Hchosen; [|contradiction].
    rewrite length_puzzle_items.
    destruct (Z.ltb_spec (GameBoard.currentItemIndex st) (Z.of_nat (length items) - 1));
      cbn [fst snd].
    + split; [|discriminate]. unfold game_inv.
      cbn [GameBoard.currentItemIndex GameBoard.answers GameBoard.selectedChoice
           GameBoard.timeout].
      split; [lia|]. split; [|discriminate].
      replace (Z.to_nat (GameBoard.currentItemIndex st + 1) + 0)%nat
        with (Z.to_nat (GameBoard.currentItemIndex st) + 1)%nat by lia.
      exact Hgraded.
    + split.
      * unfold game_inv.
        cbn [GameBoard.currentItemIndex GameBoard.answers GameBoard.selectedChoice
             GameBoard.timeout].
        rewrite ?Hchosen. split; [exact Hrange|]. split; [exact Hgraded | discriminate].
      * intros c [= <-].
        cbn [GameBoard.selectedChoice GameBoard.timeout]. rewrite ?Hchosen.
        split; [|split; [discriminate | reflexivity]].
        rewrite take_ge in Hgraded by lia. exact Hgraded.
  - rewrite Hcurrent. cbn [fst snd]. split; [exact Hinv | discriminate].
Qed.

(** A board that has handed its answers over takes no further event. *)
Lemma play_closed (events : list GameBoard.event) (st : GameBoard.state) :
  game_inv items st ->
  GameBoard.selectedChoice st <> None ->
  GameBoard.timeout st = None ->
  GameBoard.play puzzle events st = (st, []).
Proof.
  intros (Hrange & _) Hsel Hwait.
  assert (Hcurrent : exists item, GameBoard.currentItem puzzle st = Some item).
  { destruct (lookup_lt_is_Some_2 items (Z.to_nat (GameBoard.currentItemIndex st)))
      as [item Hitem]; [lia|].
    exists item. rewrite currentItem_lookup by lia. exact Hitem. }
  destruct Hcurrent as (item & Hcurrent).
  assert (Hstep : forall ev, GameBoard.handle puzzle ev st = (st, None)).
  { intros [choice endTime | endTime | now |]; cbn [GameBoard.handle].
    - rewrite Hcurrent. unfold GameBoard.handleChoiceSelect.
      now destruct (GameBoard.selectedChoice st).
    - rewrite Hcurrent. unfold GameBoard.handleTimerComplete.
      now destruct (GameBoard.selectedChoice st).
    - unfold GameBoard.runTimeout. now rewrite Hwait.
    - now rewrite Hcurrent. }
  induction events as [|ev events IH]; [reflexivity|].
  cbn [GameBoard.play]. now rewrite Hstep, IH.
Qed.

Lemma play_graded (events : list GameBoard.event) (st : GameBoard.state) :
  game_inv items st ->
  (GameBoard.play puzzle events st).2 = [] \/
  exists c, (GameBoard.play puzzle events st).2 = [c] /\ graded items c.
Proof.
  revert st. induction events as [|ev events IH]; intros st Hinv; [now left|].
  cbn [GameBoard.play].
  destruct (game_step ev st Hinv) as [Hnext Hdone].
  destruct (GameBoard.handle puzzle ev st) as [st' [c|]] eqn:Hstep; cbn [fst snd] in *.
  - destruct (Hdone c eq_refl) as (Hc & Hsel & Hwait).
    rewrite (play_closed events st' Hnext Hsel Hwait). right. exists c. now split.
  - specialize (IH st' Hnext).
    destruct (GameBoard.play puzzle events st') as [st'' cs]. exact IH.
Qed.

(** The turns of a player from an item on: the board hands over the
    answers it held, followed by the answers of the turns. *)
Lemma play_turns (rest : list WordMatch.WordMatchItem) :
  forall (done : list WordMatch.WordMatchItem) (turns : list turn) (st : GameBoard.state),
    items = done ++ rest ->
    rest <> [] ->
    length turns = length rest ->
    GameBoard.currentItemIndex st = Z.of_nat (length done) ->
    GameBoard.selectedChoice st = None ->
    GameBoard.timeout st = None ->
    (GameBoard.play puzzle (eventsOf turns) st).2
    = [GameBoard.answers st ++ answersOf rest turns (GameBoard.startTime st)].
Proof.
  induction rest as [|item rest IH]; intros done turns st Hsplit Hne Hlen Hindex Hsel Hwait;
    [contradiction|].
  destruct turns as [|t turns]; [discriminate Hlen|]. injection Hlen as Hlen.
  assert (Hitem : GameBoard.currentItem puzzle st = Some item).
  { rewrite currentItem_lookup by lia. rewrite Hindex, Nat2Z.id, Hsplit.
    now rewrite lookup_app_r, Nat.sub_diag by lia. }
  set (a := {| itemId := WordMatch.id item; pick := pickOf (made t);
               correct := bool_decide (pickOf (made t) = WordMatch.answerKey item);
               ms := clicked t - GameBoard.startTime st |}).
  set (chosen := {| GameBoard.currentItemIndex := GameBoard.currentItemIndex st;
                    GameBoard.answers := GameBoard.answers st ++ [a];
                    GameBoard.startTime := GameBoard.startTime st;
                    GameBoard.selectedChoice := Some (pickOf (made t));
                    GameBoard.isTimerRunning := false;
                    GameBoard.timeout :=
                      Some (GameBoard.currentItemIndex st, GameBoard.answers st ++ [a]) |}).
  assert (Hclick : GameBoard.handle puzzle
                     match made t with
                     | Choose choice => GameBoard.ChoiceSelect choice (clicked t)
                     | Skip => GameBoard.TimerComplete (clicked t)
                     end st
                   = (chosen, None)).
  { destruct (made t) eqn:Hmade; cbn [GameBoard.handle]; rewrite Hitem;
      unfold GameBoard.handleTimerComplete, GameBoard.handleChoiceSelect; rewrite Hsel;
      subst chosen a; rewrite ?Hmade; reflexivity. }
  change (eventsOf (t :: turns))
    with (match made t with
          | Choose choice => GameBoard.ChoiceSelect choice (clicked t)
          | Skip => GameBoard.TimerComplete (clicked t)
          end :: GameBoard.Timeout (resumed t) :: eventsOf turns).
  cbn [GameBoard.play]. rewrite Hclick. cbn [GameBoard.handle].
  unfold GameBoard.runTimeout. cbn [GameBoard.timeout chosen]. rewrite length_puzzle_items.
  rewrite Hsplit, length_app.
  destruct rest as [|next rest]; cbn [length].
  - destruct turns; [|discriminate Hlen].
    match goal with |- context [?x <? ?y] => destruct (Z.ltb_spec x y) end; [lia|].
    reflexivity.
  - match goal with |- context [?x <? ?y] => destruct (Z.ltb_spec x y) end; [|lia].
    cbn [GameBoard.currentItemIndex GameBoard.answers chosen].
    set (st' := {| GameBoard.currentItemIndex := GameBoard.currentItemIndex st + 1 |}).
    specialize (IH (done ++ [item]) turns st').
    destruct (GameBoard.play puzzle (eventsOf turns) st') as [st'' cs].
    cbn [snd option_list app] in *. rewrite IH.
    + cbn [GameBoard.answers GameBoard.startTime st']. now rewrite <- app_assoc.
    + now rewrite <- app_assoc.
    + discriminate.
    + exact Hlen.
    + cbn [GameBoard.currentItemIndex st']. rewrite length_app. cbn [length]. lia.
    + reflexivity.
    + reflexivity.
Qed.

End Board.

Lemma graded_ids (items : list WordMatch.WordMatchItem) (answers : list GameAnswer) :
  graded items answers -> itemId <$> answers = WordMatch.id <$> items.
Proof.
  induction 1 as [|item a its answers [Hid _] _ IH]; [reflexivity|].
  cbn [fmap list_fmap]. f_equal; assumption.
Qed.

Lemma initial_game_inv (items : list WordMatch.WordMatchItem) (startTime : Z) :
  items <> [] -> game_inv items (GameBoard.initial startTime).
Proof.
  intros Hne. unfold game_inv, GameBoard.initial.
  cbn [GameBoard.currentItemIndex GameBoard.answers GameBoard.selectedChoice
       GameBoard.timeout].
  split; [destruct items; [contradiction | cbn [length]; lia]|].
  split; [apply Forall2_nil_2 | discriminate].
Qed.

(** X27.  On a puzzle whose slots all hold items, whatever is clicked and
    whenever the timer and the pauses run out, the board calls
    [onComplete] at most once, and with one answer for every item of the
    puzzle, in the order of the items: each answer has the id of its item
    and is marked correct exactly when its pick is the answer key. *)
Theorem game_grades_every_item_once
    (puzzle : WordMatchDaily.t) (items : list WordMatch.WordMatchItem)
    (events : list GameBoard.event) (startTime : Z) :
  WordMatchDaily.items puzzle = WordMatch.Item <$> items ->
  items <> [] ->
  let completions := (GameBoard.play puzzle events (GameBoard.initial startTime)).2 in
  completions = [] \/
  exists answers,
    completions = [answers] /\
    graded items answers /\
    itemId <$> answers = WordMatch.id <$> items.
Proof.
  intros Hitems Hne. cbv zeta.
  destruct (play_graded puzzle items Hitems events (GameBoard.initial startTime)
              (initial_game_inv items startTime Hne)) as [Hnone | (c & Hc & Hgraded)];
    [now left | right].
  exists c. split; [exact Hc|]. split; [exact Hgraded | now apply graded_ids].
Qed.

(** X28.  A player who takes one turn for every item, a choice or a skip,
    each followed by the end of its pause, completes the game: the board
    calls [onComplete] once, after the last pause, with the answers of
    the turns.  A skip, and a timer that runs out, is recorded as the
    pick A, so it is marked correct when A is the answer key; the time of
    an answer runs from the end of the pause before it.  The score the
    server computes for these answers is the number of turns whose pick
    is the answer key of their item. *)
Theorem game_completes_with_the_turns
    (puzzle : WordMatchDaily.t) (items : list WordMatch.WordMatchItem)
    (turns : list turn) (startTime : Z) :
  WordMatchDaily.items puzzle = WordMatch.Item <$> items ->
  items <> [] ->
  length turns = length items ->
  (GameBoard.play puzzle (eventsOf turns) (GameBoard.initial startTime)).2
  = [answersOf items turns startTime] /\
  pick <$> answersOf items turns startTime = pickOf <$> (made <$> turns) /\
  Scoring.score (Scoring.computeScore (answersOf items turns startTime))
  = Z.of_nat (length (List.filter
                        (fun played => bool_decide (pickOf (made played.2)
                                                    = WordMatch.answerKey played.1))
                        (zip items turns))).
Proof.
  intros Hitems Hne Hlen. split; [|split].
  - now rewrite (play_turns puzzle items Hitems items [] turns (GameBoard.initial startTime)).
  - clear Hitems Hne. revert turns startTime Hlen.
    induction items as [|item items IH]; intros [|t turns] startTime Hlen;
      try discriminate Hlen; [reflexivity|].
    injection Hlen as Hlen. cbn [answersOf fmap list_fmap]. f_equal. now apply IH.
  - unfold Scoring.computeScore. cbn [Scoring.score]. f_equal.
    clear Hitems Hne. revert turns startTime Hlen.
    induction items as [|item items IH]; intros [|t turns] startTime Hlen;
      try discriminate Hlen; [reflexivity|].
    injection Hlen as Hlen. cbn [answersOf zip zip_with List.filter correct fst snd].
    destruct (bool_decide _); cbn [length]; now rewrite (IH turns (resumed t) Hlen).
Qed.

(** X29.  A puzzle whose first slot holds no item cannot be played: no
    click and no timer changes the board, and all the board can hand to
    [onComplete] is an empty list of answers. *)
Theorem game_without_first_item
    (puzzle : WordMatchDaily.t) (events : list GameBoard.event) (startTime : Z) :
  GameBoard.currentItem puzzle (GameBoard.initial startTime) = None ->
  (GameBoard.play puzzle events (GameBoard.initial startTime)).1 = GameBoard.initial startTime /\
  Forall (fun answers => answers = []) (GameBoard.play puzzle events (GameBoard.initial startTime)).2.
Proof.
  intros Hnone.
  assert (Hstep : forall ev,
            GameBoard.handle puzzle ev (GameBoard.initial startTime)
            = (GameBoard.initial startTime,
               match ev with GameBoard.ReturnHome => Some [] | _ => None end)).
  { intros [choice endTime | endTime | now |]; cbn [GameBoard.handle];
      rewrite ?Hnone; reflexivity. }
  induction events as [|ev events [IHst IHcs]]; [split; [reflexivity | apply Forall_nil_2]|].
  cbn [GameBoard.play]. rewrite Hstep.
  destruct (GameBoard.play puzzle events (GameBoard.initial startTime)) as [st cs].
  cbn [fst snd] in *. split; [exact IHst|].
  destruct ev; cbn [option_list app]; try exact IHcs. now apply Forall_cons.
Qed.

(** ** Words around a seed word *)

Lemma slice0_elem {X : Type} (l : list X) (count : Z) (x : X) :
  x ∈ JsArray.slice0 l count -> x ∈ l.
Proof.
  unfold JsArray.slice0. destruct (0 <=? count); apply subseteq_take.
Qed.

Lemma generateHint_truthy
    (searchWord : string -> Thesaurus.SearchOptions -> option Thesaurus.Response)
    (word : string) :
  JsString.truthy (Thesaurus.generateHint searchWord word) = true.
Proof.
  unfold Thesaurus.generateHint. now destruct (Thesaurus.getSynonyms searchWord word).
Qed.

(** Where a fetched word comes from. *)
Lemma fetchRandomWords_word
    (searchWord : string -> Thesaurus.SearchOptions -> option Thesaurus.Response)
    (shuffle : list string -> list string) (seedWord : string) (count : Z)
    (x : HangmanWord) :
  (forall pool, shuffle pool ⊆ pool) ->
  x ∈ SeedWords.fetchRandomWords searchWord shuffle seedWord count ->
  (3 <= String.length (word x))%nat /\
  hint x = Thesaurus.generateHint searchWord (word x) /\
  (word x ∈ SeedWords.getWordsStartingWith searchWord (String.substring 0 1 seedWord) \/
   word x ∈ SeedWords.getWordsWithSubstring searchWord (String.substring 0 3 seedWord)).
Proof.
  intros Hshuffle. unfold SeedWords.fetchRandomWords.
  intros (found & -> & Hfound)%list_elem_of_fmap. cbn [word hint].
  apply slice0_elem, Hshuffle, elem_of_filter_bool in Hfound as [Hpool Hlen].
  split; [unfold JsString.length in Hlen; lia|]. split; [reflexivity|].
  destruct (_ && _); [|now left].
  apply unique_elem in Hpool as [Hpool _]. now apply elem_of_app in Hpool.
Qed.

(** X30.  An enrichment around a seed word returns the number of
    entries it added.  An entry of a tier after the call was in that tier
    before, or its word is a word the thesaurus listed for the first
    letter or the first three letters of the seed word, has at least three
    letters, is filed in the tier the thesaurus client estimates for it,
    and has the hint the thesaurus client made for it, which is not
    empty. *)
Theorem seed_word_enrichment_adds_listed_words
    (searchWord : string -> Thesaurus.SearchOptions -> option Thesaurus.Response)
    (shuffle : list string -> list string) (seedWord : string) (count : Z)
    (w : WordEnricherRedis.world) (d : HangmanDifficulty) :
  let p0 := WordEnricherRedis.enrichedWords (WordEnricherRedis.initialize w) in
  let outcome := SeedWords.enrichWithSeedWord searchWord shuffle seedWord count w in
  let p1 := WordEnricherRedis.enrichedWords outcome.2 in
  (forall pool, shuffle pool ⊆ pool) ->
  outcome.1 = Z.of_nat (length (WordEnricherRedis.allWords p1))
              - Z.of_nat (length (WordEnricherRedis.allWords p0)) /\
  Forall
    (fun x =>
       x ∈ WordEnricherRedis.tier p0 d \/
       ((3 <= String.length (word x))%nat /\
        OpenThesaurusAPI.estimateWordDifficulty (word x) = d /\
        hint x = Thesaurus.generateHint searchWord (word x) /\
        JsString.truthy (hint x) = true /\
        (word x ∈ SeedWords.getWordsStartingWith searchWord (String.substring 0 1 seedWord) \/
         word x ∈ SeedWords.getWordsWithSubstring searchWord (String.substring 0 3 seedWord))))
    (WordEnricherRedis.tier p1 d).
Proof.
  cbv zeta. intros Hshuffle. unfold SeedWords.enrichWithSeedWord.
  set (fetched := SeedWords.fetchRandomWords searchWord shuffle seedWord count).
  set (w0 := WordEnricherRedis.initialize w) in *.
  pose proof (fold_addEntry_inv OpenThesaurusAPI.estimateWordDifficulty _ fetched _
                (start_inv w0)) as Hinv.
  split.
  - apply finish_enriched in Hinv. destruct Hinv as (_ & _ & _ & _ & Hcount). exact Hcount.
  - unfold WordEnricherRedis.finish. cbn [snd]. rewrite enrichedWords_persist.
    cbn [WordEnricherRedis.setPools WordEnricherRedis.enrichedWords].
    destruct Hinv as (Hsplit & _). rewrite Hsplit.
    apply Forall_forall. intros x [Hx | Hx]%elem_of_app; [now left | right].
    assert (Hnone : forall y, y ∈ WordEnricherRedis.allWords WordEnricherRedis.noWords -> False)
      by (intros y Hy; inversion Hy).
    assert (Hfile : OpenThesaurusAPI.estimateWordDifficulty (word x) = d).
    { revert Hx. apply fold_addEntry_tier. intros d' y Hy. exfalso. apply (Hnone y).
      apply elem_of_allWords. eauto. }
    assert (Hall : x ∈ WordEnricherRedis.allWords
                         (WordEnricherRedis.byDifficulty
                            (fold_left
                               (WordEnricherRedis.addEntry OpenThesaurusAPI.estimateWordDifficulty)
                               fetched (WordEnricherRedis.start w0))))
      by (apply elem_of_allWords; eauto).
    pose proof (fold_addEntry_from OpenThesaurusAPI.estimateWordDifficulty
                  (fun y => y ∈ fetched) fetched (WordEnricherRedis.start w0)) as Hfrom.
    assert (Hfetched : x ∈ fetched).
    { apply Hfrom; [now apply Forall_forall | intros y Hy; destruct (Hnone y Hy) | exact Hall]. }
    destruct (fetchRandomWords_word _ _ _ _ _ Hshuffle Hfetched) as (Hlen & Hhint & Hlisted).
    split; [exact Hlen|]. split; [exact Hfile|]. split; [exact Hhint|].
    split; [rewrite Hhint; apply generateHint_truthy | exact Hlisted].
Qed.

(** ** Further runs on concrete inputs *)

(** A pool whose words pass the check is a pool of plain words. *)
Lemma plain_pool_check (p : WordEnricherRedis.pools) :
  forallb (fun x => plainWord (word x)) (WordEnricherRedis.allWords p) = true -> plain_pool p.
Proof.
  intros Hall x Hx. apply list_elem_of_In in Hx.
  exact (proj1 (forallb_forall _ _) Hall x Hx).
Qed.

(** On a loaded pool, the word "kirsche" is added to the medium tier and
    is the last field of its hash, the store holds what the cache holds,
    and the word is not added again. *)
Lemma addWord_persists_run :
  let outcome := WordEnricherRedis.addWord " Kirsche" "" None loadedWorld in
  outcome.1 = true /\
  WordEnricherRedis.hGetAll outcome.2 "german_words:medium"
  = [("kirsche", "A German word with 7 letters")] /\
  mirrored outcome.2 /\
  (WordEnricherRedis.addWord "KIRSCHE " "A fruit" (Some Hard) outcome.2).1 = false.
Proof.
  cbv zeta.
  destruct (addWord_persists_the_word " Kirsche" "" None loadedWorld
              ltac:(vm_compute; discriminate)) as (_ & Hnew & Hmirrored & Hagain).
  assert (Hm : mirrored (WordEnricherRedis.initialize loadedWorld))
    by (intros []; vm_compute; reflexivity).
  destruct Hnew as (Hadded & _ & _ & Hlast).
  { apply exists_absent. vm_compute. reflexivity. }
  split; [exact Hadded|]. split; [|split].
  - exact (Hlast Hm).
  - exact (Hmirrored Hm).
  - apply Hagain. vm_compute. reflexivity.
Defined.

(** On the same pool, both enrichments leave the store a mirror of the
    cache. *)
Lemma enrichment_mirrored_run :
  mirrored (WordEnricherRedis.enrichWithRandomGermanWords fetchThree 6 loadedWorld).2 /\
  mirrored (WordEnricherRedis.searchAndAddWords thesaurus (fun l => l) "apf" 6 loadedWorld).2 /\
  mirrored (SeedWords.enrichWithSeedWord listing reverse "apf" 6 loadedWorld).2.
Proof.
  destruct (enrichment_keeps_store_mirrored fetchThree thesaurus (fun l => l) listing
              "apf" 6 loadedWorld) as (Hrandom & Hfound & _).
  { intros []; vm_compute; reflexivity. }
  destruct (enrichment_keeps_store_mirrored fetchThree thesaurus reverse listing
              "apf" 6 loadedWorld) as (_ & _ & Hseeded).
  { intros []; vm_compute; reflexivity. }
  split; [|split].
  - apply Hrandom, plain_pool_check. vm_compute. reflexivity.
  - apply Hfound, plain_pool_check. vm_compute. reflexivity.
  - apply Hseeded, plain_pool_check. vm_compute. reflexivity.
Defined.

(** "Haus", added without a hint, is served after a restart with the
    default hint. *)
Lemma restart_run :
  (WordEnricherRedis.getWords Easy
     (restart (WordEnricherRedis.addWord "Haus" "" None emptyWorld).2)).1
  = [{| word := "haus"; hint := "A German word with 4 letters" |}].
Proof.
  assert (Hm : mirrored (WordEnricherRedis.addWord "Haus" "" None emptyWorld).2)
    by (intros []; vm_compute; reflexivity).
  assert (Hplain : plain_pool
                     (WordEnricherRedis.enrichedWords
                        (WordEnricherRedis.addWord "Haus" "" None emptyWorld).2))
    by (apply plain_pool_check; vm_compute; reflexivity).
  assert (Honce : listed_once
                    (WordEnricherRedis.enrichedWords
                       (WordEnricherRedis.addWord "Haus" "" None emptyWorld).2))
    by (intros []; refine (bool_decide_unpack _ _); vm_compute; exact I).
  rewrite (proj1 (restart_reloads_pool _ Easy Hm Hplain Honce)). vm_compute. reflexivity.
Defined.

(** The puzzle of the seed of a September morning. *)
Lemma daily_seed_run :
  exists puzzle,
    (ContentManager.getDailyPuzzle "2025-09-01:de" emptyStore).1 = Ok puzzle /\
    WordMatchDaily.date puzzle = "2025-09-01" /\
    WordMatchDaily.lang puzzle = "de".
Proof.
  destruct (daily_seed_read_back morning "de" None emptyStore)
    as (puzzle & Hok & _ & Hdate & Hlang & _).
  - discriminate.
  - refine (bool_decide_unpack _ _). vm_compute. exact I.
  - refine (bool_decide_unpack _ _). vm_compute. exact I.
  - reflexivity.
  - exists puzzle. split; [exact Hok|]. split; [exact Hdate | exact Hlang].
Defined.

(** Two users: a result of "anna" leaves the streak of "ben" at one. *)
Lemma other_user_run :
  let r := (Server.submitResult (played "ben" "2025-09-01:de") emptyStore).2 in
  streak (GameStorage.getUserState "ben"
            (Server.submitResult (played "anna" "2025-09-01:de") r).2) = Num 1.
Proof.
  cbv zeta.
  rewrite (proj1 (submit_result_leaves_other_users (played "anna" "2025-09-01:de") "ben" _
                    ltac:(discriminate)
                    ltac:(refine (bool_decide_unpack _ _); vm_compute; exact I))).
  vm_compute. reflexivity.
Defined.

(** The game of a September day over the stored pool: its seed is
    [2025-09-01:de:hangman] and its word is one of the two easy words. *)
Lemma createHangmanGame_run :
  let outcome :=
    HangmanManager.createHangmanGame fetchThree morning None (Some Easy) storedWorld ∅ in
  exists game,
    outcome.1.1 = Ok game /\
    HangmanGame.id game = "2025-09-01:de:hangman" /\
    HangmanGame.maxAttempts game = 6 /\
    HangmanManager.getHangmanGame "2025-09-01:de:hangman" outcome.2 = Some game.
Proof.
  cbv zeta.
  destruct (createHangmanGame_new_game fetchThree morning None (Some Easy) storedWorld ∅)
    as [(game & Hok & _ & Hid & _ & _ & Hmax & _ & Hget) | (Hthrow & _)].
  - reflexivity.
  - exists game. split; [exact Hok|]. split; [exact Hid|]. split; [exact Hmax | exact Hget].
  - vm_compute in Hthrow. discriminate Hthrow.
Defined.

(** The game of the morning is the game of the evening, also when the hard
    tier is asked for and the pool is empty by then. *)
Lemma createHangmanGame_twice :
  let first :=
    HangmanManager.createHangmanGame fetchThree morning None (Some Easy) storedWorld ∅ in
  exists game,
    first.1.1 = Ok game /\
    HangmanManager.createHangmanGame (fun _ => None) evening None (Some Hard) emptyWorld first.2
    = (Ok game, emptyWorld, first.2).
Proof.
  cbv zeta. eexists. split; [vm_compute; reflexivity|].
  apply createHangmanGame_same_game_all_day; [reflexivity | vm_compute; reflexivity].
Defined.

(** "Haus" is won with the keys h, a, x, u, s: one miss, four letters
    right, and the full efficiency bonus. *)
Lemma keyboard_win_run :
  exists c,
    (HangmanBoard.play hausGame (keys ["h"; "a"; "x"; "u"; "s"]) (HangmanBoard.initial 0)).2 = [c] /\
    HangmanCompletion.success c = true /\
    Hangman.correctGuesses (HangmanCompletion.guesses c) = 4 /\
    Hangman.efficiencyBonus (HangmanCompletion.word c) (HangmanCompletion.guesses c) = 50.
Proof.
  assert (Hkeys : onKeyboard (keys ["h"; "a"; "x"; "u"; "s"])).
  { unfold onKeyboard. cbn. repeat constructor;
      (refine (bool_decide_unpack _ _); vm_compute; exact I). }
  pose proof (keyboard_win_is_efficient hausGame _ 0 Hkeys) as Hall.
  destruct (HangmanBoard.play hausGame (keys ["h"; "a"; "x"; "u"; "s"]) (HangmanBoard.initial 0))
    as [st [|c [|c' rest]]] eqn:Hplay; try (vm_compute in Hplay; discriminate Hplay).
  apply Forall_inv in Hall. cbv zeta in Hall. destruct Hall as [_ Hwin].
  assert (Hsuccess : HangmanCompletion.success c = true).
  { vm_compute in Hplay. now injection Hplay as _ <-. }
  destruct (Hwin Hsuccess) as (Hcount & Hbonus & _).
  exists c. split; [reflexivity|]. split; [exact Hsuccess|]. split; [|exact Hbonus].
  vm_compute in Hplay. now injection Hplay as _ <-.
Defined.

(** "e-mail" has a hyphen: with every letter of it guessed and six
    misses, the board reports a loss. *)
Lemma off_keyboard_run :
  Forall (fun c => HangmanCompletion.success c = false)
    (HangmanBoard.play mailGame
       (keys ["e"; "m"; "a"; "i"; "l"; "b"; "c"; "d"; "f"; "g"; "h"])
       (HangmanBoard.initial 0)).2 /\
  length (HangmanBoard.play mailGame
            (keys ["e"; "m"; "a"; "i"; "l"; "b"; "c"; "d"; "f"; "g"; "h"])
            (HangmanBoard.initial 0)).2 = 1%nat.
Proof.
  split; [|vm_compute; reflexivity].
  apply (word_off_keyboard_is_never_won mailGame _ 0 "-").
  - unfold onKeyboard. cbn. repeat constructor;
      (refine (bool_decide_unpack _ _); vm_compute; exact I).
  - refine (bool_decide_unpack _ _). vm_compute. exact I.
  - refine (bool_decide_unpack _ _). vm_compute. exact I.
Defined.

(** The result of "anna" for a day stays when "ben" submits his, and
    when "anna" submits the result of the next day. *)
Lemma result_kept_run :
  let r := (Server.submitResult (played "anna" "2025-09-01:de") emptyStore).2 in
  ResultStorage.getUserResult "anna" "2025-09-01:de"
    (Server.submitResult (played "ben" "2025-09-01:de") r).2
  = Some {| StoredResult.userId := "anna"; StoredResult.seed := "2025-09-01:de";
            StoredResult.score := 1; StoredResult.timeMs := Some 900;
            StoredResult.answers := UserResult.answers (played "anna" "2025-09-01:de") |} /\
  ResultStorage.getUserResult "anna" "2025-09-01:de"
    (Server.submitResult (played "anna" "2025-09-02:de") r).2
  = ResultStorage.getUserResult "anna" "2025-09-01:de" r.
Proof.
  cbv zeta. split.
  - rewrite (proj2 (result_kept_per_user_and_seed (played "ben" "2025-09-01:de")
                      "anna" "2025-09-01:de" _
                      ltac:(refine (bool_decide_unpack _ _); vm_compute; exact I)
                      ltac:(refine (bool_decide_unpack _ _); vm_compute; exact I)
                      ltac:(discriminate)
                      ltac:(repeat constructor; cbn; lia)
                      ltac:(vm_compute; discriminate))).
    vm_compute. reflexivity.
  - apply (result_kept_per_user_and_seed (played "anna" "2025-09-02:de")
             "anna" "2025-09-01:de").
    + refine (bool_decide_unpack _ _). vm_compute. exact I.
    + refine (bool_decide_unpack _ _). vm_compute. exact I.
    + discriminate.
    + repeat constructor. cbn. lia.
    + vm_compute. discriminate.
Defined.

(** A result without answers, sent with a score of 7 and a time of 99,
    is answered with a score of 0, a time of 0 and a streak of 1. *)
Lemma submit_result_without_answers_run :
  let result := {| UserResult.userId := "anna"; UserResult.seed := "2025-09-01:de";
                   UserResult.score := 7; UserResult.timeMs := Num 99;
                   UserResult.answers := [] |} in
  let response := (Server.submitResult result emptyStore).1 in
  SubmitResultResponse.score response = 0 /\
  SubmitResultResponse.timeMs response = Num 0 /\
  SubmitResultResponse.newStreak response = Num 1.
Proof.
  cbv zeta.
  destruct (submit_result_without_answers "anna" "2025-09-01:de" 7 (Num 99) emptyStore)
    as (Hscore & _ & Htime & Hstreak).
  - vm_compute. split; [discriminate | reflexivity].
  - vm_compute. split; discriminate.
  - split; [exact Hscore|]. split; [exact Htime|].
    exact (proj1 (Hstreak 0 eq_refl)).
Defined.

(** The result of "anna", submitted twice on a fresh store, gives her a
    streak of two. *)
Lemma resubmission_run :
  let once := Server.submitResult (played "anna" "2025-09-01:de") emptyStore in
  let twice := Server.submitResult (played "anna" "2025-09-01:de") once.2 in
  SubmitResultResponse.newStreak once.1 = Num 1 /\
  SubmitResultResponse.newStreak twice.1 = Num 2.
Proof.
  cbv zeta.
  destruct (resubmission_counts_again (played "anna" "2025-09-01:de") emptyStore 0)
    as (Honce & Htwice & _).
  - reflexivity.
  - lia.
  - lia.
  - vm_compute. split; discriminate.
  - split; [exact Honce | exact Htwice].
Defined.

(** On a fresh store, a refresh that fetched two items leaves a bank of
    these two items, and initialising afterwards adds nothing. *)
Lemma refresh_before_initialize_run :
  let fetch (subreddit : string) := take 2 ContentManager.GERMAN_WORD_BANK in
  let refreshed := (RedditContentManager.refreshWordBank fetch None emptyStore).2 in
  ContentManager.initializeContent refreshed = refreshed /\
  length (bankOf refreshed) = 2%nat.
Proof.
  cbv zeta.
  destruct (refresh_before_initialize (fun _ => take 2 ContentManager.GERMAN_WORD_BANK)
              None emptyStore) as [Hsame Hbank].
  - reflexivity.
  - discriminate.
  - split; [exact Hsame|]. rewrite Hbank. reflexivity.
Defined.

(** The hasty player completes the puzzle of three words once, with an
    answer for each of the three words. *)
Lemma game_grades_run :
  exists answers,
    (GameBoard.play threeWords hastyClicks (GameBoard.initial 1000)).2 = [answers] /\
    itemId <$> answers = ["w1"; "w2"; "w3"].
Proof.
  destruct (game_grades_every_item_once threeWords (take 3 ContentManager.GERMAN_WORD_BANK)
              hastyClicks 1000) as [Hnone | (answers & Hplay & _ & Hids)].
  - reflexivity.
  - discriminate.
  - vm_compute in Hnone. discriminate Hnone.
  - exists answers. split; [exact Hplay | exact Hids].
Defined.

(** The three turns on the three words: B is right for "embarrassed", the
    skip is recorded as A, which is right for "kitchen", and C is right
    for "friend"; the server counts three correct answers. *)
Lemma game_completes_run :
  exists answers,
    (GameBoard.play threeWords (eventsOf threeTurns) (GameBoard.initial 1000)).2 = [answers] /\
    pick <$> answers = [B; A; C] /\
    correct <$> answers = [true; true; true] /\
    ms <$> answers = [1500; 10000; 1500] /\
    Scoring.score (Scoring.computeScore answers) = 3.
Proof.
  destruct (game_completes_with_the_turns threeWords (take 3 ContentManager.GERMAN_WORD_BANK)
              threeTurns 1000) as (Hplay & Hpicks & Hscore).
  - reflexivity.
  - discriminate.
  - reflexivity.
  - eexists. split; [exact Hplay|]. split; [exact Hpicks|].
    split; [reflexivity|]. split; [reflexivity|]. rewrite Hscore. reflexivity.
Defined.

(** The puzzle without items: the clicks do nothing, and the button of
    the error screen hands over no answers. *)
Lemma game_without_items_run :
  (GameBoard.play emptyPuzzle
     [GameBoard.ChoiceSelect A 100; GameBoard.TimerComplete 200; GameBoard.ReturnHome]
     (GameBoard.initial 0)).2 = [[]].
Proof.
  pose proof (game_without_first_item emptyPuzzle
                [GameBoard.ChoiceSelect A 100; GameBoard.TimerComplete 200; GameBoard.ReturnHome]
                0 eq_refl) as [_ Hall].
  destruct (GameBoard.play emptyPuzzle _ _).2 as [|c [|c' rest]] eqn:Hplay;
    try (vm_compute in Hplay; discriminate Hplay).
  apply Forall_inv in Hall. now rewrite Hall.
Defined.

(** Around the seed word "Apfel" the stored pool grows by the three
    listed words of three letters or more. *)
Lemma seed_word_run :
  let outcome := SeedWords.enrichWithSeedWord listing reverse "Apfel" 5 storedWorld in
  outcome.1 = 3 /\
  word <$> WordEnricherRedis.tier (WordEnricherRedis.enrichedWords outcome.2) Medium
  = ["Zapfen"; "Apfelbaum"; "Ananas"].
Proof.
  cbv zeta.
  destruct (seed_word_enrichment_adds_listed_words listing reverse "Apfel" 5 storedWorld Medium)
    as (Hcount & _).
  - intros pool x Hx. exact (proj1 (elem_of_reverse x pool) Hx).
  - split; [rewrite Hcount|]; vm_compute; reflexivity.
Defined.
